(** * AI Hunger Games: the round engine, verified over a shallow embedding

    This development embeds the algorithmic core of the Python package
    [ai_hunger_games] (agent.py, voting.py, evolution.py, simulation.py,
    llm_interface.py, config.py) and proves properties of it.

    Modelling conventions.
    - A Python [str] is a [string]; a character stands for a code point
      below 256, and the character classes used by [str.strip],
      [str.lower] and [str.isdigit] are the Unicode ones restricted to
      that range.
    - A Python [dict] is an association list in insertion order: assigning
      to an existing key keeps its position, a new key goes to the end.
    - Counters that start at 0 and are only ever incremented are [nat];
      integers coming from arguments (round numbers, generations) are [Z].
    - The language model, the random source and the wall clock are
      oracles indexed by the number of calls made so far; the counters
      live in a [World] that every effectful function threads through.
    - Console output and the SimulationLogger (pure bookkeeping that never
      feeds back into the engine) are left out.
    - An Agent object is a record value. The historical roster shares its
      objects with the population in Python; the only fields read from
      the roster, the name and the parent's name, never change after
      construction, so the roster holds the agents as they were created. *)

From Stdlib Require Import ZArith QArith Ascii String.
From stdpp Require Import base list strings pretty.

Open Scope Z_scope.
Open Scope stdpp_scope.

(* ===================================================================== *)
(** * Python primitives *)
(* ===================================================================== *)

Module Py.

(** ** Characters and strings *)

Definition chr (n : nat) : ascii := ascii_of_nat n.
Definition ord (c : ascii) : nat := nat_of_ascii c.

Definition nl : string := String (chr 10) EmptyString.

(** [str.isspace] on one code point below 256. *)
Definition isspace (c : ascii) : bool :=
  let n := ord c in
  ((9 <=? n) && (n <=? 13) || (28 <=? n) && (n <=? 32)
   || (n =? 133) || (n =? 160))%nat.

(** [str.isdigit] on one code point below 256: the ASCII digits and the
    superscripts two, three and one. *)
Definition isdigit (c : ascii) : bool :=
  let n := ord c in
  ((48 <=? n) && (n <=? 57) || (n =? 178) || (n =? 179) || (n =? 185))%nat.

Definition lower_char (c : ascii) : ascii :=
  let n := ord c in
  if ((65 <=? n) && (n <=? 90)
      || (192 <=? n) && (n <=? 222) && negb (n =? 215))%nat
  then chr (n + 32) else c.

Fixpoint lower (s : string) : string :=
  match s with
  | EmptyString => EmptyString
  | String c s' => String (lower_char c) (lower s')
  end.

Fixpoint lstrip (s : string) : string :=
  match s with
  | EmptyString => EmptyString
  | String c s' => if isspace c then lstrip s' else s
  end.

Fixpoint rstrip (s : string) : string :=
  match s with
  | EmptyString => EmptyString
  | String c s' =>
      match rstrip s' with
      | EmptyString => if isspace c then EmptyString else String c EmptyString
      | r => String c r
      end
  end.

Definition strip (s : string) : string := rstrip (lstrip s).

Definition startswith (s p : string) : bool := String.prefix p s.

(** [c in s] for a one-character needle. *)
Fixpoint contains (c : ascii) (s : string) : bool :=
  match s with
  | EmptyString => false
  | String d s' => Ascii.eqb c d || contains c s'
  end.

(** [s.split(c, 1)]: a pair when [c] occurs, the whole string otherwise. *)
Fixpoint split1 (c : ascii) (s : string) : string * option string :=
  match s with
  | EmptyString => (EmptyString, None)
  | String d s' =>
      if Ascii.eqb c d then (EmptyString, Some s')
      else let '(h, t) := split1 c s' in (String d h, t)
  end.

(** [s.split(c)]: always at least one piece. *)
Fixpoint split (c : ascii) (s : string) : list string :=
  match s with
  | EmptyString => [EmptyString]
  | String d s' =>
      if Ascii.eqb c d then EmptyString :: split c s'
      else match split c s' with
           | h :: t => String d h :: t
           | [] => [String d EmptyString]
           end
  end.

(** [sep.join(parts)] *)
Fixpoint join (sep : string) (parts : list string) : string :=
  match parts with
  | [] => EmptyString
  | [p] => p
  | p :: rest => p +:+ sep +:+ join sep rest
  end.

(** [s[:n]] for a non-negative [n]. *)
Fixpoint prefix_of (n : nat) (s : string) : string :=
  match n, s with
  | S n', String c s' => String c (prefix_of n' s')
  | _, _ => EmptyString
  end.

(** ** List slicing *)

(** [l[start:]] with Python's treatment of negative and out-of-range
    starts. *)
Definition slice_from {A} (start : Z) (l : list A) : list A :=
  let len := Z.of_nat (length l) in
  let lo := if start <? 0 then Z.max 0 (start + len) else Z.min start len in
  drop (Z.to_nat lo) l.

(** ** Dictionaries in insertion order *)

Definition dict (V : Type) : Type := list (string * V).

Section Dict.
Context {V : Type}.

Definition keys (d : dict V) : list string := d.*1.

Fixpoint get (d : dict V) (k : string) : option V :=
  match d with
  | [] => None
  | (k', v) :: d' => if String.eqb k' k then Some v else get d' k
  end.

(** [k in d] *)
Definition mem (d : dict V) (k : string) : bool :=
  match get d k with Some _ => true | None => false end.

(** [d[k] = v] *)
Fixpoint set (d : dict V) (k : string) (v : V) : dict V :=
  match d with
  | [] => [(k, v)]
  | (k', v') :: d' =>
      if String.eqb k' k then (k', v) :: d' else (k', v') :: set d' k v
  end.

(** [d[k]] on a [defaultdict] whose factory yields [dflt]. *)
Definition get_default (dflt : V) (d : dict V) (k : string) : V :=
  match get d k with Some v => v | None => dflt end.

(** [{k: v for k, v in d.items() if keep k}] *)
Definition filter_keys (keep : string -> bool) (d : dict V) : dict V :=
  List.filter (fun kv => keep kv.1) d.
End Dict.

(** [min(d.items(), key=lambda x: x[1])] and [max]: the first extremal
    item in iteration order. *)
Fixpoint first_best {V} (better : V -> V -> bool) (best : string * V)
    (rest : dict V) : string * V :=
  match rest with
  | [] => best
  | kv :: rest' =>
      first_best better (if better kv.2 best.2 then kv else best) rest'
  end.

End Py.

(* ===================================================================== *)
(** * config.py *)
(* ===================================================================== *)

Record Config := {
  OLLAMA_MODEL : string;
  NUM_AGENTS : nat;
  NUM_ROUNDS : nat;
  ALLOW_SELF_VOTING : bool;
  VOTING_METHOD : string;
  MUTATION_RATE : Q;
  MUTATION_TRAITS : list string;
  VERBOSE : bool;
  MAX_MEMORY_SIZE : Z
}.

(** The values shipped in config.py. The float literal 0.3 is the double
    5404319552844595 / 2^54. *)
Definition config_py : Config := {|
  OLLAMA_MODEL := "llama2";
  NUM_AGENTS := 8;
  NUM_ROUNDS := 8;
  ALLOW_SELF_VOTING := false;
  VOTING_METHOD := "single-choice";
  MUTATION_RATE := 5404319552844595 # (2 ^ 54);
  MUTATION_TRAITS :=
    ["more analytical"; "more creative"; "more skeptical"; "more optimistic";
     "more concise"; "more detailed"; "more humorous"; "more serious";
     "more technical"; "more philosophical"; "more practical";
     "more abstract"; "more empathetic"; "more logical"; "more intuitive"];
  VERBOSE := true;
  MAX_MEMORY_SIZE := 10
|}.

(* ===================================================================== *)
(** * Effects: exceptions, the world, the monad *)
(* ===================================================================== *)

Inductive exn :=
| ValueError (msg : string)
| ZeroDivisionError
| IndexError.

Inductive Result (A : Type) :=
| Ok (a : A)
| Raise (e : exn).
Arguments Ok {A} a.
Arguments Raise {A} e.

(** What the HTTP POST of [LLMInterface.generate] can come back with. *)
Inductive HttpOutcome :=
| HttpResponse (status_code : nat) (response : option string) (text : string)
| HttpTimeout
| HttpException (msg : string).

(** The external parties. [ollama n prompt model] is the outcome of the
    [n]-th request; [entropy n] is the [n]-th raw draw of the random
    generator; [clock n] is the [n]-th reading of
    [datetime.now().isoformat()]. *)
Record Oracles := {
  ollama : nat -> string -> string -> HttpOutcome;
  entropy : nat -> N;
  clock : nat -> string
}.

Record World := {
  total_requests : nat;
  failed_requests : nat;
  rand_draws : nat;
  clock_reads : nat
}.

Definition world0 : World :=
  {| total_requests := 0; failed_requests := 0; rand_draws := 0;
     clock_reads := 0 |}.

Definition M (A : Type) : Type := World -> Result (A * World).

Global Instance M_ret : MRet M := fun A a w => Ok (a, w).
Global Instance M_bind : MBind M := fun A B f m w =>
  match m w with
  | Ok (a, w') => f a w'
  | Raise e => Raise e
  end.

Definition raise {A} (e : exn) : M A := fun _ => Raise e.

Section Engine.

Variable cfg : Config.
Variable env : Oracles.

(* =================================================================== *)
(** * The random module (library code, driven by [entropy]) *)
(* =================================================================== *)

Definition draw : M N := fun w =>
  Ok (entropy env (rand_draws w),
      {| total_requests := total_requests w;
         failed_requests := failed_requests w;
         rand_draws := S (rand_draws w);
         clock_reads := clock_reads w |}).

(** [random._randbelow(n)] for [n > 0]. *)
Definition randbelow (n : nat) : M nat :=
  d ← draw; mret (N.to_nat d `mod` n)%nat.

(** [random.random()]: a multiple of 2^-53 in [0, 1). *)
Definition random_random : M Q :=
  d ← draw; mret (Z.of_N (d `mod` 2 ^ 53)%N # 2 ^ 53).

(** [random.choice(seq)]; raises IndexError on an empty sequence. *)
Definition random_choice {A} (seq : list A) : M A :=
  match seq with
  | [] => raise IndexError
  | x :: _ => i ← randbelow (length seq); mret (default x (seq !! i))
  end.

(** [random.randint(a, b)] for naturals [a <= b]. *)
Definition random_randint (a b : nat) : M nat :=
  i ← randbelow (b - a + 1); mret (a + i)%nat.

(** [x[i], x[j] = x[j], x[i]] *)
Definition swap {A} (i j : nat) (x : list A) : list A :=
  match x !! i, x !! j with
  | Some xi, Some xj => <[i := xj]> (<[j := xi]> x)
  | _, _ => x
  end.

(** [random.shuffle(x)]: for i from len-1 down to 1, j = randbelow(i+1),
    swap x[i] and x[j]. The argument [i] counts down. *)
Fixpoint shuffle_from {A} (i : nat) (x : list A) : M (list A) :=
  match i with
  | O => mret x
  | S i' => j ← randbelow (S i); x' ← shuffle_from i' (swap i j x); mret x'
  end.

Definition random_shuffle {A} (x : list A) : M (list A) :=
  shuffle_from (length x - 1) x.

(** [random.sample(population, k)] for [k <= len(population)]: [k]
    draws without replacement. *)
Fixpoint random_sample {A} (population : list A) (k : nat) : M (list A) :=
  match k with
  | O => mret []
  | S k' =>
      match population with
      | [] => raise (ValueError "Sample larger than population or is negative")
      | x :: _ =>
          i ← randbelow (length population);
          rest ← random_sample (delete i population) k';
          mret (default x (population !! i) :: rest)
      end
  end.

(** [bisect(cum_weights, x, 0, hi)] where [x = u * total], for weights
    that are naturals: the first index whose cumulative weight exceeds
    [x], and [hi] when there is none. *)
Fixpoint bisect (weights : list nat) (acc : nat) (x : Q) (i hi : nat) : nat :=
  match weights with
  | [] => hi
  | wt :: rest =>
      let acc' := (acc + wt)%nat in
      if Qle_bool (inject_Z (Z.of_nat acc')) x then bisect rest acc' x (S i) hi
      else Nat.min i hi
  end.

(** [random.choices(population, weights=weights, k=1)[0]] *)
Definition random_choices1 {A} (population : list A) (weights : list nat)
    : M A :=
  match population with
  | [] => raise IndexError
  | x :: _ =>
      let total := foldr Nat.add 0%nat weights in
      if (total =? 0)%nat
      then raise (ValueError "Total of weights must be greater than zero")
      else
        u ← random_random;
        let i := bisect weights 0 (u * inject_Z (Z.of_nat total))%Q 0
                   (length population - 1) in
        mret (default x (population !! i))
  end.

(* =================================================================== *)
(** * llm_interface.py *)
(* =================================================================== *)

Definition count_request (failed : bool) (w : World) : World :=
  {| total_requests := S (total_requests w);
     failed_requests := (if failed then S (failed_requests w)
                         else failed_requests w);
     rand_draws := rand_draws w;
     clock_reads := clock_reads w |}.

(** [LLMInterface.generate(prompt, model)] *)
Definition generate (prompt model : string) : M string := fun w =>
  match ollama env (total_requests w) prompt model with
  | HttpResponse status_code response text =>
      if (status_code =? 200)%nat
      then Ok (Py.strip (default EmptyString response), count_request false w)
      else Ok ("[Error: API returned status " +:+ pretty status_code +:+ "]",
               count_request true w)
  | HttpTimeout => Ok ("[Error: Request timeout]", count_request true w)
  | HttpException msg =>
      Ok ("[Error: " +:+ msg +:+ "]", count_request true w)
  end.

(** [datetime.now().isoformat()] *)
Definition now_isoformat : M string := fun w =>
  Ok (clock env (clock_reads w),
      {| total_requests := total_requests w;
         failed_requests := failed_requests w;
         rand_draws := rand_draws w;
         clock_reads := S (clock_reads w) |}).

(* =================================================================== *)
(** * agent.py *)
(* =================================================================== *)

Record MemoryEntry := {
  m_type : string;
  m_content : string;
  m_round : Z;
  m_timestamp : string
}.

Record Agent := {
  name : string;
  personality_prompt : string;
  memory : list MemoryEntry;
  model : string;
  generation : Z;
  parent_name : option string;
  birth_round : Z;
  votes_received : nat;
  votes_cast : nat;
  rounds_survived : nat;
  answers_given : nat
}.

(** [Agent(name, personality_prompt, model, generation, parent_name,
    birth_round)] *)
Definition new_Agent (nm prompt mdl : string) (gen : Z)
    (parent : option string) (birth : Z) : Agent :=
  {| name := nm; personality_prompt := prompt; memory := [];
     model := mdl; generation := gen; parent_name := parent;
     birth_round := birth; votes_received := 0; votes_cast := 0;
     rounds_survived := 0; answers_given := 0 |}.

Definition with_memory (mem : list MemoryEntry) (a : Agent) : Agent :=
  {| name := name a; personality_prompt := personality_prompt a;
     memory := mem; model := model a; generation := generation a;
     parent_name := parent_name a; birth_round := birth_round a;
     votes_received := votes_received a; votes_cast := votes_cast a;
     rounds_survived := rounds_survived a;
     answers_given := answers_given a |}.

Definition with_votes_received (n : nat) (a : Agent) : Agent :=
  {| name := name a; personality_prompt := personality_prompt a;
     memory := memory a; model := model a; generation := generation a;
     parent_name := parent_name a; birth_round := birth_round a;
     votes_received := n; votes_cast := votes_cast a;
     rounds_survived := rounds_survived a;
     answers_given := answers_given a |}.

Definition with_votes_cast (n : nat) (a : Agent) : Agent :=
  {| name := name a; personality_prompt := personality_prompt a;
     memory := memory a; model := model a; generation := generation a;
     parent_name := parent_name a; birth_round := birth_round a;
     votes_received := votes_received a; votes_cast := n;
     rounds_survived := rounds_survived a;
     answers_given := answers_given a |}.

Definition with_rounds_survived (n : nat) (a : Agent) : Agent :=
  {| name := name a; personality_prompt := personality_prompt a;
     memory := memory a; model := model a; generation := generation a;
     parent_name := parent_name a; birth_round := birth_round a;
     votes_received := votes_received a; votes_cast := votes_cast a;
     rounds_survived := n; answers_given := answers_given a |}.

Definition with_answers_given (n : nat) (a : Agent) : Agent :=
  {| name := name a; personality_prompt := personality_prompt a;
     memory := memory a; model := model a; generation := generation a;
     parent_name := parent_name a; birth_round := birth_round a;
     votes_received := votes_received a; votes_cast := votes_cast a;
     rounds_survived := rounds_survived a; answers_given := n |}.

(** The buffer after [self.memory.append(e)] and the size limit. *)
Definition remember (e : MemoryEntry) (mem : list MemoryEntry)
    : list MemoryEntry :=
  let mem' := mem ++ [e] in
  if Z.of_nat (length mem') >? MAX_MEMORY_SIZE cfg
  then Py.slice_from (- MAX_MEMORY_SIZE cfg) mem'
  else mem'.

(** [Agent.add_memory(memory_type, content, round_num)] *)
Definition add_memory (self : Agent) (memory_type content : string)
    (round_num : Z) : M Agent :=
  timestamp ← now_isoformat;
  let memory_entry :=
    {| m_type := memory_type; m_content := content; m_round := round_num;
       m_timestamp := timestamp |} in
  mret (with_memory (remember memory_entry (memory self)) self).

(** [Agent.get_memory_context(max_memories=5)] *)
Definition get_memory_context (self : Agent) (max_memories : Z) : string :=
  match memory self with
  | [] => "No previous memories."
  | _ =>
      foldl (fun context mem =>
               context +:+ "- Round " +:+ pretty (m_round mem) +:+ " ("
               +:+ m_type mem +:+ "): "
               +:+ Py.prefix_of 100 (m_content mem) +:+ "..." +:+ Py.nl)
            ("Recent memories:" +:+ Py.nl)
            (Py.slice_from (- max_memories) (memory self))
  end.

(** [Agent.generate_answer(question, round_num, llm_interface)]: the
    answer and the agent afterwards. *)
Definition generate_answer (self : Agent) (question : string)
    (round_num : Z) : M (string * Agent) :=
  let memory_context := get_memory_context self 5 in
  let full_prompt :=
    "You are " +:+ name self
    +:+ ", an AI agent with the following personality:" +:+ Py.nl
    +:+ personality_prompt self +:+ Py.nl +:+ Py.nl
    +:+ memory_context +:+ Py.nl +:+ Py.nl
    +:+ "Question: " +:+ question +:+ Py.nl +:+ Py.nl
    +:+ "Provide a thoughtful answer that reflects your unique personality and perspective. Be concise but insightful (2-4 sentences)." in
  answer ← generate full_prompt (model self);
  self1 ← add_memory self "answer"
            ("Q: " +:+ question +:+ " | A: " +:+ answer) round_num;
  mret (answer, with_answers_given (S (answers_given self1)) self1).

(** The candidate set: the answers without the voter's own, unless
    self-voting is allowed. *)
Definition available_answers (self_name : string) (allow_self_voting : bool)
    (answers : Py.dict string) : Py.dict string :=
  Py.filter_keys
    (fun k => allow_self_voting || negb (String.eqb k self_name)) answers.

Definition answers_text (available : Py.dict string) : string :=
  Py.join (Py.nl +:+ Py.nl)
    ((fun kv => "Agent " +:+ kv.1 +:+ ":" +:+ Py.nl +:+ kv.2) <$> available).

Definition voting_prompt (self : Agent) (question : string)
    (available : Py.dict string) : string :=
  "You are " +:+ name self +:+ ", an AI agent with this personality:"
  +:+ Py.nl +:+ personality_prompt self +:+ Py.nl +:+ Py.nl
  +:+ "Question that was asked: " +:+ question +:+ Py.nl +:+ Py.nl
  +:+ "Here are the answers from different agents:" +:+ Py.nl +:+ Py.nl
  +:+ answers_text available +:+ Py.nl +:+ Py.nl
  +:+ "Based on your personality and values, which agent gave the BEST answer? "
  +:+ Py.nl
  +:+ "Respond with ONLY the agent's name on the first line, followed by a 1-2 sentence justification on the next line."
  +:+ Py.nl +:+ Py.nl +:+ "Format:" +:+ Py.nl +:+ "Agent Name" +:+ Py.nl
  +:+ "Justification here.".

Definition NO_OTHER_OPTIONS : string := "No other options available.".
Definition VOTE_PARSING_FAILED : string :=
  "Vote parsing failed, random selection made.".

(** The two lines of a vote response: the name and the justification. *)
Definition parse_vote (vote_response : string) : string * string :=
  let '(line0, line1) := Py.split1 (Py.chr 10) (Py.strip vote_response) in
  (Py.strip line0,
   match line1 with
   | Some l => Py.strip l
   | None => "No justification provided."
   end).

(** Validation: a name outside the candidate set is replaced by
    [random.choice] over the candidates. *)
Definition validate_vote (available : Py.dict string)
    (parsed : string * string) : M (string * string) :=
  if negb (Py.mem available parsed.1)
  then voted_for ← random_choice (Py.keys available);
       mret (voted_for, VOTE_PARSING_FAILED)
  else mret parsed.

(** [Agent.vote_on_answers(question, answers, round_num, llm_interface,
    allow_self_voting)]: the pair returned and the agent afterwards. *)
Definition vote_on_answers (self : Agent) (question : string)
    (answers : Py.dict string) (round_num : Z) (allow_self_voting : bool)
    : M (string * string * Agent) :=
  let available := available_answers (name self) allow_self_voting answers in
  match available with
  | [] => mret (name self, NO_OTHER_OPTIONS, self)
  | _ :: _ =>
      vote_response ← generate (voting_prompt self question available)
                        (model self);
      '(voted_for, justification) ←
          validate_vote available (parse_vote vote_response);
      self1 ← add_memory self "vote"
                ("Voted for " +:+ voted_for +:+ ": " +:+ justification)
                round_num;
      mret (voted_for, justification,
            with_votes_cast (S (votes_cast self1)) self1)
  end.

(* =================================================================== *)
(** * voting.py *)
(* =================================================================== *)

Record VoteDetail := {
  voter : string;
  voted_for : string;
  justification : string
}.

Record RankingDetail := {
  r_voter : string;
  rankings : list string;
  r_justification : string
}.

(** The result dictionaries of the two methods. The points of the
    ranked method are Python floats holding sums of small integers;
    they are kept as integers here. *)
Inductive VoteResult :=
| SingleChoice (round : Z) (question : string) (votes : Py.dict nat)
    (vote_details : list VoteDetail)
    (justifications : Py.dict (list string)) (total_votes : nat)
| RankedChoice (round : Z) (question : string) (points : Py.dict Z)
    (vote_details : list RankingDetail) (total_votes : nat).

Record VotingSystem := {
  method : string;
  allow_self_voting : bool;
  vote_history : list VoteResult
}.

Definition new_VotingSystem (mth : string) (allow : bool) : VotingSystem :=
  {| method := mth; allow_self_voting := allow; vote_history := [] |}.

Definition record_vote (vs : VotingSystem) (r : VoteResult) : VotingSystem :=
  {| method := method vs; allow_self_voting := allow_self_voting vs;
     vote_history := vote_history vs ++ [r] |}.

(** The running tallies of the single-choice loop. *)
Record Ballots := {
  b_votes : Py.dict nat;
  b_vote_details : list VoteDetail;
  b_justifications : Py.dict (list string)
}.

Definition no_ballots : Ballots :=
  {| b_votes := []; b_vote_details := []; b_justifications := [] |}.

(** One pass of the body of [for agent in agents] after the vote came
    back. *)
Definition count_ballot (b : Ballots) (agent_name voted justif : string)
    : Ballots :=
  {| b_votes :=
       Py.set (b_votes b) voted (Py.get_default 0%nat (b_votes b) voted + 1)%nat;
     b_vote_details :=
       b_vote_details b ++
         [{| voter := agent_name; voted_for := voted;
             justification := justif |}];
     b_justifications :=
       Py.set (b_justifications b) voted
         (Py.get_default [] (b_justifications b) voted
            ++ [agent_name +:+ ": " +:+ justif]) |}.

(** The first loop of [_single_choice_vote]: every agent votes, in
    population order. Returns the tallies and the agents afterwards. *)
Fixpoint collect_votes (allow : bool) (question : string)
    (answers : Py.dict string) (round_num : Z) (agents : list Agent)
    (b : Ballots) : M (Ballots * list Agent) :=
  match agents with
  | [] => mret (b, [])
  | agent :: rest =>
      '(voted, justif, agent') ←
          vote_on_answers agent question answers round_num allow;
      '(b', rest') ←
          collect_votes allow question answers round_num rest
            (count_ballot b (name agent) voted justif);
      mret (b', agent' :: rest')
  end.

(** The second loop: [agent.votes_received += votes[agent.name]] for the
    agents whose name is in the tally. *)
Definition credit_votes (votes : Py.dict nat) (agent : Agent) : Agent :=
  if Py.mem votes (name agent)
  then with_votes_received
         (votes_received agent + Py.get_default 0%nat votes (name agent))%nat
         agent
  else agent.

(** [VotingSystem._single_choice_vote] *)
Definition _single_choice_vote (vs : VotingSystem) (agents : list Agent)
    (question : string) (answers : Py.dict string) (round_num : Z)
    : M (VoteResult * VotingSystem * list Agent) :=
  '(b, agents1) ←
      collect_votes (allow_self_voting vs) question answers round_num
        agents no_ballots;
  let agents2 := credit_votes (b_votes b) <$> agents1 in
  let result :=
    SingleChoice round_num question (b_votes b) (b_vote_details b)
      (b_justifications b) (length agents) in
  mret (result, record_vote vs result, agents2).

Definition ranking_prompt (agent : Agent) (question : string)
    (available : Py.dict string) : string :=
  "You are " +:+ name agent
  +:+ ". Rank ALL of the following answers from BEST to WORST."
  +:+ Py.nl +:+ Py.nl +:+ "Question: " +:+ question +:+ Py.nl +:+ Py.nl
  +:+ "Answers:" +:+ Py.nl +:+ answers_text available +:+ Py.nl +:+ Py.nl
  +:+ "Provide your ranking as a numbered list with the agent names, followed by a brief justification."
  +:+ Py.nl +:+ Py.nl +:+ "Format:" +:+ Py.nl
  +:+ "1. [Agent Name]" +:+ Py.nl +:+ "2. [Agent Name]" +:+ Py.nl
  +:+ "3. [Agent Name]" +:+ Py.nl +:+ "..." +:+ Py.nl +:+ Py.nl
  +:+ "Justification: [Your reasoning]".

Definition first_isdigit (line : string) : bool :=
  match line with
  | EmptyString => false
  | String c _ => Py.isdigit c
  end.

(** The body of [for line in lines] in [_get_agent_rankings]. *)
Definition parse_ranking_line (available : Py.dict string)
    (acc : list string * string) (raw_line : string)
    : list string * string :=
  let line := Py.strip raw_line in
  if Py.startswith (Py.lower line) "justification" then
    (acc.1,
     match Py.split1 ":" line with
     | (_, Some rest) => Py.strip rest
     | (_, None) => EmptyString
     end)
  else if first_isdigit line || Py.startswith line "-" then
    let parts :=
      if Py.contains "." line then Py.split1 "." line
      else Py.split1 "-" line in
    match parts with
    | (_, Some rest) =>
        let nm := Py.strip rest in
        if Py.mem available nm then (acc.1 ++ [nm], acc.2) else acc
    | (_, None) => acc
    end
  else acc.

Definition parse_ranking (available : Py.dict string) (response : string)
    : list string * string :=
  foldl (parse_ranking_line available) ([], EmptyString)
    (Py.split (Py.chr 10) (Py.strip response)).

Definition RANKING_PARSING_FAILED : string :=
  "Ranking parsing failed, random order used.".

(** [VotingSystem._get_agent_rankings] *)
Definition _get_agent_rankings (vs : VotingSystem) (agent : Agent)
    (question : string) (answers : Py.dict string) (round_num : Z)
    : M (list string * string) :=
  let available :=
    available_answers (name agent) (allow_self_voting vs) answers in
  match available with
  | [] => mret ([name agent], NO_OTHER_OPTIONS)
  | _ :: _ =>
      response ← generate (ranking_prompt agent question available)
                   (model agent);
      let parsed := parse_ranking available response in
      match parsed.1 with
      | [] =>
          ranked_list ← random_shuffle (Py.keys available);
          mret (ranked_list, RANKING_PARSING_FAILED)
      | _ :: _ => mret parsed
      end
  end.

(** The first loop of [_ranked_choice_vote]. *)
Fixpoint collect_rankings (vs : VotingSystem) (question : string)
    (answers : Py.dict string) (round_num : Z) (agents : list Agent)
    : M (list RankingDetail) :=
  match agents with
  | [] => mret []
  | agent :: rest =>
      '(ranked_list, justif) ←
          _get_agent_rankings vs agent question answers round_num;
      details ← collect_rankings vs question answers round_num rest;
      mret ({| r_voter := name agent; rankings := ranked_list;
               r_justification := justif |} :: details)
  end.

(** [for idx, agent_name in enumerate(ranking):
       points[agent_name] += (num_candidates - idx)],
    from position [idx] on. *)
Fixpoint award_points (num_candidates : nat) (idx : nat)
    (ranking : list string) (points : Py.dict Z) : Py.dict Z :=
  match ranking with
  | [] => points
  | agent_name :: rest =>
      award_points num_candidates (S idx) rest
        (Py.set points agent_name
           (Py.get_default 0 points agent_name
            + (Z.of_nat num_candidates - Z.of_nat idx)))
  end.

(** [for ranking in rankings: ...] starting from an empty tally. *)
Definition tally_points (num_candidates : nat) (all : list (list string))
    : Py.dict Z :=
  foldl (fun points ranking => award_points num_candidates 0 ranking points)
    [] all.

(** [VotingSystem._ranked_choice_vote] *)
Definition _ranked_choice_vote (vs : VotingSystem) (agents : list Agent)
    (question : string) (answers : Py.dict string) (round_num : Z)
    : M (VoteResult * VotingSystem * list Agent) :=
  details ← collect_rankings vs question answers round_num agents;
  let num_candidates := length answers in
  let result :=
    RankedChoice round_num question
      (tally_points num_candidates (rankings <$> details)) details
      (length agents) in
  mret (result, record_vote vs result, agents).

(** [VotingSystem.conduct_vote] *)
Definition conduct_vote (vs : VotingSystem) (agents : list Agent)
    (question : string) (answers : Py.dict string) (round_num : Z)
    : M (VoteResult * VotingSystem * list Agent) :=
  if String.eqb (method vs) "single-choice" then
    _single_choice_vote vs agents question answers round_num
  else if String.eqb (method vs) "ranked-choice" then
    _ranked_choice_vote vs agents question answers round_num
  else raise (ValueError ("Unknown voting method: " +:+ method vs)).

(** [min(tally.items(), key=lambda x: x[1])[0]], the empty string for an
    empty tally. *)
Definition first_min_key {V} (ltb : V -> V -> bool) (tally : Py.dict V)
    : string :=
  match tally with
  | [] => EmptyString
  | kv :: rest => (Py.first_best ltb kv rest).1
  end.

(** [VotingSystem.get_loser] *)
Definition get_loser (vote_result : VoteResult) : string :=
  match vote_result with
  | SingleChoice _ _ votes _ _ _ => first_min_key Nat.ltb votes
  | RankedChoice _ _ points _ _ => first_min_key Z.ltb points
  end.

(** [VotingSystem.get_winner] *)
Definition get_winner (vote_result : VoteResult) : string :=
  match vote_result with
  | SingleChoice _ _ votes _ _ _ =>
      first_min_key (fun a b => Nat.ltb b a) votes
  | RankedChoice _ _ points _ _ =>
      first_min_key (fun a b => Z.ltb b a) points
  end.

(** The names that have an entry in the tally of a result. *)
Definition tally_keys (vote_result : VoteResult) : list string :=
  match vote_result with
  | SingleChoice _ _ votes _ _ _ => Py.keys votes
  | RankedChoice _ _ points _ _ => Py.keys points
  end.

(** The names some voter chose: the votee of every single-choice ballot,
    every entry of every ranking. *)
Definition chosen_names (vote_result : VoteResult) : list string :=
  match vote_result with
  | SingleChoice _ _ _ details _ _ => voted_for <$> details
  | RankedChoice _ _ _ details _ => details ≫= rankings
  end.

(** [VotingSystem.get_vote_summary]: the text only goes to the console;
    what matters to the caller is that [sorted_votes[0]] raises
    IndexError on an empty tally. *)
Definition get_vote_summary (vote_result : VoteResult) : M unit :=
  match tally_keys vote_result with
  | [] => raise IndexError
  | _ :: _ => mret tt
  end.

(* =================================================================== *)
(** * evolution.py *)
(* =================================================================== *)

Record EliminationRecord := {
  e_round : Z;
  e_agent_name : string;
  e_generation : Z;
  e_parent : option string;
  e_rounds_survived : nat;
  e_votes_received : nat;
  e_answers_given : nat;
  e_reason : string;
  e_personality : string
}.

Record CreationRecord := {
  c_round : Z;
  c_agent_name : string;
  c_generation : Z;
  c_parent : string;
  c_personality : string;
  c_mutations_applied : list string
}.

Record EvolutionManager := {
  mutation_rate : Q;
  mutation_traits : list string;
  elimination_history : list EliminationRecord;
  creation_history : list CreationRecord
}.

(** [EvolutionManager(mutation_rate, mutation_traits)]: an empty trait
    list falls back to the configured one. *)
Definition new_EvolutionManager (rate : Q) (traits : list string)
    : EvolutionManager :=
  {| mutation_rate := rate;
     mutation_traits :=
       match traits with [] => MUTATION_TRAITS cfg | _ :: _ => traits end;
     elimination_history := [];
     creation_history := [] |}.

Definition elimination_record (round_num : Z) (a : Agent) (reason : string)
    : EliminationRecord :=
  {| e_round := round_num; e_agent_name := name a;
     e_generation := generation a; e_parent := parent_name a;
     e_rounds_survived := rounds_survived a;
     e_votes_received := votes_received a;
     e_answers_given := answers_given a; e_reason := reason;
     e_personality := Py.prefix_of 200 (personality_prompt a) +:+ "..." |}.

Definition record_elimination (em : EvolutionManager)
    (r : EliminationRecord) : EvolutionManager :=
  {| mutation_rate := mutation_rate em;
     mutation_traits := mutation_traits em;
     elimination_history := elimination_history em ++ [r];
     creation_history := creation_history em |}.

Definition record_creation (em : EvolutionManager) (r : CreationRecord)
    : EvolutionManager :=
  {| mutation_rate := mutation_rate em;
     mutation_traits := mutation_traits em;
     elimination_history := elimination_history em;
     creation_history := creation_history em ++ [r] |}.

(** [EvolutionManager.eliminate_agent(agents, loser_name, round_num,
    reason)]: the value returned, the list [agents] afterwards and the
    manager afterwards. The loop pops at the first index whose agent
    bears the name and stops. *)
Definition eliminate_agent (em : EvolutionManager) (agents : list Agent)
    (loser_name : string) (round_num : Z) (reason : string)
    : option Agent * list Agent * EvolutionManager :=
  match list_find (fun agent => name agent = loser_name) agents with
  | Some (i, eliminated_agent) =>
      (Some eliminated_agent, delete i agents,
       record_elimination em
         (elimination_record round_num eliminated_agent reason))
  | None => (None, agents, em)
  end.

Definition RECEIVED_FEWEST_VOTES : string := "Received fewest votes".

(** [len(set(weights)) == 1] *)
Definition all_one_value (weights : list nat) : bool :=
  match weights with
  | [] => false
  | w0 :: rest => forallb (Nat.eqb w0) rest
  end.

(** [EvolutionManager._select_parent] *)
Definition _select_parent (agents : list Agent) : M Agent :=
  let weights := (fun agent => votes_received agent + 1)%nat <$> agents in
  let weights :=
    if all_one_value weights
    then (fun agent => rounds_survived agent + 1)%nat <$> agents
    else weights in
  random_choices1 agents weights.

(** [u < rate] for [u = random.random()]. *)
Definition below (u rate : Q) : bool := negb (Qle_bool rate u).

(** [EvolutionManager._evolve_personality] *)
Definition _evolve_personality (em : EvolutionManager) (parent : Agent)
    : M string :=
  u ← random_random;
  if below u (mutation_rate em) then
    num_mutations ← random_randint 1 3;
    selected_traits ←
      random_sample (mutation_traits em)
        (Nat.min num_mutations (length (mutation_traits em)));
    mret (personality_prompt parent +:+ Py.nl +:+ Py.nl
          +:+ "Evolved traits: " +:+ "You have evolved to be "
          +:+ Py.join ", " selected_traits +:+ ". "
          +:+ "You inherit your parent's core values but express them through these new traits.")
  else
    mret (personality_prompt parent +:+ Py.nl +:+ Py.nl
          +:+ "You are a refined version of your predecessor, maintaining their core philosophy.").

Definition evolution_suffixes : list string :=
  ["Evolved"; "2.0"; "Redux"; "Reborn"; "Neo";
   "Next"; "Prime"; "Enhanced"; "Advanced"; "Plus"].

Definition adjectives : list string :=
  ["Adaptive"; "Strategic"; "Resilient"; "Dynamic"; "Innovative";
   "Insightful"; "Cunning"; "Wise"; "Bold"; "Swift"].

Definition nouns : list string :=
  ["Thinker"; "Scholar"; "Mind"; "Sage"; "Oracle";
   "Strategist"; "Visionary"; "Pioneer"; "Master"; "Expert"].

(** A string or None in a condition. *)
Definition truthy (s : option string) : bool :=
  match s with
  | Some (String _ _) => true
  | _ => false
  end.

(** [EvolutionManager._generate_evolved_name]; 0.6 is the double
    5404319552844595 / 2^53. *)
Definition _generate_evolved_name (parent : Agent)
    (base_name : option string) : M string :=
  if truthy base_name then mret (default EmptyString base_name +:+ " II")
  else
    suffix ← random_choice evolution_suffixes;
    u ← random_random;
    if below u (5404319552844595 # 2 ^ 53) then
      mret (name parent +:+ " " +:+ suffix)
    else
      adj ← random_choice adjectives;
      noun ← random_choice nouns;
      mret ("The " +:+ adj +:+ " " +:+ noun).

(** [trait in personality.lower()] *)
Definition occurs_in (needle hay : string) : bool :=
  match String.index 0 needle hay with Some _ => true | None => false end.

(** [EvolutionManager._extract_mutations] *)
Definition _extract_mutations (em : EvolutionManager) (personality : string)
    : list string :=
  List.filter (fun trait => occurs_in trait (Py.lower personality))
    (mutation_traits em).

(** [EvolutionManager.create_evolved_agent(existing_agents, round_num,
    model, base_name)] *)
Definition create_evolved_agent (em : EvolutionManager)
    (existing_agents : list Agent) (round_num : Z) (mdl : string)
    (base_name : option string) : M (Agent * EvolutionManager) :=
  match existing_agents with
  | [] =>
      raise (ValueError "Cannot create evolved agent with no existing agents")
  | _ :: _ =>
      parent ← _select_parent existing_agents;
      new_personality ← _evolve_personality em parent;
      new_name ← _generate_evolved_name parent base_name;
      let new_agent :=
        new_Agent new_name new_personality mdl (generation parent + 1)
          (Some (name parent)) round_num in
      let creation_record :=
        {| c_round := round_num; c_agent_name := name new_agent;
           c_generation := generation new_agent; c_parent := name parent;
           c_personality := Py.prefix_of 200 new_personality +:+ "...";
           c_mutations_applied := _extract_mutations em new_personality |} in
      mret (new_agent, record_creation em creation_record)
  end.

(** The inner [for historical_agent in all_history] of [get_lineage]:
    the first agent of the roster bearing the name. *)
Definition find_parent (all_history : list Agent) (wanted : string)
    : option Agent :=
  snd <$> list_find (fun historical_agent => name historical_agent = wanted)
            all_history.

(** The [while current.parent_name] loop of [get_lineage], run for at
    most [fuel] tests of its condition; [None] when the fuel is spent
    with the loop still running. *)
Fixpoint lineage_loop (fuel : nat) (all_history : list Agent)
    (current : Agent) (lineage : list string) : option (list string) :=
  match fuel with
  | O => None
  | S fuel' =>
      if truthy (parent_name current) then
        let wanted := default EmptyString (parent_name current) in
        let lineage' := lineage ++ [wanted] in
        match find_parent all_history wanted with
        | Some parent => lineage_loop fuel' all_history parent lineage'
        | None => Some lineage'
        end
      else Some lineage
  end.

(** [EvolutionManager.get_lineage(agent, all_history)] with a bound on
    the number of loop tests. *)
Definition get_lineage_fuel (fuel : nat) (agent : Agent)
    (all_history : list Agent) : option (list string) :=
  reverse <$> lineage_loop fuel all_history agent [name agent].

(* =================================================================== *)
(** * simulation.py *)
(* =================================================================== *)

(** One entry of the personalities list: a dictionary with the keys
    "name" and "personality". *)
Record Personality := {
  p_name : string;
  p_personality : string
}.

Record HungerGamesSimulation := {
  num_agents : nat;
  num_rounds : nat;
  sim_model : string;
  verbose : bool;
  voting_system : VotingSystem;
  evolution_manager : EvolutionManager;
  agents : list Agent;
  current_round : Z;
  all_agents_history : list Agent
}.

(** [HungerGamesSimulation(num_agents, num_rounds, model, voting_method,
    verbose)] *)
Definition new_HungerGamesSimulation (n_agents n_rounds : nat)
    (mdl voting_method : string) (verb : bool) : HungerGamesSimulation :=
  {| num_agents := n_agents; num_rounds := n_rounds; sim_model := mdl;
     verbose := verb;
     voting_system := new_VotingSystem voting_method (ALLOW_SELF_VOTING cfg);
     evolution_manager :=
       new_EvolutionManager (MUTATION_RATE cfg) (MUTATION_TRAITS cfg);
     agents := []; current_round := 0; all_agents_history := [] |}.

(** [while len(personalities) < self.num_agents:
       personalities.append(personalities[len(personalities) % len(personalities)])]
    with [missing] iterations left to go. *)
Fixpoint pad_personalities (missing : nat) (personalities : list Personality)
    : M (list Personality) :=
  match missing with
  | O => mret personalities
  | S missing' =>
      let len := length personalities in
      if (len =? 0)%nat then raise ZeroDivisionError
      else
        match personalities !! (len `mod` len)%nat with
        | Some p => pad_personalities missing' (personalities ++ [p])
        | None => raise IndexError
        end
  end.

(** [for i in range(self.num_agents): personality = personalities[i];
    agent = Agent(...)], from index [i] for [count] indices. *)
Fixpoint create_founders (mdl : string) (personalities : list Personality)
    (i count : nat) : M (list Agent) :=
  match count with
  | O => mret []
  | S count' =>
      match personalities !! i with
      | None => raise IndexError
      | Some personality =>
          rest ← create_founders mdl personalities (S i) count';
          mret (new_Agent (p_name personality) (p_personality personality)
                  mdl 0 None 0 :: rest)
      end
  end.

(** The personalities list after the padding step of
    [initialize_agents]. *)
Definition padded_personalities (n_agents : nat)
    (personalities : list Personality) : M (list Personality) :=
  if (length personalities <? n_agents)%nat
  then pad_personalities (n_agents - length personalities) personalities
  else mret personalities.

Definition with_population (sim : HungerGamesSimulation)
    (vs : VotingSystem) (em : EvolutionManager) (ags hist : list Agent)
    : HungerGamesSimulation :=
  {| num_agents := num_agents sim; num_rounds := num_rounds sim;
     sim_model := sim_model sim; verbose := verbose sim;
     voting_system := vs; evolution_manager := em; agents := ags;
     current_round := current_round sim; all_agents_history := hist |}.

(** [HungerGamesSimulation.initialize_agents(personalities)] for a
    supplied list. *)
Definition initialize_agents (sim : HungerGamesSimulation)
    (personalities : list Personality) : M HungerGamesSimulation :=
  padded ← padded_personalities (num_agents sim) personalities;
  founders ← create_founders (sim_model sim) padded 0 (num_agents sim);
  mret (with_population sim (voting_system sim) (evolution_manager sim)
          (agents sim ++ founders) (all_agents_history sim ++ founders)).

(** Phase 1 of [run_round]: every agent answers, in population order;
    [answers[agent.name] = answer]. *)
Fixpoint collect_answers (question : string) (round_num : Z)
    (ags : list Agent) (answers : Py.dict string)
    : M (Py.dict string * list Agent) :=
  match ags with
  | [] => mret (answers, [])
  | agent :: rest =>
      '(answer, agent') ← generate_answer agent question round_num;
      '(answers', rest') ←
          collect_answers question round_num rest
            (Py.set answers (name agent) answer);
      mret (answers', agent' :: rest')
  end.

Record RoundResult := {
  rr_round : Z;
  rr_question : string;
  rr_answers : Py.dict string;
  rr_votes : VoteResult;
  rr_eliminated : string;
  rr_evolved : string
}.

(** [HungerGamesSimulation.run_round(round_num, question)] *)
Definition run_round (sim : HungerGamesSimulation) (round_num : Z)
    (question : string) : M (RoundResult * HungerGamesSimulation) :=
  let ags0 :=
    (fun agent => with_rounds_survived (S (rounds_survived agent)) agent)
      <$> agents sim in
  '(answers, ags1) ← collect_answers question round_num ags0 [];
  '(vote_results, vs, ags2) ←
      conduct_vote (voting_system sim) ags1 question answers round_num;
  _ ← (if verbose sim then get_vote_summary vote_results else mret tt);
  let loser_name := get_loser vote_results in
  let '(eliminated_agent, ags3, em) :=
    eliminate_agent (evolution_manager sim) ags2 loser_name round_num
      RECEIVED_FEWEST_VOTES in
  '(new_agent, em') ←
      create_evolved_agent em ags3 round_num (sim_model sim) None;
  mret ({| rr_round := round_num; rr_question := question;
           rr_answers := answers; rr_votes := vote_results;
           rr_eliminated := loser_name; rr_evolved := name new_agent |},
        with_population sim vs em' (ags3 ++ [new_agent])
          (all_agents_history sim ++ [new_agent])).

(* =================================================================== *)
(** * More of agent.py, llm_interface.py, logger.py and simulation.py *)
(* =================================================================== *)

(** [Agent.mutate(mutation_traits, mutation_rate)]: the prompt returned;
    the agent itself is not touched. *)
Definition mutate (self : Agent) (mutation_traits : list string)
    (rate : Q) : M string :=
  u ← random_random;
  if below u rate then
    num_mutations ← random_randint 1 2;
    selected_traits ←
      random_sample mutation_traits
        (Nat.min num_mutations (length mutation_traits));
    mret (personality_prompt self +:+ Py.nl +:+ Py.nl
          +:+ "Evolved traits: You are now " +:+ Py.join ", " selected_traits
          +:+ " compared to your predecessor.")
  else mret (personality_prompt self).

(** The dictionary [Agent.to_dict] builds. *)
Record AgentDict := {
  d_name : string;
  d_personality_prompt : string;
  d_model : string;
  d_generation : Z;
  d_parent_name : option string;
  d_birth_round : Z;
  d_votes_received : nat;
  d_votes_cast : nat;
  d_rounds_survived : nat;
  d_answers_given : nat;
  d_memory_count : nat;
  d_recent_memories : list MemoryEntry
}.

(** [Agent.to_dict()] *)
Definition to_dict (self : Agent) : AgentDict :=
  {| d_name := name self;
     d_personality_prompt := personality_prompt self;
     d_model := model self;
     d_generation := generation self;
     d_parent_name := parent_name self;
     d_birth_round := birth_round self;
     d_votes_received := votes_received self;
     d_votes_cast := votes_cast self;
     d_rounds_survived := rounds_survived self;
     d_answers_given := answers_given self;
     d_memory_count := length (memory self);
     d_recent_memories :=
       match memory self with
       | [] => []
       | _ :: _ => Py.slice_from (-3) (memory self)
       end |}.

Definition ERROR_PREFIX : string := "[Error:".

(** [time.sleep(secs)]: a negative length raises ValueError. The time
    that passes is not part of the state: the clock is an oracle of its
    own. The delay is a Python float, kept as a rational here. *)
Definition time_sleep (secs : Q) : M unit :=
  if Qle_bool 0 secs then mret tt
  else raise (ValueError "sleep length must be non-negative").

(** The [for attempt in range(max_retries)] loop of
    [generate_with_retry] with [remaining] attempts to go; [result] is the
    local variable of that name, [None] while it is unbound. The test
    [attempt < max_retries - 1] holds exactly when another attempt
    remains after this one. *)
Fixpoint retry_loop (prompt mdl : string) (retry_delay : Q)
    (remaining : nat) (result : option string) : M (option string) :=
  match remaining with
  | O => mret result
  | S remaining' =>
      reply ← generate prompt mdl;
      if negb (Py.startswith reply ERROR_PREFIX) then mret (Some reply)
      else
        _ ← match remaining' with
            | O => mret tt
            | S _ => time_sleep retry_delay
            end;
        retry_loop prompt mdl retry_delay remaining' (Some reply)
  end.

(** [LLMInterface.generate_with_retry(prompt, model, max_retries,
    retry_delay)]. [None] stands for the UnboundLocalError that
    [return result] raises when the loop body never ran. *)
Definition generate_with_retry (prompt mdl : string) (max_retries : Z)
    (retry_delay : Q) : M (option string) :=
  retry_loop prompt mdl retry_delay (Z.to_nat max_retries) None.

(** [SimulationLogger.log_agent(agent_dict)] on the list
    [simulation_data["agents"]]: append when no logged agent bears the
    name, otherwise overwrite the first that does. *)
Definition log_agent (logged : list AgentDict) (agent_dict : AgentDict)
    : list AgentDict :=
  match List.filter (fun a => String.eqb (d_name a) (d_name agent_dict))
          logged with
  | [] => logged ++ [agent_dict]
  | _ :: _ =>
      match list_find (fun a => d_name a = d_name agent_dict) logged with
      | Some (i, _) => <[i := agent_dict]> logged
      | None => logged
      end
  end.

Definition with_current_round (n : Z) (sim : HungerGamesSimulation)
    : HungerGamesSimulation :=
  {| num_agents := num_agents sim; num_rounds := num_rounds sim;
     sim_model := sim_model sim; verbose := verbose sim;
     voting_system := voting_system sim;
     evolution_manager := evolution_manager sim; agents := agents sim;
     current_round := n; all_agents_history := all_agents_history sim |}.

(** The loop [for round_num in range(1, self.num_rounds + 1)] of
    [run_simulation], from [round_num] on for [count] rounds, over the
    list of questions as it stands when the loop starts:
    [question = questions[round_num - 1]], [self.run_round(round_num,
    question)], [self.current_round = round_num]. *)
Fixpoint run_rounds_from (sim : HungerGamesSimulation)
    (questions : list string) (round_num count : nat)
    : M HungerGamesSimulation :=
  match count with
  | O => mret sim
  | S count' =>
      match questions !! (round_num - 1)%nat with
      | None => raise IndexError
      | Some question =>
          '(_, sim1) ← run_round sim (Z.of_nat round_num) question;
          run_rounds_from (with_current_round (Z.of_nat round_num) sim1)
            questions (S round_num) count'
      end
  end.

Definition run_rounds (sim : HungerGamesSimulation) (questions : list string)
    : M HungerGamesSimulation :=
  run_rounds_from sim questions 1 (num_rounds sim).

(* =================================================================== *)
(** * Vocabulary of the properties *)
(* =================================================================== *)

(** A sequence of [add_memory] calls on one agent. *)
Fixpoint add_memories (self : Agent) (items : list (string * string * Z))
    : M Agent :=
  match items with
  | [] => mret self
  | (memory_type, content, round_num) :: rest =>
      self' ← add_memory self memory_type content round_num;
      add_memories self' rest
  end.

(** The entries those calls create when the clock has been read [n]
    times before. *)
Fixpoint stamped (n : nat) (items : list (string * string * Z))
    : list MemoryEntry :=
  match items with
  | [] => []
  | (memory_type, content, round_num) :: rest =>
      {| m_type := memory_type; m_content := content; m_round := round_num;
         m_timestamp := clock env n |} :: stamped (S n) rest
  end.

(** The world after one reading of the clock. *)
Definition tick (w : World) : World :=
  {| total_requests := total_requests w;
     failed_requests := failed_requests w;
     rand_draws := rand_draws w;
     clock_reads := S (clock_reads w) |}.

(** The agent [initialize_agents] creates from one personality. *)
Definition new_founder (mdl : string) (p : Personality) : Agent :=
  new_Agent (p_name p) (p_personality p) mdl 0 None 0.

(** The sum of all the points of a tally. *)
Definition total_points (points : Py.dict Z) : Z := foldr Z.add 0 points.*2.

(** The position rule in the words of the specification: in a ranking
    whose first entry has index [idx], what the name [n] receives. *)
Fixpoint positional_points (c idx : nat) (ranking : list string) (n : string)
    : Z :=
  match ranking with
  | [] => 0
  | m :: rest =>
      (if String.eqb m n then Z.of_nat c - Z.of_nat idx else 0)
      + positional_points c (S idx) rest n
  end.

(** c + (c-1) + ... + 1 *)
Fixpoint countdown_sum (c : nat) : Z :=
  match c with
  | O => 0
  | S c' => Z.of_nat c + countdown_sum c'
  end.

(** The two methods [conduct_vote] dispatches on. *)
Definition known_method (vs : VotingSystem) : Prop :=
  method vs = "single-choice" \/ method vs = "ranked-choice".

(** The chain of parent-name lookups from an agent, at most [n] of them:
    its parent's name, then the parent name of the first roster entry
    bearing that name, and so on, up to a founder or a name missing from
    the roster. *)
Fixpoint lookups (n : nat) (all_history : list Agent) (current : Agent)
    : list string :=
  match n with
  | O => []
  | S n' =>
      if truthy (parent_name current) then
        let wanted := default EmptyString (parent_name current) in
        wanted ::
          match find_parent all_history wanted with
          | Some parent => lookups n' all_history parent
          | None => []
          end
      else []
  end.

(** The chain has no cycle: no name is looked up twice. *)
Definition acyclic (all_history : list Agent) (agent : Agent) : Prop :=
  forall n, NoDup (lookups n all_history agent).

(** [get_lineage] with as many loop tests as a chain without a cycle can
    need. [None] stands for a loop that is still running after them: on a
    cyclic chain the Python loop never ends. *)
Definition get_lineage (agent : Agent) (all_history : list Agent)
    : option (list string) :=
  get_lineage_fuel (S (S (length all_history))) agent all_history.

(** A text that [strip] leaves as it is. *)
Definition stripped (s : string) : Prop := Py.strip s = s.

(** A text without a line feed. *)
Definition one_line (s : string) : Prop := Py.contains (Py.chr 10) s = false.

(** An agent without what voting and remembering change: the memory, the
    votes cast and the votes received are blanked. *)
Definition settled (a : Agent) : Agent :=
  with_memory [] (with_votes_cast 0 (with_votes_received 0 a)).

(** The number of ballots a single-choice tally accounts for. *)
Definition ballots_counted (votes : Py.dict nat) : nat :=
  foldr Nat.add 0%nat votes.*2.

(** The tally of a result as integer scores, in the order of the
    dictionary. *)
Definition tally_items (vote_result : VoteResult) : list (string * Z) :=
  match vote_result with
  | SingleChoice _ _ votes _ _ _ => prod_map id Z.of_nat <$> votes
  | RankedChoice _ _ points _ _ => points
  end.

(** An agent one round older: one more round survived, one more answer
    given; memory and vote counters blanked as in [settled]. *)
Definition aged (a : Agent) : Agent :=
  with_answers_given (S (answers_given a))
    (with_rounds_survived (S (rounds_survived a)) (settled a)).

(** Every roster entry that has a parent comes after an entry bearing the
    parent's name. *)
Definition well_ordered (roster : list Agent) : Prop :=
  forall i a,
    roster !! i = Some a -> truthy (parent_name a) = true ->
    exists j b,
      (j < i)%nat /\ roster !! j = Some b /\ parent_name a = Some (name b).

(** The roster is well ordered and every active agent has an entry in it
    with its name and its parent's name. *)
Definition roster_ok (sim : HungerGamesSimulation) : Prop :=
  well_ordered (all_agents_history sim)
  /\ forall a,
       a ∈ agents sim ->
       exists b,
         b ∈ all_agents_history sim
         /\ name b = name a /\ parent_name b = parent_name a.

(** The voters are asked for their rankings one after the other: each
    agent of the list, in order, answers through [_get_agent_rankings] in
    the world the one before it left, and its ranking and justification
    are recorded under its name. *)
Inductive rankings_asked (vs : VotingSystem) (question : string)
    (answers : Py.dict string) (round_num : Z)
    : list Agent -> World -> list RankingDetail -> World -> Prop :=
| asked_nobody (w : World) :
    rankings_asked vs question answers round_num [] w [] w
| asked_next (agent : Agent) (rest : list Agent) (w w1 w' : World)
    (ranked : list string) (justif : string)
    (details : list RankingDetail) :
    _get_agent_rankings vs agent question answers round_num w
    = Ok (ranked, justif, w1) ->
    rankings_asked vs question answers round_num rest w1 details w' ->
    rankings_asked vs question answers round_num (agent :: rest) w
      ({| r_voter := name agent; rankings := ranked;
          r_justification := justif |} :: details) w'.

(* =================================================================== *)
(** * The memory buffer *)
(* =================================================================== *)

Lemma length_stamped n items : length (stamped n items) = length items.
Proof.
  revert n; induction items as [|[[t c] r] items IH]; intros n; simpl; auto.
Qed.

Lemma remember_drop e mem :
  0 < MAX_MEMORY_SIZE cfg ->
  remember e mem
  = drop (length (mem ++ [e]) - Z.to_nat (MAX_MEMORY_SIZE cfg)) (mem ++ [e]).
Proof.
  intros Hpos. unfold remember, Py.slice_from.
  set (l := mem ++ [e]). set (k := MAX_MEMORY_SIZE cfg) in *.
  destruct (Z.gtb_spec (Z.of_nat (length l)) k) as [Hgt|Hle].
  - destruct (Z.ltb_spec (- k) 0) as [_|?]; [|lia].
    f_equal. lia.
  - replace (length l - Z.to_nat k)%nat with 0%nat by lia. done.
Qed.

Lemma remember_all_drop mem es :
  0 < MAX_MEMORY_SIZE cfg -> es <> [] ->
  foldl (fun m e => remember e m) mem es
  = drop (length (mem ++ es) - Z.to_nat (MAX_MEMORY_SIZE cfg)) (mem ++ es).
Proof.
  intros Hpos. revert mem.
  induction es as [|e es IH]; intros mem Hne; [done|]. simpl.
  destruct es as [|e' es].
  - simpl. by apply remember_drop.
  - rewrite IH by done. rewrite remember_drop by done.
    set (k := Z.to_nat (MAX_MEMORY_SIZE cfg)).
    set (r := e' :: es).
    replace (mem ++ e :: r) with ((mem ++ [e]) ++ r)
      by (by rewrite <- app_assoc).
    set (l := mem ++ [e]).
    assert (length l - k <= length l)%nat as Hle by lia.
    rewrite <- (drop_app_le l r _ Hle), drop_drop. f_equal.
    rewrite !length_app, length_drop, length_app. lia.
Qed.

Lemma add_memories_run self items w :
  add_memories self items w
  = Ok (with_memory
          (foldl (fun m e => remember e m) (memory self)
             (stamped (clock_reads w) items)) self,
        {| total_requests := total_requests w;
           failed_requests := failed_requests w;
           rand_draws := rand_draws w;
           clock_reads := (clock_reads w + length items)%nat |}).
Proof.
  revert self w. induction items as [|[[t c] r] items IH]; intros self w.
  - simpl. unfold mret, M_ret. destruct self, w; simpl.
    by rewrite Nat.add_0_r.
  - simpl. unfold mbind, M_bind, add_memory, now_isoformat, mbind, M_bind,
      mret, M_ret. rewrite IH. simpl. do 3 f_equal. lia.
Qed.

(** C8. With a positive cap k, after more than k calls of [add_memory]
    the buffer of the agent holds exactly the k most recently inserted
    entries, in insertion order: the list of the entries created, minus
    its first m - k elements. *)
Theorem add_memory_keeps_most_recent (self : Agent)
    (items : list (string * string * Z)) (w : World) :
  0 < MAX_MEMORY_SIZE cfg ->
  MAX_MEMORY_SIZE cfg < Z.of_nat (length items) ->
  exists self' w',
    add_memories self items w = Ok (self', w')
    /\ memory self'
       = drop (length items - Z.to_nat (MAX_MEMORY_SIZE cfg))
           (stamped (clock_reads w) items)
    /\ Z.of_nat (length (memory self')) = MAX_MEMORY_SIZE cfg.
Proof.
  intros Hpos Hmore. rewrite add_memories_run.
  eexists _, _. split; [reflexivity|].
  assert (stamped (clock_reads w) items <> []) as Hne.
  { intros E. apply (f_equal length) in E.
    rewrite length_stamped in E. simpl in E. lia. }
  cbn [memory with_memory]. rewrite remember_all_drop by done.
  pose proof (length_stamped (clock_reads w) items) as Hlen.
  set (es := stamped (clock_reads w) items) in *.
  rewrite drop_app_ge by (rewrite length_app; lia).
  assert (forall n m, n = m -> drop n es = drop m es) as Hd by (by intros ?? ->).
  rewrite (Hd _ (length items - Z.to_nat (MAX_MEMORY_SIZE cfg))%nat)
    by (rewrite length_app; lia).
  split; [done|]. rewrite length_drop. lia.
Qed.

(* =================================================================== *)
(** * Elimination *)
(* =================================================================== *)

(** C9. When some agent of the list bears the loser's name,
    [eliminate_agent] returns the first such agent and leaves the list
    without that one entry, every other entry in place and in order;
    when none does, it returns None and leaves both the list and the
    manager as they were. It never raises. *)
Theorem eliminate_agent_first_match (em : EvolutionManager)
    (ags : list Agent) (loser_name : string) (round_num : Z)
    (reason : string) :
  (Exists (fun a => name a = loser_name) ags ->
   exists before a after,
     ags = before ++ a :: after
     /\ name a = loser_name
     /\ Forall (fun b => name b <> loser_name) before
     /\ eliminate_agent em ags loser_name round_num reason
        = (Some a, before ++ after,
           record_elimination em (elimination_record round_num a reason)))
  /\ (Forall (fun a => name a <> loser_name) ags ->
      eliminate_agent em ags loser_name round_num reason = (None, ags, em)).
Proof.
  unfold eliminate_agent. split.
  - intros Hex. apply Exists_exists in Hex as (a0 & Hin & Hname).
    destruct (list_find_elem_of (fun a => name a = loser_name) ags a0 Hin Hname)
      as [[i a] Hfind].
    rewrite Hfind. apply list_find_Some in Hfind as (Hi & Ha & Hbefore).
    exists (take i ags), a, (drop (S i) ags).
    split; [by rewrite take_drop_middle|]. split; [done|]. split.
    + apply Forall_forall. intros b Hb.
      apply list_elem_of_lookup in Hb as [j Hj].
      pose proof (lookup_lt_Some _ _ _ Hj) as Hlt.
      rewrite length_take in Hlt.
      rewrite lookup_take_lt in Hj by lia. apply (Hbefore j); [done|lia].
    + by rewrite delete_take_drop.
  - intros Hnone.
    assert (list_find (fun agent => name agent = loser_name) ags = None)
      as -> by (by apply list_find_None).
    done.
Qed.

(* =================================================================== *)
(** * One agent's vote *)
(* =================================================================== *)

Lemma vote_without_candidates (self : Agent) (question : string)
    (answers : Py.dict string) (round_num : Z) (allow : bool) (w : World) :
  available_answers (name self) allow answers = [] ->
  vote_on_answers self question answers round_num allow w
  = Ok (name self, NO_OTHER_OPTIONS, self, w).
Proof. unfold vote_on_answers. by intros ->. Qed.

(** C6. When self-voting is disallowed and the agent's own answer is the
    only answer, [vote_on_answers] returns the agent's own name with the
    fixed justification, and the world is left as it was: no request
    reached the generator. *)
Theorem vote_alone_returns_self (self : Agent) (question : string)
    (answers : Py.dict string) (round_num : Z) (w : World) :
  Py.keys answers = [name self] ->
  vote_on_answers self question answers round_num false w
  = Ok (name self, NO_OTHER_OPTIONS, self, w).
Proof.
  intros Hkeys. apply vote_without_candidates.
  destruct answers as [|[k v] [|kv rest]]; try discriminate.
  injection Hkeys as ->. unfold available_answers, Py.filter_keys. simpl.
  by rewrite String.eqb_refl.
Qed.

Lemma bind_ok {A B} (m : M A) (f : A -> M B) w a w1 :
  m w = Ok (a, w1) -> (m ≫= f) w = f a w1.
Proof. unfold mbind, M_bind. by intros ->. Qed.

Lemma generate_returns (prompt mdl : string) (w : World) :
  exists reply failed,
    generate prompt mdl w = Ok (reply, count_request failed w).
Proof.
  unfold generate.
  destruct (ollama env (total_requests w) prompt mdl) as [st r t| |msg];
    [destruct (st =? 200)%nat|..]; eauto.
Qed.

Lemma mem_keys {V} (d : Py.dict V) (k : string) :
  Py.mem d k = true <-> k ∈ Py.keys d.
Proof.
  unfold Py.mem, Py.keys. induction d as [|[k' v] d IH]; simpl.
  - split; [done|]. intros H. by apply elem_of_nil in H.
  - rewrite elem_of_cons. destruct (String.eqb_spec k' k) as [->|Hne].
    + split; [by left|done].
    + rewrite IH. split; [by right|]. by intros [->|H].
Qed.

Lemma randbelow_lt (n : nat) (w : World) :
  n <> 0%nat ->
  exists i w', randbelow n w = Ok (i, w') /\ (i < n)%nat
               /\ total_requests w' = total_requests w.
Proof.
  intros Hn. unfold randbelow, draw, mbind, M_bind, mret, M_ret.
  eexists _, _. split; [reflexivity|]. split; [|done].
  by apply Nat.mod_upper_bound.
Qed.

Lemma random_choice_elem {A} (seq : list A) (w : World) :
  seq <> [] ->
  exists x w', random_choice seq w = Ok (x, w') /\ x ∈ seq.
Proof.
  destruct seq as [|x0 seq]; [done|]. intros _. unfold random_choice.
  destruct (randbelow_lt (length (x0 :: seq)) w) as (i & w' & Hr & Hi & _);
    [done|].
  rewrite (bind_ok _ _ _ _ _ Hr). unfold mret, M_ret.
  eexists _, _. split; [reflexivity|].
  destruct (lookup_lt_is_Some_2 (x0 :: seq) i Hi) as [x Hx].
  rewrite Hx. simpl. apply list_elem_of_lookup. eauto.
Qed.

Lemma keys_nonempty {V} (d : Py.dict V) : d <> [] -> Py.keys d <> [].
Proof. by destruct d. Qed.

Lemma validate_vote_spec (available : Py.dict string)
    (parsed : string * string) (w : World) :
  available <> [] ->
  exists voted justif w',
    validate_vote available parsed w = Ok (voted, justif, w')
    /\ voted ∈ Py.keys available
    /\ (Py.mem available parsed.1 = true ->
        (voted, justif) = parsed /\ w' = w)
    /\ (Py.mem available parsed.1 = false ->
        justif = VOTE_PARSING_FAILED
        /\ random_choice (Py.keys available) w = Ok (voted, w')).
Proof.
  intros Hne. unfold validate_vote.
  destruct (Py.mem available parsed.1) eqn:Hmem; simpl.
  - destruct parsed as [v j]. exists v, j, w. unfold mret, M_ret.
    split; [done|]. split; [by apply mem_keys|]. by split.
  - destruct (random_choice_elem (Py.keys available) w (keys_nonempty _ Hne))
      as (x & w' & Hr & Hx).
    rewrite (bind_ok _ _ _ _ _ Hr). exists x, VOTE_PARSING_FAILED, w'.
    unfold mret, M_ret. split; [done|]. split; [done|]. by split.
Qed.

Lemma add_memory_run (self : Agent) (memory_type content : string)
    (round_num : Z) (w : World) :
  add_memory self memory_type content round_num w
  = Ok (with_memory
          (remember {| m_type := memory_type; m_content := content;
                       m_round := round_num;
                       m_timestamp := clock env (clock_reads w) |}
             (memory self)) self,
        tick w).
Proof. reflexivity. Qed.

(** C5. With a non-empty candidate set, [vote_on_answers] returns, and
    the name it returns is a key of the candidate set. When the name
    parsed from the reply is a candidate, that name and the parsed
    justification are returned; when it is not, the name is the one
    [random.choice] draws from the candidates and the justification is
    the fixed parsing-failure text. *)
Theorem vote_stays_in_candidate_set (self : Agent) (question : string)
    (answers : Py.dict string) (round_num : Z) (allow : bool) (w : World) :
  available_answers (name self) allow answers <> [] ->
  exists reply w1 voted justif self' w',
    generate
      (voting_prompt self question
         (available_answers (name self) allow answers))
      (model self) w = Ok (reply, w1)
    /\ vote_on_answers self question answers round_num allow w
       = Ok (voted, justif, self', w')
    /\ voted ∈ Py.keys (available_answers (name self) allow answers)
    /\ (Py.mem (available_answers (name self) allow answers)
          (parse_vote reply).1 = true ->
        (voted, justif) = parse_vote reply)
    /\ (Py.mem (available_answers (name self) allow answers)
          (parse_vote reply).1 = false ->
        justif = VOTE_PARSING_FAILED
        /\ exists w2,
             random_choice
               (Py.keys (available_answers (name self) allow answers)) w1
             = Ok (voted, w2)).
Proof.
  intros Hne. unfold vote_on_answers.
  set (available := available_answers (name self) allow answers) in *.
  destruct (generate_returns (voting_prompt self question available)
              (model self) w) as (reply & failed & Hgen).
  destruct (validate_vote_spec available (parse_vote reply)
              (count_request failed w) Hne)
    as (voted & justif & w2 & Hval & Hin & Hok & Hbad).
  exists reply, (count_request failed w), voted, justif.
  destruct available as [|kv rest] eqn:Hav; [done|].
  rewrite (bind_ok _ _ _ _ _ Hgen), (bind_ok _ _ _ _ _ Hval).
  rewrite (bind_ok _ _ _ _ _ (add_memory_run _ _ _ _ _)).
  unfold mret, M_ret. eexists _, _. split; [done|]. split; [reflexivity|].
  split; [done|]. split; [intros Hm; by destruct (Hok Hm)|].
  intros Hm. destruct (Hbad Hm) as [-> Hr]. eauto.
Qed.

(** C7, as amended. [vote_on_answers] always returns. With a non-empty
    candidate set it increments the votes-cast counter by exactly one and
    inserts exactly one record of type "vote" into the memory buffer
    (through [add_memory], so the oldest entry leaves at the cap). On the
    self-fallback with an empty candidate set it returns before either:
    the agent and the world are left as they were. *)
Theorem vote_bookkeeping (self : Agent) (question : string)
    (answers : Py.dict string) (round_num : Z) (allow : bool) (w : World) :
  exists voted justif self' w',
    vote_on_answers self question answers round_num allow w
    = Ok (voted, justif, self', w')
    /\ (available_answers (name self) allow answers <> [] ->
        votes_cast self' = S (votes_cast self)
        /\ exists e,
             m_type e = "vote"
             /\ m_content e = "Voted for " +:+ voted +:+ ": " +:+ justif
             /\ m_round e = round_num
             /\ memory self' = remember e (memory self))
    /\ (available_answers (name self) allow answers = [] ->
        self' = self /\ w' = w).
Proof.
  destruct (available_answers (name self) allow answers) as [|kv rest] eqn:Hav.
  - rewrite (vote_without_candidates _ _ _ _ _ _ Hav).
    eexists _, _, _, _. split; [reflexivity|]. by split.
  - unfold vote_on_answers. rewrite Hav.
    destruct (generate_returns (voting_prompt self question (kv :: rest))
                (model self) w) as (reply & failed & Hgen).
    destruct (validate_vote_spec (kv :: rest) (parse_vote reply)
                (count_request failed w))
      as (voted & justif & w2 & Hval & _); [done|].
    rewrite (bind_ok _ _ _ _ _ Hgen), (bind_ok _ _ _ _ _ Hval).
    rewrite (bind_ok _ _ _ _ _ (add_memory_run _ _ _ _ _)).
    unfold mret, M_ret. eexists _, _, _, _. split; [reflexivity|].
    split; [|done]. intros _. split; [done|].
    eexists. split; [|split; [|split; [|reflexivity]]]; reflexivity.
Qed.

(* =================================================================== *)
(** * Initialization *)
(* =================================================================== *)

Lemma pad_personalities_repeats_first (missing : nat) (p0 : Personality)
    (rest : list Personality) (w : World) :
  pad_personalities missing (p0 :: rest) w
  = Ok ((p0 :: rest) ++ replicate missing p0, w).
Proof.
  revert rest. induction missing as [|missing IH]; intros rest.
  - simpl. by rewrite app_nil_r.
  - cbn [pad_personalities]. cbn [length Nat.eqb].
    rewrite Nat.Div0.mod_same. cbn [lookup list_lookup].
    change ((p0 :: rest) ++ [p0]) with (p0 :: (rest ++ [p0])).
    rewrite IH. simpl. rewrite <- app_assoc. simpl.
    done.
Qed.

Lemma pad_personalities_no_seed (missing : nat) (w : World) :
  pad_personalities (S missing) [] w = Raise ZeroDivisionError.
Proof. reflexivity. Qed.

Lemma create_founders_run (mdl : string) (personalities : list Personality)
    (i count : nat) (w : World) :
  (i + count <= length personalities)%nat ->
  create_founders mdl personalities i count w
  = Ok (new_founder mdl <$> take count (drop i personalities), w).
Proof.
  revert i. induction count as [|count IH]; intros i Hlen; [done|].
  cbn [create_founders].
  destruct (lookup_lt_is_Some_2 personalities i) as [p Hp]; [lia|].
  rewrite Hp. unfold mbind, M_bind. rewrite IH by lia. unfold mret, M_ret.
  rewrite (drop_S _ _ _ Hp). done.
Qed.

(** What [initialize_agents] does with too few seeds: with k >= 1 seeds
    and a population of n > k, the agents created are the k seeds in
    order followed by n - k copies of the first seed. *)
Lemma initialize_agents_short_list (sim : HungerGamesSimulation)
    (p0 : Personality) (rest : list Personality) (w : World) :
  (length (p0 :: rest) < num_agents sim)%nat ->
  exists sim',
    initialize_agents sim (p0 :: rest) w = Ok (sim', w)
    /\ agents sim'
       = agents sim
         ++ (new_founder (sim_model sim)
               <$> (p0 :: rest)
                   ++ replicate (num_agents sim - length (p0 :: rest)) p0).
Proof.
  intros Hshort. unfold initialize_agents, padded_personalities.
  destruct (Nat.ltb_spec (length (p0 :: rest)) (num_agents sim)); [|lia].
  rewrite (bind_ok _ _ _ _ _ (pad_personalities_repeats_first _ _ _ _)).
  set (padded := (p0 :: rest) ++ replicate _ p0).
  assert (length padded = num_agents sim) as Hlen.
  { unfold padded. rewrite length_app, length_replicate. lia. }
  rewrite (bind_ok _ _ _ _ _
             (create_founders_run (sim_model sim) padded 0 (num_agents sim) w
                ltac:(lia))).
  unfold mret, M_ret. eexists. split; [reflexivity|]. cbn [agents with_population].
  rewrite drop_0, <- Hlen, firstn_all. done.
Qed.

(** With no seed at all and a population to fill, the padding loop divides
    by zero. *)
Lemma initialize_agents_no_seed (sim : HungerGamesSimulation) (w : World) :
  (0 < num_agents sim)%nat ->
  initialize_agents sim [] w = Raise ZeroDivisionError.
Proof.
  intros Hpos. unfold initialize_agents, padded_personalities. simpl.
  destruct (num_agents sim) as [|n]; [lia|]. done.
Qed.

(* =================================================================== *)
(** * Dictionaries *)
(* =================================================================== *)

Lemma get_set_eq {V} (d : Py.dict V) (k : string) (v : V) :
  Py.get (Py.set d k v) k = Some v.
Proof.
  induction d as [|[k' v'] d IH]; simpl.
  - by rewrite String.eqb_refl.
  - destruct (String.eqb_spec k' k) as [->|Hne]; simpl.
    + by rewrite String.eqb_refl.
    + by destruct (String.eqb_spec k' k).
Qed.

Lemma get_set_ne {V} (d : Py.dict V) (k k' : string) (v : V) :
  k <> k' -> Py.get (Py.set d k v) k' = Py.get d k'.
Proof.
  intros Hne. induction d as [|[k0 v0] d IH]; simpl.
  - by destruct (String.eqb_spec k k').
  - destruct (String.eqb_spec k0 k) as [->|Hne0]; simpl.
    + by destruct (String.eqb_spec k k').
    + by rewrite IH.
Qed.

Lemma keys_set {V} (d : Py.dict V) (k : string) (v : V) (n : string) :
  n ∈ Py.keys (Py.set d k v) <-> n = k \/ n ∈ Py.keys d.
Proof.
  unfold Py.keys. induction d as [|[k0 v0] d IH]; simpl.
  - rewrite elem_of_cons. done.
  - destruct (String.eqb_spec k0 k) as [->|Hne0]; simpl.
    + rewrite elem_of_cons. tauto.
    + rewrite !elem_of_cons, IH. tauto.
Qed.

(* =================================================================== *)
(** * Ranked-choice points *)
(* =================================================================== *)

Lemma total_points_set (d : Py.dict Z) (k : string) (v : Z) :
  total_points (Py.set d k v) = total_points d - Py.get_default 0 d k + v.
Proof.
  unfold total_points, Py.get_default.
  induction d as [|[k' v'] d IH]; [simpl; lia|].
  cbn [Py.set Py.get].
  destruct (String.eqb_spec k' k) as [->|Hne];
    rewrite !fmap_cons; cbn [foldr snd]; lia.
Qed.

Lemma award_points_get (c idx : nat) (ranking : list string)
    (points : Py.dict Z) (n : string) :
  Py.get_default 0 (award_points c idx ranking points) n
  = Py.get_default 0 points n + positional_points c idx ranking n.
Proof.
  revert idx points. induction ranking as [|m rest IH]; intros idx points;
    simpl; [lia|].
  rewrite IH. unfold Py.get_default at 1.
  destruct (String.eqb_spec m n) as [->|Hne].
  - rewrite get_set_eq. lia.
  - rewrite get_set_ne by done. fold (Py.get_default 0 points n). lia.
Qed.

Lemma tally_points_get_from (c : nat) (all : list (list string))
    (points : Py.dict Z) (n : string) :
  Py.get_default 0
    (foldl (fun pts ranking => award_points c 0 ranking pts) points all) n
  = Py.get_default 0 points n
    + foldr Z.add 0 ((fun ranking => positional_points c 0 ranking n) <$> all).
Proof.
  revert points. induction all as [|r all IH]; intros points;
    [simpl; lia|].
  rewrite fmap_cons. cbn [foldl foldr]. rewrite IH, award_points_get. lia.
Qed.

Lemma award_points_total (c idx : nat) (ranking : list string)
    (points : Py.dict Z) :
  (idx + length ranking = c)%nat ->
  total_points (award_points c idx ranking points)
  = total_points points + countdown_sum (length ranking).
Proof.
  revert idx points. induction ranking as [|m rest IH]; intros idx points Hc;
    simpl; [lia|].
  rewrite IH by (simpl in Hc; lia). rewrite total_points_set.
  simpl in Hc. lia.
Qed.

Lemma positional_points_absent (c idx : nat) (ranking : list string)
    (n : string) :
  n ∉ ranking -> positional_points c idx ranking n = 0.
Proof.
  revert idx. induction ranking as [|m rest IH]; intros idx Hn; [done|].
  apply not_elem_of_cons in Hn as [Hne Hn]. simpl.
  rewrite IH by done. by destruct (String.eqb_spec m n) as [->|_].
Qed.

Lemma positional_points_at (c idx0 : nat) (ranking : list string) (idx : nat)
    (n : string) :
  NoDup ranking -> ranking !! idx = Some n ->
  positional_points c idx0 ranking n = Z.of_nat c - Z.of_nat (idx0 + idx).
Proof.
  revert idx0 idx. induction ranking as [|m rest IH]; intros idx0 idx Hnd Hat;
    [done|].
  apply NoDup_cons in Hnd as [Hm Hnd]. destruct idx as [|idx]; simpl in *.
  - injection Hat as ->. rewrite String.eqb_refl.
    rewrite positional_points_absent by done. rewrite Nat.add_0_r. lia.
  - destruct (String.eqb_spec m n) as [->|_].
    + exfalso. apply Hm. apply list_elem_of_lookup. eauto.
    + rewrite (IH (S idx0) idx) by done.
      replace (S idx0 + idx)%nat with (idx0 + S idx)%nat by lia. lia.
Qed.

(* =================================================================== *)
(** * Tallies *)
(* =================================================================== *)

Lemma available_keys_incl (self_name : string) (allow : bool)
    (answers : Py.dict string) (n : string) :
  n ∈ Py.keys (available_answers self_name allow answers) ->
  n ∈ Py.keys answers.
Proof.
  unfold available_answers, Py.filter_keys, Py.keys.
  rewrite !list_elem_of_fmap. intros ([k v] & -> & Hin).
  apply list_elem_of_In, filter_In in Hin as [Hin _].
  exists (k, v). split; [done|]. by apply list_elem_of_In.
Qed.

(** Every call of [vote_on_answers] returns; the agent keeps its name;
    the name voted for is a key of the answers or, on the self-fallback,
    the voter's own. *)
Lemma vote_on_answers_total (self : Agent) (question : string)
    (answers : Py.dict string) (round_num : Z) (allow : bool) (w : World) :
  exists voted justif self' w',
    vote_on_answers self question answers round_num allow w
    = Ok (voted, justif, self', w')
    /\ name self' = name self
    /\ (voted ∈ Py.keys answers \/ voted = name self).
Proof.
  destruct (available_answers (name self) allow answers) as [|kv rest] eqn:Hav.
  - rewrite (vote_without_candidates _ _ _ _ _ _ Hav).
    eexists _, _, _, _. split; [reflexivity|]. split; [done|]. by right.
  - unfold vote_on_answers. rewrite Hav.
    destruct (generate_returns (voting_prompt self question (kv :: rest))
                (model self) w) as (reply & failed & Hgen).
    destruct (validate_vote_spec (kv :: rest) (parse_vote reply)
                (count_request failed w))
      as (voted & justif & w2 & Hval & Hin & _); [done|].
    rewrite (bind_ok _ _ _ _ _ Hgen), (bind_ok _ _ _ _ _ Hval).
    rewrite (bind_ok _ _ _ _ _ (add_memory_run _ _ _ _ _)).
    unfold mret, M_ret. eexists _, _, _, _. split; [reflexivity|].
    split; [done|]. left. rewrite <- Hav in Hin.
    by apply available_keys_incl in Hin.
Qed.

(** The loop of [_single_choice_vote] returns. It appends one ballot per
    agent; the tally gains exactly the names on the new ballots; every such
    name is a key of the answers or the name of one of the voters. *)
Lemma collect_votes_total (allow : bool) (question : string)
    (answers : Py.dict string) (round_num : Z) (ags : list Agent)
    (b : Ballots) (w : World) :
  exists b' ags' w' cast,
    collect_votes allow question answers round_num ags b w
    = Ok (b', ags', w')
    /\ name <$> ags' = name <$> ags
    /\ b_vote_details b' = b_vote_details b ++ cast
    /\ length cast = length ags
    /\ (forall n, n ∈ Py.keys (b_votes b')
                  <-> n ∈ Py.keys (b_votes b) \/ n ∈ voted_for <$> cast)
    /\ (forall n, n ∈ voted_for <$> cast ->
                  n ∈ Py.keys answers \/ n ∈ name <$> ags).
Proof.
  revert b w. induction ags as [|agent rest IH]; intros b w.
  - exists b, [], w, []. simpl. rewrite app_nil_r.
    repeat split; try done.
    + by left.
    + intros [H|H]; [done|]. by apply elem_of_nil in H.
    + intros n H. by apply elem_of_nil in H.
  - cbn [collect_votes].
    destruct (vote_on_answers_total agent question answers round_num allow w)
      as (voted & justif & agent' & w1 & Hvote & Hname & Hvoted).
    rewrite (bind_ok _ _ _ _ _ Hvote). cbn beta iota.
    destruct (IH (count_ballot b (name agent) voted justif) w1)
      as (b' & rest' & w' & cast & Hrun & Hnames & Hdet & Hlen & Hkeys & Hin).
    rewrite (bind_ok _ _ _ _ _ Hrun). cbn beta iota. unfold mret, M_ret.
    exists b', (agent' :: rest'), w',
      ({| voter := name agent; voted_for := voted; justification := justif |}
         :: cast).
    split; [done|]. split; [by rewrite !fmap_cons, Hname, Hnames|].
    split; [by rewrite Hdet; cbn; rewrite <- app_assoc|].
    split; [by cbn; rewrite Hlen|]. split.
    + intros n. rewrite Hkeys. cbn [count_ballot b_votes].
      rewrite keys_set, fmap_cons, elem_of_cons. cbn. tauto.
    + intros n. rewrite !fmap_cons, !elem_of_cons. cbn.
      intros [->|Hn]; [tauto|]. destruct (Hin n Hn); tauto.
Qed.

Lemma credit_votes_name (votes : Py.dict nat) (ags : list Agent) :
  name <$> (credit_votes votes <$> ags) = name <$> ags.
Proof.
  rewrite <- list_fmap_compose. apply list_fmap_ext. intros _ a _.
  unfold credit_votes. simpl. by destruct (Py.mem votes (name a)).
Qed.

(** [_single_choice_vote] returns; the keys of its tally are the names on
    its ballots, one ballot per agent. *)
Lemma single_choice_vote_total (vs : VotingSystem) (ags : list Agent)
    (question : string) (answers : Py.dict string) (round_num : Z)
    (w : World) :
  exists votes details justifs vs' ags' w',
    _single_choice_vote vs ags question answers round_num w
    = Ok (SingleChoice round_num question votes details justifs (length ags),
          vs', ags', w')
    /\ name <$> ags' = name <$> ags
    /\ length details = length ags
    /\ (forall n, n ∈ Py.keys votes <-> n ∈ voted_for <$> details)
    /\ (forall n, n ∈ Py.keys votes ->
                  n ∈ Py.keys answers \/ n ∈ name <$> ags).
Proof.
  unfold _single_choice_vote.
  destruct (collect_votes_total (allow_self_voting vs) question answers
              round_num ags no_ballots w)
    as (b & ags1 & w' & cast & Hrun & Hnames & Hdet & Hlen & Hkeys & Hin).
  rewrite (bind_ok _ _ _ _ _ Hrun). cbn beta iota. unfold mret, M_ret.
  simpl in Hdet. eexists _, _, _, _, _, _. split; [reflexivity|].
  split; [by rewrite credit_votes_name|]. rewrite Hdet.
  split; [done|]. split.
  - intros n. rewrite Hkeys. simpl. split; [|tauto].
    intros [H|H]; [|done]. by apply elem_of_nil in H.
  - intros n Hn. apply Hin. apply Hkeys in Hn as [H|H]; [|done].
    by apply elem_of_nil in H.
Qed.

Lemma elem_of_insert_inv {A} (l : list A) (i : nat) (x y : A) :
  x ∈ <[i := y]> l -> x = y \/ x ∈ l.
Proof.
  revert i. induction l as [|z l IH]; intros i; [by right|].
  destruct i as [|i]; cbn; rewrite !elem_of_cons.
  - tauto.
  - intros [->|H]; [tauto|]. destruct (IH _ H); tauto.
Qed.

Lemma swap_elem {A} (i j : nat) (x : list A) (a : A) :
  a ∈ swap i j x -> a ∈ x.
Proof.
  unfold swap. destruct (x !! i) as [xi|] eqn:Hi; [|done].
  destruct (x !! j) as [xj|] eqn:Hj; [|done].
  intros H. apply elem_of_insert_inv in H as [->|H].
  - apply list_elem_of_lookup. eauto.
  - apply elem_of_insert_inv in H as [->|H]; [|done].
    apply list_elem_of_lookup. eauto.
Qed.

Lemma length_swap {A} (i j : nat) (x : list A) :
  length (swap i j x) = length x.
Proof.
  unfold swap. destruct (x !! i); [|done]. destruct (x !! j); [|done].
  by rewrite !length_insert.
Qed.

Lemma shuffle_from_total {A} (i : nat) (x : list A) (w : World) :
  exists x' w',
    shuffle_from i x w = Ok (x', w')
    /\ length x' = length x
    /\ (forall a, a ∈ x' -> a ∈ x)
    /\ total_requests w' = total_requests w.
Proof.
  revert x w. induction i as [|i IH]; intros x w.
  - exists x, w. by repeat split.
  - cbn [shuffle_from].
    destruct (randbelow_lt (S (S i)) w) as (j & w1 & Hr & _ & Hreq); [done|].
    rewrite (bind_ok _ _ _ _ _ Hr).
    destruct (IH (swap (S i) j x) w1) as (x' & w' & Hrun & Hlen & Hin & Hreq').
    rewrite (bind_ok _ _ _ _ _ Hrun). unfold mret, M_ret.
    exists x', w'. split; [done|]. split; [by rewrite Hlen, length_swap|].
    split; [|congruence]. intros a Ha. by apply (swap_elem (S i) j), Hin.
Qed.

Lemma parse_ranking_line_elem (available : Py.dict string)
    (acc : list string * string) (line : string) :
  Forall (fun n => n ∈ Py.keys available) acc.1 ->
  Forall (fun n => n ∈ Py.keys available)
    (parse_ranking_line available acc line).1.
Proof.
  intros Hacc. unfold parse_ranking_line.
  destruct (Py.startswith _ _); [by destruct (Py.split1 _ _) as [? []]|].
  destruct (first_isdigit _ || Py.startswith _ _); [|done].
  destruct (if Py.contains _ _ then _ else _) as [? [rest|]]; [|done].
  destruct (Py.mem available (Py.strip rest)) eqn:Hmem; [|done].
  cbn. apply Forall_app. split; [done|].
  apply Forall_singleton. by apply mem_keys.
Qed.

Lemma parse_ranking_elem (available : Py.dict string) (response : string) :
  Forall (fun n => n ∈ Py.keys available) (parse_ranking available response).1.
Proof.
  unfold parse_ranking.
  generalize (Py.split (Py.chr 10) (Py.strip response)).
  assert (Forall (fun n => n ∈ Py.keys available)
            (([] : list string), EmptyString).1) as Hacc by constructor.
  revert Hacc. generalize (([] : list string), EmptyString).
  intros acc Hacc lines. revert acc Hacc.
  induction lines as [|line lines IH]; intros acc Hacc; [done|].
  cbn [foldl]. by apply IH, parse_ranking_line_elem.
Qed.

(** [_get_agent_rankings] returns a non-empty ranking whose entries are
    keys of the answers, or the voter's own name on the self-fallback. *)
Lemma get_agent_rankings_total (vs : VotingSystem) (agent : Agent)
    (question : string) (answers : Py.dict string) (round_num : Z)
    (w : World) :
  exists ranked justif w',
    _get_agent_rankings vs agent question answers round_num w
    = Ok (ranked, justif, w')
    /\ ranked <> []
    /\ (forall n, n ∈ ranked -> n ∈ Py.keys answers \/ n = name agent).
Proof.
  unfold _get_agent_rankings.
  destruct (available_answers (name agent) (allow_self_voting vs) answers)
    as [|kv rest] eqn:Hav.
  - unfold mret, M_ret. eexists _, _, _. split; [reflexivity|].
    split; [done|]. intros n Hn. apply list_elem_of_singleton in Hn. by right.
  - destruct (generate_returns (ranking_prompt agent question (kv :: rest))
                (model agent) w) as (reply & failed & Hgen).
    rewrite (bind_ok _ _ _ _ _ Hgen).
    pose proof (parse_ranking_elem (kv :: rest) reply) as Hparsed.
    destruct (parse_ranking (kv :: rest) reply) as [ranked justif] eqn:Hp.
    cbn [fst] in *. destruct ranked as [|r0 ranked].
    + destruct (shuffle_from_total (length (Py.keys (kv :: rest)) - 1)
                  (Py.keys (kv :: rest)) (count_request failed w))
        as (x' & w' & Hrun & Hlen & Hin & _).
      unfold random_shuffle. rewrite (bind_ok _ _ _ _ _ Hrun).
      unfold mret, M_ret. eexists _, _, _. split; [reflexivity|]. split.
      * intros ->. simpl in Hlen. discriminate.
      * intros n Hn. left. apply Hin in Hn. rewrite <- Hav in Hn.
        by apply available_keys_incl in Hn.
    + unfold mret, M_ret. eexists _, _, _. split; [reflexivity|].
      split; [done|]. intros n Hn. left.
      rewrite Forall_forall in Hparsed. apply Hparsed in Hn.
      rewrite <- Hav in Hn. by apply available_keys_incl in Hn.
Qed.

Lemma collect_rankings_total (vs : VotingSystem) (question : string)
    (answers : Py.dict string) (round_num : Z) (ags : list Agent)
    (w : World) :
  exists details w',
    collect_rankings vs question answers round_num ags w = Ok (details, w')
    /\ length details = length ags
    /\ Forall (fun d => rankings d <> []) details
    /\ (forall n, n ∈ details ≫= rankings ->
                  n ∈ Py.keys answers \/ n ∈ name <$> ags).
Proof.
  revert w. induction ags as [|agent rest IH]; intros w.
  - exists [], w. repeat split; try done.
    intros n H. by apply elem_of_nil in H.
  - cbn [collect_rankings].
    destruct (get_agent_rankings_total vs agent question answers round_num w)
      as (ranked & justif & w1 & Hrun & Hne & Hin).
    rewrite (bind_ok _ _ _ _ _ Hrun). cbn beta iota.
    destruct (IH w1) as (details & w' & Hrest & Hlen & Hall & Hins).
    rewrite (bind_ok _ _ _ _ _ Hrest). unfold mret, M_ret.
    eexists _, _. split; [reflexivity|]. split; [by cbn; rewrite Hlen|].
    split; [by constructor|]. intros n.
    rewrite bind_cons, elem_of_app, fmap_cons, elem_of_cons. cbn.
    intros [Hn|Hn]; [destruct (Hin n Hn); tauto|destruct (Hins n Hn); tauto].
Qed.

Lemma award_points_keys (c idx : nat) (ranking : list string)
    (points : Py.dict Z) (n : string) :
  n ∈ Py.keys (award_points c idx ranking points)
  <-> n ∈ Py.keys points \/ n ∈ ranking.
Proof.
  revert idx points. induction ranking as [|m rest IH]; intros idx points.
  - simpl. split; [by left|]. intros [H|H]; [done|]. by apply elem_of_nil in H.
  - cbn [award_points]. rewrite IH, keys_set, elem_of_cons. tauto.
Qed.

Lemma tally_points_keys_from (c : nat) (all : list (list string))
    (points : Py.dict Z) (n : string) :
  n ∈ Py.keys (foldl (fun pts ranking => award_points c 0 ranking pts)
                 points all)
  <-> n ∈ Py.keys points \/ n ∈ all ≫= id.
Proof.
  revert points. induction all as [|r all IH]; intros points.
  - simpl. split; [by left|]. intros [H|H]; [done|]. by apply elem_of_nil in H.
  - cbn [foldl]. rewrite IH, award_points_keys, bind_cons, elem_of_app.
    cbn. tauto.
Qed.

Lemma bind_fmap_id {A B} (f : A -> list B) (l : list A) :
  (f <$> l) ≫= id = l ≫= f.
Proof. induction l as [|x l IH]; [done|]. cbn. by rewrite IH. Qed.

(** [_ranked_choice_vote] returns; the keys of its tally are the names in
    its rankings, one non-empty ranking per agent. *)
Lemma ranked_choice_vote_total (vs : VotingSystem) (ags : list Agent)
    (question : string) (answers : Py.dict string) (round_num : Z)
    (w : World) :
  exists points details vs' w',
    _ranked_choice_vote vs ags question answers round_num w
    = Ok (RankedChoice round_num question points details (length ags),
          vs', ags, w')
    /\ length details = length ags
    /\ Forall (fun d => rankings d <> []) details
    /\ (forall n, n ∈ Py.keys points <-> n ∈ details ≫= rankings)
    /\ (forall n, n ∈ Py.keys points ->
                  n ∈ Py.keys answers \/ n ∈ name <$> ags).
Proof.
  unfold _ranked_choice_vote.
  destruct (collect_rankings_total vs question answers round_num ags w)
    as (details & w' & Hrun & Hlen & Hall & Hin).
  rewrite (bind_ok _ _ _ _ _ Hrun). unfold mret, M_ret.
  eexists _, _, _, _. split; [reflexivity|]. split; [done|]. split; [done|].
  assert (forall n,
            n ∈ Py.keys (tally_points (length answers) (rankings <$> details))
            <-> n ∈ details ≫= rankings) as Hkeys.
  { intros n. unfold tally_points.
    rewrite tally_points_keys_from, bind_fmap_id. split; [|tauto].
    intros [H|H]; [|done]. by apply elem_of_nil in H. }
  split; [done|]. intros n Hn. by apply Hin, Hkeys.
Qed.

Lemma collect_rankings_asked (vs : VotingSystem) (question : string)
    (answers : Py.dict string) (round_num : Z) (ags : list Agent)
    (w : World) :
  exists details w',
    collect_rankings vs question answers round_num ags w = Ok (details, w')
    /\ rankings_asked vs question answers round_num ags w details w'
    /\ r_voter <$> details = name <$> ags
    /\ Forall (fun d => rankings d <> []) details.
Proof.
  revert w. induction ags as [|agent rest IH]; intros w.
  - exists [], w. split; [done|]. split; [constructor|]. by split.
  - cbn [collect_rankings].
    destruct (get_agent_rankings_total vs agent question answers round_num w)
      as (ranked & justif & w1 & Hrun & Hne & _).
    rewrite (bind_ok _ _ _ _ _ Hrun). cbn beta iota.
    destruct (IH w1) as (details & w' & Hrest & Hasked & Hvoters & Hall).
    rewrite (bind_ok _ _ _ _ _ Hrest). unfold mret, M_ret.
    eexists _, _. split; [reflexivity|].
    split; [by econstructor|]. split; [by rewrite !fmap_cons, Hvoters|].
    by constructor.
Qed.

(** C4. Ranked-choice voting awards positional points and accumulates
    them across the voters. [_ranked_choice_vote] always returns; every
    agent, in population order, is asked once for its ranking through
    [_get_agent_rankings], and these rankings, none of them empty, are the
    ones of the result; with c the number of answers, the points of the
    result are [tally_points] of exactly these rankings, so that every
    name holds the sum, over all the voters and all the positions of their
    rankings, of what the position rule gives. In a ranking without
    repetition the name at 0-based position idx is given c - idx; and one
    ranking of length c raises the total of the tally by
    c + (c-1) + ... + 1. *)
Theorem ranked_points_are_positional (c : nat) :
  (forall vs ags question answers round_num w,
     exists result details vs' w',
       _ranked_choice_vote vs ags question answers round_num w
       = Ok (result, vs', ags, w')
       /\ result
          = RankedChoice round_num question
              (tally_points (length answers) (rankings <$> details))
              details (length ags)
       /\ rankings_asked vs question answers round_num ags w details w'
       /\ r_voter <$> details = name <$> ags
       /\ Forall (fun d => rankings d <> []) details
       /\ vote_history vs' = vote_history vs ++ [result]
       /\ forall n,
            Py.get_default 0
              (tally_points (length answers) (rankings <$> details)) n
            = foldr Z.add 0
                ((fun d => positional_points (length answers) 0 (rankings d) n)
                   <$> details))
  /\ (forall all n,
        Py.get_default 0 (tally_points c all) n
        = foldr Z.add 0
            ((fun ranking => positional_points c 0 ranking n) <$> all))
  /\ (forall ranking idx n,
        NoDup ranking -> ranking !! idx = Some n ->
        positional_points c 0 ranking n = Z.of_nat c - Z.of_nat idx)
  /\ (forall ranking points,
        length ranking = c ->
        total_points (award_points c 0 ranking points)
        = total_points points + countdown_sum c).
Proof.
  split; [|split; [|split]].
  - intros vs ags question answers round_num w.
    unfold _ranked_choice_vote.
    destruct (collect_rankings_asked vs question answers round_num ags w)
      as (details & w' & Hrun & Hasked & Hvoters & Hall).
    rewrite (bind_ok _ _ _ _ _ Hrun). unfold mret, M_ret.
    eexists _, details, _, w'. split; [reflexivity|]. split; [done|].
    split; [done|]. split; [done|]. split; [done|]. split; [done|].
    intros n. unfold tally_points.
    by rewrite tally_points_get_from, <- list_fmap_compose.
  - intros all n. unfold tally_points. by rewrite tally_points_get_from.
  - intros ranking idx n Hnd Hat.
    by rewrite (positional_points_at c 0 ranking idx n).
  - intros ranking points Hlen.
    rewrite award_points_total by (simpl; lia). by rewrite Hlen.
Qed.

Lemma nonempty_elem {A} (l : list A) : l <> [] -> exists x, x ∈ l.
Proof. destruct l as [|x l]; [done|]. intros _. exists x. by left. Qed.

(** [conduct_vote] with one of the two methods returns; the agents keep
    their names; the keys of the tally are exactly the names chosen; each
    is a key of the answers or the name of a voter; a non-empty electorate
    leaves a non-empty tally. *)
Lemma conduct_vote_total (vs : VotingSystem) (ags : list Agent)
    (question : string) (answers : Py.dict string) (round_num : Z)
    (w : World) :
  known_method vs ->
  exists result vs' ags' w',
    conduct_vote vs ags question answers round_num w
    = Ok (result, vs', ags', w')
    /\ name <$> ags' = name <$> ags
    /\ (forall n, n ∈ tally_keys result <-> n ∈ chosen_names result)
    /\ (forall n, n ∈ tally_keys result ->
                  n ∈ Py.keys answers \/ n ∈ name <$> ags)
    /\ (ags <> [] -> tally_keys result <> []).
Proof.
  intros Hknown. unfold conduct_vote.
  destruct (String.eqb_spec (method vs) "single-choice") as [_|Hns].
  - destruct (single_choice_vote_total vs ags question answers round_num w)
      as (votes & details & justifs & vs' & ags' & w' & Hrun & Hnames & Hlen
          & Hkeys & Hin).
    eexists _, _, _, _. split; [exact Hrun|]. split; [done|].
    split; [done|]. split; [done|]. intros Hne. cbn.
    destruct details as [|d details].
    { destruct ags; [done|discriminate]. }
    intros Hnil. specialize (Hkeys (voted_for d)). rewrite Hnil in Hkeys.
    rewrite fmap_cons in Hkeys.
    assert (voted_for d ∈ ([] : list string)) as H
      by (apply Hkeys; by left).
    by apply elem_of_nil in H.
  - destruct (String.eqb_spec (method vs) "ranked-choice") as [_|Hnr];
      [|by destruct Hknown].
    destruct (ranked_choice_vote_total vs ags question answers round_num w)
      as (points & details & vs' & w' & Hrun & Hlen & Hall & Hkeys & Hin).
    eexists _, _, _, _. split; [exact Hrun|]. split; [done|].
    split; [done|]. split; [done|]. intros Hne. cbn.
    destruct details as [|d details].
    { destruct ags; [done|discriminate]. }
    apply Forall_cons in Hall as [Hd _].
    destruct (nonempty_elem _ Hd) as [n Hn].
    intros Hnil. specialize (Hkeys n). rewrite Hnil in Hkeys.
    assert (n ∈ ([] : list string)) as H.
    { apply Hkeys. rewrite bind_cons, elem_of_app. by left. }
    by apply elem_of_nil in H.
Qed.

Lemma conduct_vote_unknown_method (vs : VotingSystem) (ags : list Agent)
    (question : string) (answers : Py.dict string) (round_num : Z)
    (w : World) :
  ~ known_method vs ->
  conduct_vote vs ags question answers round_num w
  = Raise (ValueError ("Unknown voting method: " +:+ method vs)).
Proof.
  intros Hunknown. unfold conduct_vote, known_method in *.
  destruct (String.eqb_spec (method vs) "single-choice"); [tauto|].
  destruct (String.eqb_spec (method vs) "ranked-choice"); [tauto|]. done.
Qed.

Lemma known_method_dec (vs : VotingSystem) :
  known_method vs \/ ~ known_method vs.
Proof.
  unfold known_method.
  destruct (String.eqb_spec (method vs) "single-choice"); [tauto|].
  destruct (String.eqb_spec (method vs) "ranked-choice"); tauto.
Qed.

(** The keys of a tally. In the result of every conducted vote,
    single-choice or ranked-choice, the keys of the tally are exactly the
    names that some voter chose: the votee of a ballot, an entry of a
    ranking. A candidate nobody chose has no entry. Every key is a key of
    the answers or the name of a voter, so when every voter's name is a
    key of the answers (as in [run_round]) no name outside the candidate
    set has an entry. *)
Theorem conduct_vote_tally_keys (vs : VotingSystem) (ags : list Agent)
    (question : string) (answers : Py.dict string) (round_num : Z)
    (w : World) (result : VoteResult) (vs' : VotingSystem)
    (ags' : list Agent) (w' : World) :
  conduct_vote vs ags question answers round_num w
  = Ok (result, vs', ags', w') ->
  (forall n, n ∈ tally_keys result <-> n ∈ chosen_names result)
  /\ (forall n, n ∈ tally_keys result ->
                n ∈ Py.keys answers \/ n ∈ name <$> ags)
  /\ ((forall a, a ∈ ags -> name a ∈ Py.keys answers) ->
      forall n, n ∈ tally_keys result -> n ∈ Py.keys answers).
Proof.
  intros Hrun. destruct (known_method_dec vs) as [Hknown|Hunknown].
  - destruct (conduct_vote_total vs ags question answers round_num w Hknown)
      as (result0 & vs0 & ags0 & w0 & Hrun0 & _ & Hkeys & Hin & _).
    rewrite Hrun in Hrun0. injection Hrun0 as <- <- <- <-.
    split; [done|]. split; [done|]. intros Hvoters n Hn.
    destruct (Hin n Hn) as [H|H]; [done|].
    apply list_elem_of_fmap in H as (a & -> & Ha). by apply Hvoters.
  - by rewrite conduct_vote_unknown_method in Hrun.
Qed.

(* =================================================================== *)
(** * Spawning *)
(* =================================================================== *)

Ltac step H := rewrite (bind_ok _ _ _ _ _ H); cbn beta iota.

Lemma random_random_total (w : World) :
  exists u w', random_random w = Ok (u, w').
Proof. unfold random_random, draw, mbind, M_bind, mret, M_ret. eauto. Qed.

Lemma bisect_le (weights : list nat) (acc : nat) (x : Q) (i hi : nat) :
  (bisect weights acc x i hi <= hi)%nat.
Proof.
  revert acc i. induction weights as [|wt rest IH]; intros acc i; simpl; [lia|].
  destruct (Qle_bool _ x); [apply IH|lia].
Qed.

Lemma random_choices1_total {A} (population : list A) (weights : list nat)
    (w : World) :
  population <> [] -> foldr Nat.add 0%nat weights <> 0%nat ->
  exists x w', random_choices1 population weights w = Ok (x, w').
Proof.
  intros Hne Htotal. unfold random_choices1.
  destruct population as [|x0 rest]; [done|].
  destruct (Nat.eqb_spec (foldr Nat.add 0%nat weights) 0); [done|].
  destruct (random_random_total w) as (u & w' & Hu). step Hu.
  unfold mret, M_ret. eauto.
Qed.

Lemma weights_positive {A} (f : A -> nat) (l : list A) :
  l <> [] -> foldr Nat.add 0%nat ((fun a => f a + 1)%nat <$> l) <> 0%nat.
Proof. destruct l as [|a l]; [done|]. intros _. cbn. lia. Qed.

Lemma select_parent_total (ags : list Agent) (w : World) :
  ags <> [] -> exists parent w', _select_parent ags w = Ok (parent, w').
Proof.
  intros Hne. unfold _select_parent. apply random_choices1_total; [done|].
  destruct (all_one_value _); by apply weights_positive.
Qed.

Lemma random_sample_total {A} (population : list A) (k : nat) (w : World) :
  (k <= length population)%nat ->
  exists sample w', random_sample population k w = Ok (sample, w').
Proof.
  revert population w. induction k as [|k IH]; intros population w Hk.
  - unfold random_sample, mret, M_ret. eauto.
  - cbn [random_sample]. destruct population as [|x0 rest] eqn:Hp;
      [simpl in Hk; lia|]. rewrite <- Hp in *.
    destruct (randbelow_lt (length population) w) as (i & w1 & Hr & Hi & _);
      [rewrite Hp; done|]. step Hr.
    destruct (IH (delete i population) w1) as (sample & w' & Hs).
    { rewrite length_delete by (by apply lookup_lt_is_Some_2). lia. }
    step Hs. unfold mret, M_ret. eauto.
Qed.

Lemma randint_total (a b : nat) (w : World) :
  exists n w', random_randint a b w = Ok (n, w').
Proof.
  unfold random_randint, randbelow, draw, mbind, M_bind, mret, M_ret. eauto.
Qed.

Lemma evolve_personality_total (em : EvolutionManager) (parent : Agent)
    (w : World) :
  exists personality w', _evolve_personality em parent w = Ok (personality, w').
Proof.
  unfold _evolve_personality.
  destruct (random_random_total w) as (u & w1 & Hu). step Hu.
  destruct (below u (mutation_rate em)); [|unfold mret, M_ret; eauto].
  destruct (randint_total 1 3 w1) as (n & w2 & Hn). step Hn.
  destruct (random_sample_total (mutation_traits em)
              (Nat.min n (length (mutation_traits em))) w2)
    as (sample & w3 & Hs); [lia|].
  step Hs. unfold mret, M_ret. eauto.
Qed.

Lemma generate_evolved_name_total (parent : Agent) (w : World) :
  exists new_name w', _generate_evolved_name parent None w = Ok (new_name, w').
Proof.
  unfold _generate_evolved_name. cbn [truthy].
  destruct (random_choice_elem evolution_suffixes w) as (s & w1 & Hs & _);
    [done|]. step Hs.
  destruct (random_random_total w1) as (u & w2 & Hu). step Hu.
  destruct (below u _); [unfold mret, M_ret; eauto|].
  destruct (random_choice_elem adjectives w2) as (a & w3 & Ha & _); [done|].
  step Ha.
  destruct (random_choice_elem nouns w3) as (n & w4 & Hn & _); [done|].
  step Hn. unfold mret, M_ret. eauto.
Qed.

(** [create_evolved_agent] returns a new agent exactly when there is a
    survivor to descend from. *)
Lemma create_evolved_agent_total (em : EvolutionManager) (ags : list Agent)
    (round_num : Z) (mdl : string) (w : World) :
  ags <> [] ->
  exists new_agent em' w',
    create_evolved_agent em ags round_num mdl None w
    = Ok (new_agent, em', w').
Proof.
  intros Hne. unfold create_evolved_agent.
  destruct ags as [|a0 rest] eqn:Hags; [done|]. rewrite <- Hags in *.
  destruct (select_parent_total ags w) as (parent & w1 & Hp);
    [by rewrite Hags|]. step Hp.
  destruct (evolve_personality_total em parent w1) as (pers & w2 & He).
  step He.
  destruct (generate_evolved_name_total parent w2) as (nm & w3 & Hn).
  step Hn. unfold mret, M_ret. eauto.
Qed.

Lemma create_evolved_agent_none (em : EvolutionManager) (round_num : Z)
    (mdl : string) (w : World) :
  create_evolved_agent em [] round_num mdl None w
  = Raise (ValueError "Cannot create evolved agent with no existing agents").
Proof. reflexivity. Qed.

(* =================================================================== *)
(** * One round *)
(* =================================================================== *)

Lemma generate_answer_total (self : Agent) (question : string)
    (round_num : Z) (w : World) :
  exists answer self' w',
    generate_answer self question round_num w = Ok (answer, self', w')
    /\ name self' = name self.
Proof.
  unfold generate_answer.
  match goal with
  | |- context [generate ?p ?m] =>
      destruct (generate_returns p m w) as (answer & failed & Hgen)
  end.
  step Hgen. step (add_memory_run self "answer"
                     ("Q: " +:+ question +:+ " | A: " +:+ answer) round_num
                     (count_request failed w)).
  unfold mret, M_ret. eexists _, _, _. split; [reflexivity|]. done.
Qed.

Lemma collect_answers_total (question : string) (round_num : Z)
    (ags : list Agent) (answers : Py.dict string) (w : World) :
  exists answers' ags' w',
    collect_answers question round_num ags answers w
    = Ok (answers', ags', w')
    /\ name <$> ags' = name <$> ags
    /\ (forall n, n ∈ Py.keys answers'
                  <-> n ∈ Py.keys answers \/ n ∈ name <$> ags).
Proof.
  revert answers w. induction ags as [|agent rest IH]; intros answers w.
  - exists answers, [], w. split; [done|]. split; [done|].
    intros n. split; [by left|]. intros [H|H]; [done|].
    by apply elem_of_nil in H.
  - cbn [collect_answers].
    destruct (generate_answer_total agent question round_num w)
      as (answer & agent' & w1 & Hgen & Hname). step Hgen.
    destruct (IH (Py.set answers (name agent) answer) w1)
      as (answers' & rest' & w' & Hrun & Hnames & Hkeys). step Hrun.
    unfold mret, M_ret. eexists _, _, _. split; [reflexivity|].
    split; [by rewrite !fmap_cons, Hname, Hnames|].
    intros n. rewrite Hkeys, keys_set, fmap_cons, elem_of_cons. tauto.
Qed.

Lemma first_best_elem {V} (better : V -> V -> bool) (best : string * V)
    (rest : Py.dict V) :
  Py.first_best better best rest ∈ best :: rest.
Proof.
  revert best. induction rest as [|kv rest IH]; intros best; [by left|].
  cbn [Py.first_best].
  specialize (IH (if better kv.2 best.2 then kv else best)).
  apply elem_of_cons in IH as [->|IH].
  - destruct (better kv.2 best.2); [right; by left|by left].
  - right. by right.
Qed.

Lemma first_min_key_elem {V} (ltb : V -> V -> bool) (tally : Py.dict V) :
  tally <> [] -> first_min_key ltb tally ∈ Py.keys tally.
Proof.
  destruct tally as [|kv rest]; [done|]. intros _. unfold first_min_key.
  apply list_elem_of_fmap. eexists. split; [reflexivity|].
  apply first_best_elem.
Qed.

Lemma keys_nil_inv {V} (d : Py.dict V) : Py.keys d = [] -> d = [].
Proof. by destruct d. Qed.

Lemma get_loser_elem (result : VoteResult) :
  tally_keys result <> [] -> get_loser result ∈ tally_keys result.
Proof.
  destruct result; cbn; intros Hne; apply first_min_key_elem;
    intros ->; by apply Hne.
Qed.

(** The list of names when the first agent bearing a name leaves. *)
Lemma eliminate_agent_found (em : EvolutionManager) (ags : list Agent)
    (loser_name : string) (round_num : Z) (reason : string) :
  loser_name ∈ name <$> ags ->
  exists eliminated ags' em' names_before names_after,
    eliminate_agent em ags loser_name round_num reason
    = (Some eliminated, ags', em')
    /\ name <$> ags = names_before ++ loser_name :: names_after
    /\ (loser_name ∉ names_before)
    /\ name <$> ags' = names_before ++ names_after.
Proof.
  intros Hin. apply list_elem_of_fmap in Hin as (a0 & Hname & Hin).
  destruct (list_find_elem_of (fun a => name a = loser_name) ags a0 Hin
              (eq_sym Hname)) as [[i a] Hfind].
  unfold eliminate_agent. rewrite Hfind.
  apply list_find_Some in Hfind as (Hi & Ha & Hbefore).
  eexists a, (delete i ags), _, (name <$> take i ags),
    (name <$> drop (S i) ags).
  split; [done|]. split.
  { rewrite <- Ha, <- fmap_cons, <- fmap_app. by rewrite take_drop_middle. }
  split.
  { intros Hb. apply list_elem_of_fmap in Hb as (b & Hbn & Hb).
    apply list_elem_of_lookup in Hb as [j Hj].
    pose proof (lookup_lt_Some _ _ _ Hj) as Hlt. rewrite length_take in Hlt.
    rewrite lookup_take_lt in Hj by lia. apply (Hbefore j b); [done|lia|done]. }
  by rewrite delete_take_drop, fmap_app.
Qed.

Lemma eliminate_agent_none (em : EvolutionManager) (loser_name : string)
    (round_num : Z) (reason : string) :
  eliminate_agent em [] loser_name round_num reason = (None, [], em).
Proof. reflexivity. Qed.

Lemma fmap_nil_inv' {A B} (f : A -> B) (l : list A) : f <$> l = [] -> l = [].
Proof. by destruct l. Qed.

Lemma rounds_survived_name (ags : list Agent) :
  name <$> ((fun agent =>
               with_rounds_survived (S (rounds_survived agent)) agent) <$> ags)
  = name <$> ags.
Proof. rewrite <- list_fmap_compose. by apply list_fmap_ext. Qed.

Lemma bind_raise {A B} (m : M A) (f : A -> M B) w e :
  m w = Raise e -> (m ≫= f) w = Raise e.
Proof. unfold mbind, M_bind. by intros ->. Qed.

Lemma vote_summary_ok (verb : bool) (result : VoteResult) (w : World) :
  tally_keys result <> [] ->
  (if verb then get_vote_summary result else mret tt) w = Ok (tt, w).
Proof.
  intros Hne. destruct verb; [|done]. unfold get_vote_summary.
  by destruct (tally_keys result).
Qed.

(** A round over a non-empty population with a known voting method: the
    loser named by the vote is in the population, its first bearer leaves,
    and the round returns with one new agent appended exactly when a
    survivor is left to descend from; otherwise it raises. *)
Lemma run_round_outcome (sim : HungerGamesSimulation) (round_num : Z)
    (question : string) (w : World) :
  known_method (voting_system sim) -> agents sim <> [] ->
  exists names_before loser names_after,
    name <$> agents sim = names_before ++ loser :: names_after
    /\ (loser ∉ names_before)
    /\ (names_before ++ names_after = [] ->
        exists e, run_round sim round_num question w = Raise e)
    /\ (names_before ++ names_after <> [] ->
        exists result sim' w',
          run_round sim round_num question w = Ok (result, sim', w')
          /\ rr_eliminated result = loser
          /\ name <$> agents sim'
             = names_before ++ names_after ++ [rr_evolved result]).
Proof.
  intros Hknown Hne. unfold run_round.
  set (ags0 := (fun agent => with_rounds_survived _ agent) <$> agents sim).
  assert (name <$> ags0 = name <$> agents sim) as Hn0
    by apply rounds_survived_name.
  destruct (collect_answers_total question round_num ags0 [] w)
    as (answers & ags1 & w1 & Hans & Hn1 & Hkeys1).
  destruct (conduct_vote_total (voting_system sim) ags1 question answers
              round_num w1 Hknown)
    as (vr & vs & ags2 & w2 & Hvote & Hn2 & _ & Hin & Htally).
  assert (ags1 <> []) as Hne1.
  { intros ->. rewrite Hn0 in Hn1. symmetry in Hn1.
    by apply fmap_nil_inv' in Hn1. }
  specialize (Htally Hne1).
  assert (get_loser vr ∈ name <$> ags2) as Hloser.
  { rewrite Hn2. destruct (Hin _ (get_loser_elem vr Htally)) as [H|H]; [|done].
    apply Hkeys1 in H as [H|H]; [by apply elem_of_nil in H|].
    by rewrite Hn1. }
  destruct (eliminate_agent_found (evolution_manager sim) ags2 (get_loser vr)
              round_num RECEIVED_FEWEST_VOTES Hloser)
    as (eliminated & ags3 & em & names_before & names_after & Helim & Hshape
        & Hfirst & Hn3).
  exists names_before, (get_loser vr), names_after.
  split; [by rewrite <- Hn0, <- Hn1, <- Hn2|]. split; [done|].
  step Hans. step Hvote. step (vote_summary_ok (verbose sim) vr w2 Htally).
  rewrite Helim. cbn beta iota. split.
  - intros Hnil. rewrite Hnil in Hn3. apply fmap_nil_inv' in Hn3 as ->.
    eexists. apply bind_raise. apply create_evolved_agent_none.
  - intros Hleft.
    destruct (create_evolved_agent_total em ags3 round_num (sim_model sim) w2)
      as (new_agent & em' & w3 & Hnew).
    { intros ->. by apply Hleft. }
    step Hnew. unfold mret, M_ret. eexists _, _, _. split; [reflexivity|].
    split; [done|]. cbn [agents with_population rr_evolved].
    by rewrite fmap_app, Hn3, <- app_assoc.
Qed.

Lemma run_round_no_agents (sim : HungerGamesSimulation) (round_num : Z)
    (question : string) (w : World) :
  agents sim = [] ->
  exists e, run_round sim round_num question w = Raise e.
Proof.
  intros Hnil. unfold run_round. rewrite Hnil. cbn [fmap list_fmap].
  assert (collect_answers question round_num [] [] w
          = Ok (([] : Py.dict string, []), w)) as Hans by reflexivity.
  step Hans.
  destruct (known_method_dec (voting_system sim)) as [Hknown|Hunknown].
  - destruct (conduct_vote_total (voting_system sim) [] question [] round_num
                w Hknown)
      as (vr & vs & ags2 & w2 & Hvote & Hn2 & _ & Hin & _).
    step Hvote. apply fmap_nil_inv' in Hn2 as ->.
    assert (tally_keys vr = []) as Hempty.
    { destruct (tally_keys vr) as [|n rest]; [done|].
      destruct (Hin n) as [H|H]; [by left|by apply elem_of_nil in H..]. }
    destruct (verbose sim).
    + eexists. apply bind_raise. unfold get_vote_summary. by rewrite Hempty.
    + assert ((mret () : M ()) w2 = Ok ((), w2)) as Hret by reflexivity.
      step Hret. rewrite eliminate_agent_none. cbn beta iota.
      eexists. by apply bind_raise.
  - eexists. apply bind_raise. by apply conduct_vote_unknown_method.
Qed.

Lemma run_round_unknown_method (sim : HungerGamesSimulation) (round_num : Z)
    (question : string) (w : World) :
  ~ known_method (voting_system sim) ->
  exists e, run_round sim round_num question w = Raise e.
Proof.
  intros Hunknown. unfold run_round.
  match goal with
  | |- context [collect_answers ?q ?r ?a ?d] =>
      destruct (collect_answers_total q r a d w)
        as (answers & ags1 & w1 & Hans & _)
  end.
  step Hans. eexists. apply bind_raise. by apply conduct_vote_unknown_method.
Qed.


(* =================================================================== *)
(** * Lineage *)
(* =================================================================== *)

Lemma find_parent_Some (all_history : list Agent) (wanted : string)
    (parent : Agent) :
  find_parent all_history wanted = Some parent ->
  parent ∈ all_history /\ name parent = wanted.
Proof.
  unfold find_parent.
  destruct (list_find _ all_history) as [[i a]|] eqn:Hfind; [|done].
  intros [= <-]. apply list_find_Some in Hfind as (Hi & Ha & _).
  split; [|done]. apply list_elem_of_lookup. eauto.
Qed.

Lemma find_parent_None (all_history : list Agent) (wanted : string) :
  find_parent all_history wanted = None -> wanted ∉ name <$> all_history.
Proof.
  unfold find_parent.
  destruct (list_find _ all_history) as [[i a]|] eqn:Hfind; [done|].
  intros _ Hin. apply list_find_None in Hfind.
  apply list_elem_of_fmap in Hin as (a & Hname & Ha).
  rewrite Forall_forall in Hfind. by apply (Hfind a).
Qed.

Lemma lineage_loop_lookups (fuel : nat) (all_history : list Agent)
    (current : Agent) (lineage : list string) :
  (length (lookups fuel all_history current) < fuel)%nat ->
  lineage_loop fuel all_history current lineage
  = Some (lineage ++ lookups fuel all_history current).
Proof.
  revert current lineage.
  induction fuel as [|fuel IH]; intros current lineage Hlen;
    [simpl in Hlen; lia|].
  cbn [lineage_loop lookups] in *.
  destruct (truthy (parent_name current)); [|by rewrite app_nil_r].
  cbn zeta in *.
  destruct (find_parent all_history _) as [parent|]; [|done].
  cbn [length] in Hlen. rewrite IH by lia. by rewrite <- app_assoc.
Qed.

Lemma lookups_stable (n n' : nat) (all_history : list Agent)
    (current : Agent) :
  (length (lookups n all_history current) < n)%nat -> (n <= n')%nat ->
  lookups n' all_history current = lookups n all_history current.
Proof.
  revert n' current. induction n as [|n IH]; intros n' current Hlen Hle;
    [simpl in Hlen; lia|].
  destruct n' as [|n']; [lia|]. cbn [lookups] in *.
  destruct (truthy (parent_name current)); [|done]. cbn zeta in *.
  destruct (find_parent all_history _) as [parent|]; [|done].
  cbn [length] in Hlen. f_equal. apply IH; lia.
Qed.

(** All the names looked up except possibly the last are borne by an
    entry of the roster. *)
Lemma lookups_resolved (n : nat) (all_history : list Agent)
    (current : Agent) :
  lookups n all_history current = []
  \/ exists init final,
       lookups n all_history current = init ++ [final]
       /\ Forall (fun nm => nm ∈ name <$> all_history) init.
Proof.
  revert current. induction n as [|n IH]; intros current; [by left|].
  cbn [lookups]. destruct (truthy (parent_name current)); [|by left].
  cbn zeta. right.
  destruct (find_parent all_history _) as [parent|] eqn:Hfind.
  - apply find_parent_Some in Hfind as [Hin Hname].
    destruct (IH parent) as [->|(init & final & -> & Hinit)].
    + by exists [], (default EmptyString (parent_name current)).
    + exists (default EmptyString (parent_name current) :: init), final.
      split; [done|]. constructor; [|done].
      rewrite <- Hname. by apply list_elem_of_fmap_2.
  - by exists [], (default EmptyString (parent_name current)).
Qed.

Lemma lookups_bounded (n : nat) (all_history : list Agent) (current : Agent) :
  NoDup (lookups n all_history current) ->
  (length (lookups n all_history current) <= S (length all_history))%nat.
Proof.
  intros Hnd.
  destruct (lookups_resolved n all_history current)
    as [->|(init & final & Heq & Hinit)]; [simpl; lia|].
  rewrite Heq in *. apply NoDup_app in Hnd as (Hnd & _ & _).
  rewrite length_app. cbn.
  assert (length init <= length (name <$> all_history))%nat as Hle.
  { apply submseteq_length, NoDup_submseteq; [done|].
    by apply Forall_forall. }
  rewrite length_fmap in Hle. lia.
Qed.

(** Where a finished chain ends: at an agent without a parent, or at a
    name that no roster entry bears. *)
Lemma lookups_end (n : nat) (all_history : list Agent) (current : Agent)
    (oldest : string) :
  (length (lookups n all_history current) < n)%nat ->
  last (name current :: lookups n all_history current) = Some oldest ->
  (exists founder,
     (founder = current \/ founder ∈ all_history)
     /\ truthy (parent_name founder) = false
     /\ name founder = oldest)
  \/ oldest ∉ name <$> all_history.
Proof.
  revert current. induction n as [|n IH]; intros current Hlen Hlast;
    [simpl in Hlen; lia|].
  cbn [lookups] in *.
  destruct (truthy (parent_name current)) eqn:Htruthy.
  - cbn zeta in *. rewrite last_cons_cons in Hlast.
    destruct (find_parent all_history _) as [parent|] eqn:Hfind.
    + pose proof (find_parent_Some _ _ _ Hfind) as [Hin Hname].
      rewrite <- Hname in Hlast. cbn [length] in Hlen.
      destruct (IH parent ltac:(lia) Hlast)
        as [(f & [Hf|Hf] & Hno & Hnm)|Hmiss]; [left..|by right];
        exists f; (split; [right; by subst|done]).
    + injection Hlast as <-. right. by apply find_parent_None.
  - injection Hlast as <-. left. by exists current; auto.
Qed.

(** C10. When the chain of parent-name lookups from an agent through the
    roster has no cycle, [get_lineage] terminates: a number of loop tests
    bounded by the size of the roster is enough, and any larger bound
    gives the same list. The list ends with the agent's own name, and it
    starts with the name of a founder (no parent) or with the first
    ancestor name that no entry of the roster bears. *)
Theorem get_lineage_terminates (agent : Agent) (all_history : list Agent) :
  acyclic all_history agent ->
  exists lineage oldest,
    get_lineage agent all_history = Some lineage
    /\ (forall fuel,
          (S (S (length all_history)) <= fuel)%nat ->
          get_lineage_fuel fuel agent all_history = Some lineage)
    /\ last lineage = Some (name agent)
    /\ head lineage = Some oldest
    /\ ((exists founder,
           (founder = agent \/ founder ∈ all_history)
           /\ truthy (parent_name founder) = false
           /\ name founder = oldest)
        \/ oldest ∉ name <$> all_history).
Proof.
  intros Hacyclic. set (fuel0 := S (S (length all_history))).
  pose proof (lookups_bounded fuel0 all_history agent (Hacyclic fuel0))
    as Hbound.
  assert (length (lookups fuel0 all_history agent) < fuel0)%nat as Hlt.
  { revert Hbound. generalize (length (lookups fuel0 all_history agent)).
    unfold fuel0. lia. }
  set (chain := name agent :: lookups fuel0 all_history agent).
  destruct (last chain) as [oldest|] eqn:Hlast;
    [|by apply last_None in Hlast].
  exists (reverse chain), oldest. split; [|split; [|split; [|split]]].
  - unfold get_lineage, get_lineage_fuel. fold fuel0.
    by rewrite lineage_loop_lookups.
  - intros fuel Hfuel. unfold get_lineage_fuel.
    rewrite lineage_loop_lookups.
    + by rewrite (lookups_stable fuel0 fuel).
    + rewrite (lookups_stable fuel0 fuel) by done. lia.
  - by rewrite last_reverse.
  - by rewrite head_reverse.
  - by apply (lookups_end fuel0 all_history agent oldest).
Qed.

(* =================================================================== *)
(** * The generator client *)
(* =================================================================== *)

(** [generate] never raises and counts every call. A call either comes
    back from a 200 response with the stripped response text and no
    failure counted, or it counts one failure and returns a text that
    starts with "[Error:". The random source and the clock are not
    touched. *)
Theorem generate_counts_and_marks_failures (prompt mdl : string) (w : World) :
  exists reply w',
    generate prompt mdl w = Ok (reply, w')
    /\ total_requests w' = S (total_requests w)
    /\ rand_draws w' = rand_draws w
    /\ clock_reads w' = clock_reads w
    /\ ((failed_requests w' = failed_requests w
         /\ exists response text,
              ollama env (total_requests w) prompt mdl
              = HttpResponse 200 response text
              /\ reply = Py.strip (default EmptyString response))
        \/ (failed_requests w' = S (failed_requests w)
            /\ Py.startswith reply ERROR_PREFIX = true)).
Proof.
  unfold generate.
  destruct (ollama env (total_requests w) prompt mdl) as [st r t| |msg] eqn:E.
  - destruct (Nat.eqb_spec st 200) as [->|Hne].
    + eexists _, _. split; [reflexivity|]. repeat split. left.
      split; [done|]. by exists r, t.
    + eexists _, _. split; [reflexivity|]. repeat split. by right.
  - eexists _, _. split; [reflexivity|]. repeat split. by right.
  - eexists _, _. split; [reflexivity|]. repeat split. by right.
Qed.




(* =================================================================== *)
(** * Strings *)
(* =================================================================== *)

Lemma length_append (s t : string) :
  String.length (s +:+ t) = (String.length s + String.length t)%nat.
Proof. induction s as [|c s IH]; simpl; [done|]. by rewrite IH. Qed.

Lemma append_longer (s t : string) : t <> EmptyString -> s +:+ t <> s.
Proof.
  intros Ht E. apply (f_equal String.length) in E.
  rewrite length_append in E. destruct t; [done|]. simpl in E. lia.
Qed.

Lemma prefix_append (s t : string) : Py.startswith (s +:+ t) s = true.
Proof.
  unfold Py.startswith. induction s as [|c s IH]; simpl.
  - by destruct t.
  - destruct (ascii_dec c c); [done|congruence].
Qed.

Lemma length_lstrip (s : string) :
  (String.length (Py.lstrip s) <= String.length s)%nat.
Proof.
  induction s as [|c s IH]; simpl; [done|].
  destruct (Py.isspace c); simpl; lia.
Qed.

Lemma length_rstrip (s : string) :
  (String.length (Py.rstrip s) <= String.length s)%nat.
Proof.
  induction s as [|c s IH]; simpl; [done|].
  destruct (Py.rstrip s); [destruct (Py.isspace c)|]; simpl in *; lia.
Qed.

Lemma stripped_head (c : ascii) (s : string) :
  stripped (String c s) -> Py.isspace c = false.
Proof.
  unfold stripped, Py.strip. intros E.
  destruct (Py.isspace c) eqn:Hc; [|done]. exfalso.
  apply (f_equal String.length) in E. cbn [Py.lstrip] in E. rewrite Hc in E.
  pose proof (length_rstrip (Py.lstrip s)). pose proof (length_lstrip s).
  simpl in E. lia.
Qed.

Lemma stripped_rstrip (s : string) : stripped s -> Py.rstrip s = s.
Proof.
  destruct s as [|c s]; [done|]. intros Hs.
  pose proof (stripped_head c s Hs) as Hc. unfold stripped, Py.strip in Hs.
  cbn [Py.lstrip] in Hs. by rewrite Hc in Hs.
Qed.

Lemma lstrip_head (c : ascii) (s : string) :
  Py.isspace c = false -> Py.lstrip (String c s) = String c s.
Proof. intros Hc. simpl. by rewrite Hc. Qed.

Lemma rstrip_append (x t : string) :
  Py.rstrip t = t -> t <> EmptyString -> Py.rstrip (x +:+ t) = x +:+ t.
Proof.
  intros Ht Hne. induction x as [|c x IH]; [done|].
  change (Py.rstrip (String c (x +:+ t)) = String c (x +:+ t)).
  cbn [Py.rstrip]. rewrite IH.
  destruct (x +:+ t) eqn:E; [|done].
  apply (f_equal String.length) in E. rewrite length_append in E.
  destruct t; [done|]. simpl in E. lia.
Qed.

Lemma split1_append (c : ascii) (s t : string) :
  Py.contains c s = false ->
  Py.split1 c (s +:+ String c t) = (s, Some t).
Proof.
  induction s as [|d s IH]; simpl.
  - intros _. by rewrite Ascii.eqb_refl.
  - intros H. apply orb_false_iff in H as [Hd Hs]. rewrite Hd.
    by rewrite IH.
Qed.

(** A reply in the format the voting prompt asks for, a name on the first
    line and a justification below it, is parsed into exactly that name
    and that justification. *)
Lemma parse_vote_two_lines (nm js : string) :
  nm <> EmptyString -> one_line nm -> stripped nm ->
  js <> EmptyString -> stripped js ->
  parse_vote (nm +:+ Py.nl +:+ js) = (nm, js).
Proof.
  intros Hnm Hline Hsn Hjs Hsj. unfold parse_vote.
  change (nm +:+ Py.nl +:+ js) with (nm +:+ String (Py.chr 10) js).
  assert (Py.strip (nm +:+ String (Py.chr 10) js)
          = nm +:+ String (Py.chr 10) js) as ->.
  { unfold Py.strip. destruct nm as [|c nm]; [done|].
    change (String c nm +:+ String (Py.chr 10) js)
      with (String c (nm +:+ String (Py.chr 10) js)).
    rewrite lstrip_head by (by eapply stripped_head).
    change (String c (nm +:+ String (Py.chr 10) js))
      with (String c nm +:+ String (Py.chr 10) js).
    apply rstrip_append; [|done].
    cbn [Py.rstrip]. rewrite (stripped_rstrip js Hsj). by destruct js. }
  rewrite split1_append by done. by rewrite Hsn, Hsj.
Qed.

(* =================================================================== *)
(** * More on one agent *)
(* =================================================================== *)

(** The run of [vote_on_answers] on a non-empty candidate set, step by
    step. *)
Lemma vote_on_answers_run (self : Agent) (question : string)
    (answers : Py.dict string) (round_num : Z) (allow : bool) (w : World) :
  available_answers (name self) allow answers <> [] ->
  exists reply failed voted justif w2,
    generate
      (voting_prompt self question
         (available_answers (name self) allow answers))
      (model self) w = Ok (reply, count_request failed w)
    /\ validate_vote (available_answers (name self) allow answers)
         (parse_vote reply) (count_request failed w)
       = Ok (voted, justif, w2)
    /\ vote_on_answers self question answers round_num allow w
       = Ok (voted, justif,
             with_votes_cast (S (votes_cast self))
               (with_memory
                  (remember
                     {| m_type := "vote";
                        m_content :=
                          "Voted for " +:+ voted +:+ ": " +:+ justif;
                        m_round := round_num;
                        m_timestamp := clock env (clock_reads w2) |}
                     (memory self)) self),
             tick w2).
Proof.
  intros Hne. unfold vote_on_answers.
  set (available := available_answers (name self) allow answers) in *.
  destruct (generate_returns (voting_prompt self question available)
              (model self) w) as (reply & failed & Hgen).
  destruct (validate_vote_spec available (parse_vote reply)
              (count_request failed w) Hne)
    as (voted & justif & w2 & Hval & _).
  exists reply, failed, voted, justif, w2. split; [done|]. split; [done|].
  destruct available as [|kv rest]; [done|].
  rewrite (bind_ok _ _ _ _ _ Hgen), (bind_ok _ _ _ _ _ Hval).
  by rewrite (bind_ok _ _ _ _ _ (add_memory_run _ _ _ _ _)).
Qed.

Lemma available_excludes_self (self_name : string)
    (answers : Py.dict string) :
  self_name ∉ Py.keys (available_answers self_name false answers).
Proof.
  unfold available_answers, Py.filter_keys, Py.keys.
  intros Hin. apply list_elem_of_fmap in Hin as ([k v] & -> & Hin).
  apply list_elem_of_In, filter_In in Hin as [_ Hkeep].
  simpl in Hkeep. by rewrite String.eqb_refl in Hkeep.
Qed.

(** With self-voting disallowed, an agent that has any other candidate
    never votes for itself, whatever the model replies and whatever the
    random source draws. *)
Theorem vote_never_for_self (self : Agent) (question : string)
    (answers : Py.dict string) (round_num : Z) (w : World) :
  available_answers (name self) false answers <> [] ->
  exists voted justif self' w',
    vote_on_answers self question answers round_num false w
    = Ok (voted, justif, self', w')
    /\ voted <> name self.
Proof.
  intros Hne.
  destruct (vote_on_answers_run self question answers round_num false w Hne)
    as (reply & failed & voted & justif & w2 & _ & Hval & Hrun).
  eexists _, _, _, _. split; [exact Hrun|].
  destruct (validate_vote_spec _ (parse_vote reply) (count_request failed w)
              Hne) as (voted' & justif' & w2' & Hval' & Hin & _).
  rewrite Hval in Hval'. injection Hval' as <- <- <-.
  intros ->. by apply (available_excludes_self (name self) answers).
Qed.

(** A well-formed reply is honoured: when the generator answers the
    voting prompt with status 200 and a text made of a candidate's name on
    the first line and a justification below it, [vote_on_answers]
    returns exactly that name and that justification, and draws nothing
    from the random source. *)
Theorem well_formed_vote_is_honoured (self : Agent) (question : string)
    (answers : Py.dict string) (round_num : Z) (allow : bool) (w : World)
    (nm js text : string) :
  ollama env (total_requests w)
    (voting_prompt self question
       (available_answers (name self) allow answers))
    (model self)
  = HttpResponse 200 (Some (nm +:+ Py.nl +:+ js)) text ->
  nm ∈ Py.keys (available_answers (name self) allow answers) ->
  nm <> EmptyString -> one_line nm -> stripped nm ->
  js <> EmptyString -> stripped js ->
  exists self' w',
    vote_on_answers self question answers round_num allow w
    = Ok (nm, js, self', w')
    /\ rand_draws w' = rand_draws w
    /\ total_requests w' = S (total_requests w).
Proof.
  intros Hreply Hin Hnm Hline Hsn Hjs Hsj.
  assert (available_answers (name self) allow answers <> []) as Hne.
  { intros E. rewrite E in Hin. by apply elem_of_nil in Hin. }
  destruct (vote_on_answers_run self question answers round_num allow w Hne)
    as (reply & failed & voted & justif & w2 & Hgen & Hval & Hrun).
  assert (generate
            (voting_prompt self question
               (available_answers (name self) allow answers))
            (model self) w
          = Ok (Py.strip (nm +:+ Py.nl +:+ js), count_request false w))
    as Hgen' by (unfold generate; by rewrite Hreply).
  assert (reply = Py.strip (nm +:+ Py.nl +:+ js)) as -> by congruence.
  assert (Py.strip (nm +:+ Py.nl +:+ js) = nm +:+ Py.nl +:+ js) as Hstrip.
  { change (nm +:+ Py.nl +:+ js) with (nm +:+ String (Py.chr 10) js).
    unfold Py.strip. destruct nm as [|c nm]; [done|].
    change (String c nm +:+ String (Py.chr 10) js)
      with (String c (nm +:+ String (Py.chr 10) js)).
    rewrite lstrip_head by (by eapply stripped_head).
    change (String c (nm +:+ String (Py.chr 10) js))
      with (String c nm +:+ String (Py.chr 10) js).
    apply rstrip_append; [|done].
    cbn [Py.rstrip]. rewrite (stripped_rstrip js Hsj). by destruct js. }
  rewrite Hstrip, parse_vote_two_lines in Hval by done.
  unfold validate_vote in Hval. cbn [fst] in Hval.
  apply mem_keys in Hin. rewrite Hin in Hval. cbn in Hval.
  injection Hval as <- <- <-. eexists _, _. split; [exact Hrun|]. done.
Qed.

(** With a cap of at least 1, every single insertion leaves the buffer
    within the cap, with the entry just inserted in last position and the
    entries kept being the most recent ones in their order. *)
Theorem add_memory_stays_within_cap (self : Agent)
    (memory_type content : string) (round_num : Z) (w : World) :
  1 <= MAX_MEMORY_SIZE cfg ->
  exists self' w' entry,
    add_memory self memory_type content round_num w = Ok (self', w')
    /\ entry = {| m_type := memory_type; m_content := content;
                  m_round := round_num;
                  m_timestamp := clock env (clock_reads w) |}
    /\ length (memory self')
       = Nat.min (S (length (memory self))) (Z.to_nat (MAX_MEMORY_SIZE cfg))
    /\ last (memory self') = Some entry
    /\ memory self' `suffix_of` memory self ++ [entry].
Proof.
  intros Hcap. rewrite add_memory_run. eexists _, _, _.
  split; [reflexivity|]. split; [reflexivity|]. cbn [memory with_memory].
  rewrite remember_drop by lia. rewrite length_app. cbn [length].
  set (k := Z.to_nat (MAX_MEMORY_SIZE cfg)).
  set (n := (length (memory self) + 1 - k)%nat).
  assert (n <= length (memory self))%nat as Hn by (unfold n, k; lia).
  split; [rewrite length_drop, length_app; cbn [length]; unfold n; lia|].
  split.
  - rewrite drop_app_le by done. apply last_snoc.
  - apply suffix_drop.
Qed.

(** With a cap of 0 nothing is ever evicted, because [memory[-0:]] is the
    whole list; a negative cap [-j] drops the [j] oldest entries at every
    insertion. *)
Theorem add_memory_nonpositive_cap (self : Agent)
    (memory_type content : string) (round_num : Z) (w : World) :
  MAX_MEMORY_SIZE cfg <= 0 ->
  exists self' w',
    add_memory self memory_type content round_num w = Ok (self', w')
    /\ memory self'
       = drop (Z.to_nat (- MAX_MEMORY_SIZE cfg))
           (memory self
              ++ [{| m_type := memory_type; m_content := content;
                     m_round := round_num;
                     m_timestamp := clock env (clock_reads w) |}]).
Proof.
  intros Hcap. rewrite add_memory_run. eexists _, _.
  split; [reflexivity|]. cbn [memory with_memory].
  unfold remember, Py.slice_from.
  set (l := memory self ++ _).
  assert (0 < length l)%nat as Hl by (unfold l; rewrite length_app; cbn; lia).
  destruct (Z.gtb_spec (Z.of_nat (length l)) (MAX_MEMORY_SIZE cfg)); [|lia].
  destruct (Z.ltb_spec (- MAX_MEMORY_SIZE cfg) 0); [lia|].
  destruct (Z.min_spec (- MAX_MEMORY_SIZE cfg) (Z.of_nat (length l)))
    as [[_ ->]|[Hge ->]]; [done|].
  rewrite Nat2Z.id, !drop_ge by lia. done.
Qed.

(* =================================================================== *)
(** * Mutation *)
(* =================================================================== *)

Lemma random_random_below_one (w : World) :
  exists u w',
    random_random w = Ok (u, w') /\ (u < 1)%Q
    /\ total_requests w' = total_requests w.
Proof.
  unfold random_random, draw, mbind, M_bind, mret, M_ret.
  eexists _, _. split; [reflexivity|]. split; [|done].
  unfold Qlt. cbn [Qnum Qden].
  pose proof (N.mod_upper_bound (entropy env (rand_draws w)) (2 ^ 53)%N
                ltac:(done)) as Hlt.
  apply N2Z.inj_lt in Hlt. rewrite Z.mul_1_r, Z.mul_1_l.
  exact Hlt.
Qed.

Lemma below_sure (u rate : Q) : (u < 1)%Q -> (1 <= rate)%Q -> below u rate = true.
Proof.
  intros Hu Hrate. unfold below. apply negb_true_iff.
  destruct (Qle_bool rate u) eqn:E; [|done].
  apply Qle_bool_iff in E. exfalso.
  apply (Qlt_not_le u 1 Hu). by apply (Qle_trans _ rate).
Qed.

Lemma below_never (u rate : Q) : (0 <= u)%Q -> (rate <= 0)%Q -> below u rate = false.
Proof.
  intros Hu Hrate. unfold below. apply negb_false_iff, Qle_bool_iff.
  by apply (Qle_trans _ 0).
Qed.

Lemma random_random_nonneg (w : World) :
  exists u w', random_random w = Ok (u, w') /\ (0 <= u)%Q.
Proof.
  unfold random_random, draw, mbind, M_bind, mret, M_ret.
  eexists _, _. split; [reflexivity|].
  unfold Qle. cbn [Qnum Qden]. rewrite Z.mul_0_l, Z.mul_1_r.
  apply N2Z.is_nonneg.
Qed.

(** [mutate] with a rate of 1 or more always returns the description
    extended by a mutation note, so a different text that starts with the
    description; with a rate of 0 or less it returns the description
    itself. *)
Theorem mutate_rate_extremes (self : Agent) (traits : list string)
    (rate : Q) (w : World) :
  ((1 <= rate)%Q ->
   exists prompt w',
     mutate self traits rate w = Ok (prompt, w')
     /\ Py.startswith prompt (personality_prompt self) = true
     /\ prompt <> personality_prompt self)
  /\ ((rate <= 0)%Q ->
      exists w', mutate self traits rate w = Ok (personality_prompt self, w')).
Proof.
  unfold mutate. split; intros Hrate.
  - destruct (random_random_below_one w) as (u & w1 & Hu & Hlt & _).
    step Hu. rewrite (below_sure u rate Hlt Hrate).
    destruct (randint_total 1 2 w1) as (n & w2 & Hn). step Hn.
    destruct (random_sample_total traits (Nat.min n (length traits)) w2)
      as (sample & w3 & Hs); [lia|].
    step Hs. unfold mret, M_ret. eexists _, _. split; [reflexivity|].
    split; [apply prefix_append|]. by apply append_longer.
  - destruct (random_random_nonneg w) as (u & w1 & Hu & Hge).
    step Hu. rewrite (below_never u rate Hge Hrate).
    unfold mret, M_ret. eauto.
Qed.

(** The description [_evolve_personality] gives a child always differs
    from its parent's: it is the parent's description followed by a
    non-empty note, on the mutating branch and on the other. *)
Theorem evolve_personality_always_differs (em : EvolutionManager)
    (parent : Agent) (w : World) :
  exists personality w',
    _evolve_personality em parent w = Ok (personality, w')
    /\ Py.startswith personality (personality_prompt parent) = true
    /\ personality <> personality_prompt parent.
Proof.
  unfold _evolve_personality.
  destruct (random_random_below_one w) as (u & w1 & Hu & _ & Hreq).
  step Hu.
  destruct (below u (mutation_rate em)).
  - destruct (randint_total 1 3 w1) as (n & w2 & Hn). step Hn.
    destruct (random_sample_total (mutation_traits em)
                (Nat.min n (length (mutation_traits em))) w2)
      as (sample & w3 & Hs); [lia|].
    step Hs. unfold mret, M_ret. eexists _, _. split; [reflexivity|].
    split; [apply prefix_append|]. by apply append_longer.
  - unfold mret, M_ret. eexists _, _. split; [reflexivity|].
    split; [apply prefix_append|]. by apply append_longer.
Qed.

(* =================================================================== *)
(** * More on tallies *)
(* =================================================================== *)

Lemma ballots_counted_set (votes : Py.dict nat) (k : string) :
  ballots_counted (Py.set votes k (Py.get_default 0%nat votes k + 1)%nat)
  = S (ballots_counted votes).
Proof.
  unfold ballots_counted, Py.get_default.
  induction votes as [|[k' v'] votes IH]; [done|].
  cbn [Py.set Py.get].
  destruct (String.eqb_spec k' k) as [->|Hne];
    rewrite !fmap_cons; cbn [foldr snd]; [lia|].
  rewrite IH. lia.
Qed.

Lemma vote_on_answers_frame (self : Agent) (question : string)
    (answers : Py.dict string) (round_num : Z) (allow : bool) (w : World) :
  exists voted justif self' w',
    vote_on_answers self question answers round_num allow w
    = Ok (voted, justif, self', w')
    /\ settled self' = settled self
    /\ votes_received self' = votes_received self.
Proof.
  destruct (available_answers (name self) allow answers) as [|kv rest] eqn:Hav.
  - rewrite (vote_without_candidates _ _ _ _ _ _ Hav).
    eexists _, _, _, _. split; [reflexivity|]. done.
  - destruct (vote_on_answers_run self question answers round_num allow w)
      as (reply & failed & voted & justif & w2 & _ & _ & Hrun);
      [by rewrite Hav|].
    eexists _, _, _, _. split; [exact Hrun|]. done.
Qed.

(** The ledger of the single-choice loop: one ballot per agent, in
    population order, each counted once; the agents only change in what a
    vote touches. *)
Lemma collect_votes_ledger (allow : bool) (question : string)
    (answers : Py.dict string) (round_num : Z) (ags : list Agent)
    (b : Ballots) (w : World) :
  exists b' ags' w',
    collect_votes allow question answers round_num ags b w
    = Ok (b', ags', w')
    /\ settled <$> ags' = settled <$> ags
    /\ votes_received <$> ags' = votes_received <$> ags
    /\ ballots_counted (b_votes b')
       = (ballots_counted (b_votes b) + length ags)%nat
    /\ voter <$> b_vote_details b'
       = (voter <$> b_vote_details b) ++ (name <$> ags).
Proof.
  revert b w. induction ags as [|agent rest IH]; intros b w.
  - exists b, [], w. cbn. rewrite app_nil_r, Nat.add_0_r. done.
  - cbn [collect_votes].
    destruct (vote_on_answers_frame agent question answers round_num allow w)
      as (voted & justif & agent' & w1 & Hvote & Hsettled & Hrecv).
    step Hvote.
    destruct (IH (count_ballot b (name agent) voted justif) w1)
      as (b' & rest' & w' & Hrun & Hs & Hr & Hcount & Hvoters).
    step Hrun. unfold mret, M_ret. eexists _, _, _. split; [reflexivity|].
    split; [by rewrite !fmap_cons, Hsettled, Hs|].
    split; [by rewrite !fmap_cons, Hrecv, Hr|]. split.
    + rewrite Hcount. cbn [count_ballot b_votes length].
      rewrite ballots_counted_set. lia.
    + rewrite Hvoters. cbn [count_ballot b_vote_details].
      rewrite fmap_app, fmap_cons, <- app_assoc. done.
Qed.

(** In single-choice voting every agent casts exactly one ballot: the
    ballots are listed by voter in population order, the counts of the
    tally add up to the number of agents, and that number is the
    [total_votes] of the result. *)
Theorem single_choice_counts_every_ballot (vs : VotingSystem)
    (ags : list Agent) (question : string) (answers : Py.dict string)
    (round_num : Z) (w : World) :
  exists votes details justifs vs' ags' w',
    _single_choice_vote vs ags question answers round_num w
    = Ok (SingleChoice round_num question votes details justifs (length ags),
          vs', ags', w')
    /\ voter <$> details = name <$> ags
    /\ ballots_counted votes = length ags
    /\ vote_history vs'
       = vote_history vs
         ++ [SingleChoice round_num question votes details justifs
               (length ags)].
Proof.
  unfold _single_choice_vote.
  destruct (collect_votes_ledger (allow_self_voting vs) question answers
              round_num ags no_ballots w)
    as (b & ags1 & w' & Hrun & _ & _ & Hcount & Hvoters).
  step Hrun. unfold mret, M_ret. eexists _, _, _, _, _, _.
  split; [reflexivity|]. split; [done|]. split; [done|]. done.
Qed.

Lemma fmap_combine {A B C D} (f : A -> B) (g : A -> C) (h : B -> C -> D)
    (l1 l2 : list A) :
  f <$> l1 = f <$> l2 -> g <$> l1 = g <$> l2 ->
  (fun a => h (f a) (g a)) <$> l1 = (fun a => h (f a) (g a)) <$> l2.
Proof.
  revert l2. induction l1 as [|a1 l1 IH]; intros [|a2 l2] Hf Hg; try done.
  rewrite !fmap_cons in *. injection Hf as Hf1 Hf. injection Hg as Hg1 Hg.
  rewrite Hf1, Hg1. f_equal. by apply IH.
Qed.

Lemma settled_names (l1 l2 : list Agent) :
  settled <$> l1 = settled <$> l2 -> name <$> l1 = name <$> l2.
Proof.
  intros H. apply (f_equal (fmap name)) in H.
  by rewrite <- !list_fmap_compose in H.
Qed.

Lemma credit_votes_effect (votes : Py.dict nat) (a : Agent) :
  settled (credit_votes votes a) = settled a
  /\ votes_received (credit_votes votes a)
     = (votes_received a + Py.get_default 0%nat votes (name a))%nat.
Proof.
  unfold credit_votes, Py.mem, Py.get_default.
  destruct (Py.get votes (name a)); [done|]. split; [done|]. lia.
Qed.

(** What a conducted vote does to the agents and to the voting system.
    Nothing but the memory, the votes cast and the votes received of an
    agent ever changes. Single-choice credits every agent with the count
    the tally holds under its name (nothing when it has no entry);
    ranked-choice gives the agents back exactly as they were, so it never
    credits a vote received. The result is appended to the vote history. *)
Theorem conduct_vote_effects (vs : VotingSystem) (ags : list Agent)
    (question : string) (answers : Py.dict string) (round_num : Z)
    (w : World) (result : VoteResult) (vs' : VotingSystem)
    (ags' : list Agent) (w' : World) :
  conduct_vote vs ags question answers round_num w
  = Ok (result, vs', ags', w') ->
  settled <$> ags' = settled <$> ags
  /\ match result with
     | SingleChoice _ _ votes _ _ _ =>
         votes_received <$> ags'
         = (fun a => votes_received a
                     + Py.get_default 0%nat votes (name a))%nat <$> ags
     | RankedChoice _ _ _ _ _ => ags' = ags
     end
  /\ vote_history vs' = vote_history vs ++ [result]
  /\ method vs' = method vs
  /\ allow_self_voting vs' = allow_self_voting vs.
Proof.
  unfold conduct_vote.
  destruct (String.eqb_spec (method vs) "single-choice") as [_|_].
  - unfold _single_choice_vote.
    destruct (collect_votes_ledger (allow_self_voting vs) question answers
                round_num ags no_ballots w)
      as (b & ags1 & w1 & Hrun & Hs & Hr & _).
    step Hrun. unfold mret, M_ret. intros [= <- <- <- <-].
    split; [|split; [|done]].
    + rewrite <- Hs, <- !list_fmap_compose. apply list_fmap_ext.
      intros _ a _. cbn. apply credit_votes_effect.
    + rewrite <- !list_fmap_compose.
      transitivity ((fun a => votes_received a
                              + Py.get_default 0%nat (b_votes b) (name a))%nat
                      <$> ags1).
      { apply list_fmap_ext. intros _ a _. cbn. apply credit_votes_effect. }
      apply (fmap_combine votes_received name
               (fun r n => (r + Py.get_default 0%nat (b_votes b) n)%nat));
        [done|].
      by apply settled_names.
  - destruct (String.eqb_spec (method vs) "ranked-choice") as [_|_];
      [|done].
    unfold _ranked_choice_vote.
    destruct (collect_rankings_total vs question answers round_num ags w)
      as (details & w1 & Hrun & _).
    step Hrun. unfold mret, M_ret. by intros [= <- <- <- <-].
Qed.

(* =================================================================== *)
(** * Losers and winners *)
(* =================================================================== *)

(** [first_best] over scores compared through [val]: the item it picks
    splits the list so that everything before it is strictly worse and
    everything after it is no better. *)
Lemma first_best_split {V} (val : V -> Z) (better : V -> V -> bool)
    (pre mid : Py.dict V) (best : string * V) (rest : Py.dict V) :
  (forall a b, better a b = (val a <? val b)) ->
  Forall (fun kv => val best.2 < val kv.2) pre ->
  Forall (fun kv => val best.2 <= val kv.2) mid ->
  exists l1 l2,
    pre ++ best :: mid ++ rest = l1 ++ Py.first_best better best rest :: l2
    /\ Forall (fun kv => val (Py.first_best better best rest).2 < val kv.2) l1
    /\ Forall (fun kv => val (Py.first_best better best rest).2 <= val kv.2)
         l2.
Proof.
  intros Hbetter. revert pre mid best.
  induction rest as [|kv rest IH]; intros pre mid best Hpre Hmid.
  - exists pre, mid. by rewrite app_nil_r.
  - cbn [Py.first_best]. rewrite Hbetter.
    destruct (Z.ltb_spec (val kv.2) (val best.2)) as [Hlt|Hge].
    + destruct (IH (pre ++ best :: mid) [] kv) as (l1 & l2 & Heq & H1 & H2).
      * apply Forall_app. split; [|constructor].
        -- eapply Forall_impl; [exact Hpre|]. cbn. intros; lia.
        -- lia.
        -- eapply Forall_impl; [exact Hmid|]. cbn. intros; lia.
      * constructor.
      * exists l1, l2. split; [|done]. rewrite <- Heq.
        by rewrite <- app_assoc.
    + destruct (IH pre (mid ++ [kv]) best) as (l1 & l2 & Heq & H1 & H2).
      * done.
      * apply Forall_app. split; [done|]. by constructor.
      * exists l1, l2. split; [|done]. rewrite <- Heq.
        by rewrite <- app_assoc.
Qed.

Lemma first_min_key_split {V} (val : V -> Z) (better : V -> V -> bool)
    (tally : Py.dict V) :
  (forall a b, better a b = (val a <? val b)) ->
  tally <> [] ->
  exists l1 v l2,
    tally = l1 ++ (first_min_key better tally, v) :: l2
    /\ Forall (fun kv => val v < val kv.2) l1
    /\ Forall (fun kv => val v <= val kv.2) l2.
Proof.
  intros Hbetter Hne. destruct tally as [|kv rest]; [done|].
  destruct (first_best_split val better [] [] kv rest Hbetter)
    as (l1 & l2 & Heq & H1 & H2); [constructor..|].
  cbn [first_min_key]. cbn in Heq.
  destruct (Py.first_best better kv rest) as [k v] eqn:E.
  by exists l1, v, l2.
Qed.

Lemma Forall_scores {P : Z -> Prop} (l : Py.dict nat) :
  Forall (fun kv => P (Z.of_nat kv.2)) l ->
  Forall (fun kv => P kv.2) (prod_map id Z.of_nat <$> l).
Proof.
  intros H. apply Forall_fmap. eapply Forall_impl; [exact H|].
  by intros [k v].
Qed.

(** [get_loser] names the first item of the tally, in the order of the
    dictionary, whose score is minimal: every item before it has a
    strictly larger score and no item after it has a smaller one. On an
    empty tally it returns the empty string. *)
Theorem get_loser_first_minimum (result : VoteResult) :
  (tally_items result = [] -> get_loser result = EmptyString)
  /\ (tally_items result <> [] ->
      exists l1 v l2,
        tally_items result = l1 ++ (get_loser result, v) :: l2
        /\ Forall (fun kv => v < kv.2) l1
        /\ Forall (fun kv => v <= kv.2) l2).
Proof.
  destruct result as [r q votes details justifs total|r q points details total];
    cbn [tally_items get_loser].
  - split.
    + intros E. apply fmap_nil_inv' in E. by rewrite E.
    + intros Hne.
      destruct (first_min_key_split Z.of_nat Nat.ltb votes)
        as (l1 & v & l2 & Heq & H1 & H2).
      * intros a b. destruct (Nat.ltb_spec a b), (Z.ltb_spec (Z.of_nat a)
          (Z.of_nat b)); try done; lia.
      * intros ->. by apply Hne.
      * exists (prod_map id Z.of_nat <$> l1), (Z.of_nat v),
          (prod_map id Z.of_nat <$> l2).
        split; [|split; by apply Forall_scores].
        rewrite Heq at 1. by rewrite fmap_app, fmap_cons.
  - split; [by intros ->|]. intros Hne.
    apply (first_min_key_split id Z.ltb points); [done|done].
Qed.

(** [get_winner] names the first item of the tally whose score is
    maximal: every item before it has a strictly smaller score and no item
    after it has a larger one. On an empty tally it returns the empty
    string. *)
Theorem get_winner_first_maximum (result : VoteResult) :
  (tally_items result = [] -> get_winner result = EmptyString)
  /\ (tally_items result <> [] ->
      exists l1 v l2,
        tally_items result = l1 ++ (get_winner result, v) :: l2
        /\ Forall (fun kv => kv.2 < v) l1
        /\ Forall (fun kv => kv.2 <= v) l2).
Proof.
  destruct result as [r q votes details justifs total|r q points details total];
    cbn [tally_items get_winner].
  - split.
    + intros E. apply fmap_nil_inv' in E. by rewrite E.
    + intros Hne.
      destruct (first_min_key_split (fun n => - Z.of_nat n)
                  (fun a b => Nat.ltb b a) votes)
        as (l1 & v & l2 & Heq & H1 & H2).
      * intros a b. destruct (Nat.ltb_spec b a), (Z.ltb_spec (- Z.of_nat a)
          (- Z.of_nat b)); try done; lia.
      * intros ->. by apply Hne.
      * exists (prod_map id Z.of_nat <$> l1), (Z.of_nat v),
          (prod_map id Z.of_nat <$> l2).
        split; [by rewrite Heq at 1; rewrite fmap_app, fmap_cons|].
        split.
        -- apply (Forall_scores (P := fun z => z < Z.of_nat v)).
           eapply Forall_impl; [exact H1|]. cbn. intros; lia.
        -- apply (Forall_scores (P := fun z => z <= Z.of_nat v)).
           eapply Forall_impl; [exact H2|]. cbn. intros; lia.
  - split; [by intros ->|]. intros Hne.
    destruct (first_min_key_split (fun z => - z) (fun a b => Z.ltb b a) points)
      as (l1 & v & l2 & Heq & H1 & H2).
    + intros a b. destruct (Z.ltb_spec b a), (Z.ltb_spec (- a) (- b));
        try done; lia.
    + done.
    + exists l1, v, l2. split; [done|]. split.
      * eapply Forall_impl; [exact H1|]. cbn. intros; lia.
      * eapply Forall_impl; [exact H2|]. cbn. intros; lia.
Qed.

(* =================================================================== *)
(** * Rankings *)
(* =================================================================== *)

Lemma insert_Permutation {A} (l : list A) (j : nat) (a x : A) :
  l !! j = Some x -> x :: <[j := a]> l ≡ₚ a :: l.
Proof.
  revert j. induction l as [|b l IH]; intros [|j] Hj; try done.
  - injection Hj as ->. cbn. apply Permutation_swap.
  - cbn in Hj |- *.
    etransitivity; [apply Permutation_swap|].
    etransitivity; [apply Permutation_skip, (IH j Hj)|].
    apply Permutation_swap.
Qed.

Lemma swap_Permutation {A} (i j : nat) (x : list A) : swap i j x ≡ₚ x.
Proof.
  unfold swap. destruct (x !! i) as [xi|] eqn:Hi; [|done].
  destruct (x !! j) as [xj|] eqn:Hj; [|done].
  revert i j Hi Hj. induction x as [|a x IH]; intros [|i] [|j] Hi Hj;
    try done.
  - injection Hi as ->. injection Hj as ->. done.
  - injection Hi as ->. cbn in Hj |- *. by apply insert_Permutation.
  - injection Hj as ->. cbn in Hi |- *.
    by apply insert_Permutation.
  - cbn in Hi, Hj |- *. apply Permutation_skip. by apply IH.
Qed.

Lemma shuffle_from_Permutation {A} (i : nat) (x : list A) (w : World) :
  exists x' w',
    shuffle_from i x w = Ok (x', w')
    /\ x' ≡ₚ x
    /\ total_requests w' = total_requests w.
Proof.
  revert x w. induction i as [|i IH]; intros x w.
  - by exists x, w.
  - cbn [shuffle_from].
    destruct (randbelow_lt (S (S i)) w) as (j & w1 & Hr & _ & Hreq); [done|].
    step Hr.
    destruct (IH (swap (S i) j x) w1) as (x' & w' & Hrun & Hperm & Hreq').
    step Hrun. unfold mret, M_ret. exists x', w'. split; [done|].
    split; [|congruence]. rewrite Hperm. apply swap_Permutation.
Qed.

(** What [_get_agent_rankings] returns. Without a candidate it is the
    voter's own name alone, and no request is made. With candidates one
    request is made and the ranking is never empty and names candidates
    only: it is what could be parsed, or, when nothing could be parsed, a
    permutation of all the candidates (each exactly once) with the fixed
    failure text as justification. *)
Theorem get_agent_rankings_shape (vs : VotingSystem) (agent : Agent)
    (question : string) (answers : Py.dict string) (round_num : Z)
    (w : World) :
  exists ranked justif w',
    _get_agent_rankings vs agent question answers round_num w
    = Ok (ranked, justif, w')
    /\ (available_answers (name agent) (allow_self_voting vs) answers = [] ->
        ranked = [name agent] /\ justif = NO_OTHER_OPTIONS /\ w' = w)
    /\ (available_answers (name agent) (allow_self_voting vs) answers <> [] ->
        ranked <> []
        /\ Forall
             (fun n =>
                n ∈ Py.keys (available_answers (name agent)
                               (allow_self_voting vs) answers)) ranked
        /\ total_requests w' = S (total_requests w)
        /\ exists reply w1,
             generate
               (ranking_prompt agent question
                  (available_answers (name agent) (allow_self_voting vs)
                     answers))
               (model agent) w = Ok (reply, w1)
             /\ ((parse_ranking
                    (available_answers (name agent) (allow_self_voting vs)
                       answers) reply).1 <> [] ->
                 (ranked, justif)
                 = parse_ranking
                     (available_answers (name agent) (allow_self_voting vs)
                        answers) reply)
             /\ ((parse_ranking
                    (available_answers (name agent) (allow_self_voting vs)
                       answers) reply).1 = [] ->
                 ranked ≡ₚ Py.keys (available_answers (name agent)
                                     (allow_self_voting vs) answers)
                 /\ justif = RANKING_PARSING_FAILED)).
Proof.
  unfold _get_agent_rankings.
  set (available := available_answers (name agent) (allow_self_voting vs)
                      answers).
  destruct available as [|kv rest] eqn:Hav.
  - unfold mret, M_ret. eexists _, _, _. split; [reflexivity|]. by split.
  - destruct (generate_returns (ranking_prompt agent question (kv :: rest))
                (model agent) w) as (reply & failed & Hgen).
    step Hgen.
    pose proof (parse_ranking_elem (kv :: rest) reply) as Hparsed.
    destruct (parse_ranking (kv :: rest) reply) as [ranked justif] eqn:Hp.
    cbn [fst] in *. destruct ranked as [|r0 ranked].
    + destruct (shuffle_from_Permutation (length (Py.keys (kv :: rest)) - 1)
                  (Py.keys (kv :: rest)) (count_request failed w))
        as (x' & w' & Hrun & Hperm & Hreq).
      unfold random_shuffle. step Hrun. unfold mret, M_ret.
      eexists _, _, _. split; [reflexivity|]. split; [done|]. intros _.
      split; [intros ->; by apply Permutation_nil_cons in Hperm|].
      split; [|split; [by rewrite Hreq|]].
      * apply Forall_forall. intros n Hn. by rewrite <- Hperm.
      * exists reply, (count_request failed w). split; [done|].
        rewrite Hp. cbn [fst]. by split.
    + unfold mret, M_ret. eexists _, _, _. split; [reflexivity|].
      split; [done|]. intros _. split; [done|]. split; [done|].
      split; [done|]. exists reply, (count_request failed w).
      split; [done|]. rewrite Hp. by split.
Qed.

(* =================================================================== *)
(** * More on spawning *)
(* =================================================================== *)

Lemma bind_inv {A B} (m : M A) (f : A -> M B) w b w' :
  (m ≫= f) w = Ok (b, w') ->
  exists a w1, m w = Ok (a, w1) /\ f a w1 = Ok (b, w').
Proof.
  unfold mbind, M_bind. destruct (m w) as [[a w1]|e]; [|done].
  intros H. by exists a, w1.
Qed.

Lemma random_choices1_elem {A} (population : list A) (weights : list nat)
    (w : World) (x : A) (w' : World) :
  random_choices1 population weights w = Ok (x, w') -> x ∈ population.
Proof.
  unfold random_choices1. destruct population as [|x0 rest]; [done|].
  destruct (foldr Nat.add 0%nat weights =? 0)%nat; [done|].
  intros H. apply bind_inv in H as (u & w1 & _ & H).
  unfold mret, M_ret in H. injection H as <- _.
  set (i := bisect _ _ _ _ _).
  assert (i <= length (x0 :: rest) - 1)%nat as Hi by apply bisect_le.
  destruct (lookup_lt_is_Some_2 (x0 :: rest) i) as [y Hy];
    [simpl in *; lia|].
  rewrite Hy. cbn. apply list_elem_of_lookup. eauto.
Qed.

Lemma generate_evolved_name_nonempty (parent : Agent) (w : World)
    (new_name : string) (w' : World) :
  _generate_evolved_name parent None w = Ok (new_name, w') ->
  new_name <> EmptyString.
Proof.
  unfold _generate_evolved_name. cbn [truthy]. intros H.
  apply bind_inv in H as (suffix & w1 & Hs & H).
  apply bind_inv in H as (u & w2 & _ & H).
  destruct (below u _).
  - unfold mret, M_ret in H. injection H as <- _.
    intros E. apply (f_equal String.length) in E.
    rewrite !length_append in E. simpl in E. lia.
  - apply bind_inv in H as (adj & w3 & _ & H).
    apply bind_inv in H as (noun & w4 & _ & H).
    unfold mret, M_ret in H. by injection H as <- _.
Qed.

Lemma create_evolved_agent_inv (em : EvolutionManager)
    (existing : list Agent) (round_num : Z) (mdl : string) (w : World)
    (new_agent : Agent) (em' : EvolutionManager) (w' : World) :
  create_evolved_agent em existing round_num mdl None w
  = Ok (new_agent, em', w') ->
  exists parent nm pers,
    parent ∈ existing
    /\ nm <> EmptyString
    /\ new_agent
       = new_Agent nm pers mdl (generation parent + 1) (Some (name parent))
           round_num
    /\ em'
       = record_creation em
           {| c_round := round_num; c_agent_name := nm;
              c_generation := generation parent + 1;
              c_parent := name parent;
              c_personality := Py.prefix_of 200 pers +:+ "...";
              c_mutations_applied := _extract_mutations em pers |}.
Proof.
  unfold create_evolved_agent.
  destruct existing as [|a0 rest] eqn:Hex; [done|]. rewrite <- Hex in *.
  intros H. apply bind_inv in H as (parent & w1 & Hparent & H).
  apply bind_inv in H as (pers & w2 & Hpers & H).
  apply bind_inv in H as (nm & w3 & Hname & H).
  unfold mret, M_ret in H. injection H as <- <- <-.
  exists parent, nm, pers.
  split; [by apply random_choices1_elem in Hparent|].
  split; [by apply generate_evolved_name_nonempty in Hname|]. done.
Qed.

(** What [create_evolved_agent] creates. It raises ValueError exactly
    when there is no existing agent. Otherwise the new agent descends from
    one of the existing agents: its generation is the parent's plus one,
    its parent name is the parent's name, its birth round is the current
    round, its counters are zero and its memory is empty, and its name is
    not empty. Exactly one creation record, for this agent and this
    parent, is appended; the elimination history is left alone. *)
Theorem create_evolved_agent_descends (em : EvolutionManager)
    (existing : list Agent) (round_num : Z) (mdl : string) (w : World) :
  (existing = [] ->
   create_evolved_agent em existing round_num mdl None w
   = Raise (ValueError "Cannot create evolved agent with no existing agents"))
  /\ (existing <> [] ->
      exists new_agent em' w' parent record,
        create_evolved_agent em existing round_num mdl None w
        = Ok (new_agent, em', w')
        /\ parent ∈ existing
        /\ new_agent
           = new_Agent (name new_agent) (personality_prompt new_agent) mdl
               (generation parent + 1) (Some (name parent)) round_num
        /\ name new_agent <> EmptyString
        /\ creation_history em' = creation_history em ++ [record]
        /\ c_round record = round_num
        /\ c_agent_name record = name new_agent
        /\ c_generation record = generation parent + 1
        /\ c_parent record = name parent
        /\ elimination_history em' = elimination_history em).
Proof.
  split; [by intros ->|]. intros Hne.
  destruct (create_evolved_agent_total em existing round_num mdl w Hne)
    as (new_agent & em' & w' & Hrun).
  destruct (create_evolved_agent_inv em existing round_num mdl w new_agent
              em' w' Hrun)
    as (parent & nm & pers & Hin & Hnm & -> & ->).
  exists (new_Agent nm pers mdl (generation parent + 1) (Some (name parent))
            round_num).
  eexists _, w', parent, _. split; [exact Hrun|]. split; [done|].
  split; [done|]. split; [done|]. split; [reflexivity|]. done.
Qed.

(* =================================================================== *)
(** * More on initialization and on the outcome of a round *)
(* =================================================================== *)

(** [initialize_agents] on a non-empty list of seeds returns without
    touching the world (no request, no draw): it appends the same
    [num_agents] new agents to the population and to the roster, each one
    a founder (generation 0, no parent, zero counters, empty memory) made
    from one of the seeds, the first ones from the first seeds in order.
    Seeds beyond [num_agents] are ignored. *)
Theorem initialize_agents_creates_founders (sim : HungerGamesSimulation)
    (personalities : list Personality) (w : World) :
  personalities <> [] ->
  exists sim' founders,
    initialize_agents sim personalities w = Ok (sim', w)
    /\ agents sim' = agents sim ++ founders
    /\ all_agents_history sim' = all_agents_history sim ++ founders
    /\ length founders = num_agents sim
    /\ Forall (fun a => exists p, p ∈ personalities
                                  /\ a = new_founder (sim_model sim) p)
         founders
    /\ take (length personalities) founders
       = new_founder (sim_model sim)
           <$> take (num_agents sim) personalities
    /\ voting_system sim' = voting_system sim
    /\ evolution_manager sim' = evolution_manager sim.
Proof.
  intros Hne. destruct personalities as [|p0 rest] eqn:Hp; [done|].
  rewrite <- Hp in *. unfold initialize_agents, padded_personalities.
  set (padded := personalities
                   ++ replicate (num_agents sim - length personalities) p0).
  assert ((if (length personalities <? num_agents sim)%nat
           then pad_personalities (num_agents sim - length personalities)
                  personalities
           else mret personalities) w
          = Ok (take (Nat.max (num_agents sim) (length personalities)) padded,
                w)) as Hpad.
  { destruct (Nat.ltb_spec (length personalities) (num_agents sim)) as [Hlt|Hge].
    - rewrite Hp at 2. rewrite pad_personalities_repeats_first, <- Hp.
      fold padded. rewrite take_ge; [done|].
      unfold padded. rewrite length_app, length_replicate. lia.
    - unfold padded.
      replace (num_agents sim - length personalities)%nat with 0%nat by lia.
      cbn [replicate]. rewrite app_nil_r, take_ge by lia. done. }
  step Hpad.
  set (seeds := take _ padded).
  assert (num_agents sim <= length seeds)%nat as Hlen.
  { unfold seeds, padded.
    rewrite length_take, length_app, length_replicate. lia. }
  rewrite (bind_ok _ _ _ _ _
             (create_founders_run (sim_model sim) seeds 0 (num_agents sim) w
                ltac:(lia))).
  unfold mret, M_ret. rewrite drop_0.
  eexists _, _. split; [reflexivity|]. cbn [agents with_population
    all_agents_history voting_system evolution_manager].
  split; [done|]. split; [done|].
  split; [rewrite length_fmap, length_take; lia|]. split; [|split; [|done]].
  - apply Forall_fmap, Forall_forall. intros p Hin. cbn.
    exists p. split; [|done].
    apply elem_of_take in Hin as (i & Hi & _). unfold seeds in Hi.
    apply list_elem_of_lookup_2 in Hi. apply elem_of_take in Hi as (j & Hj & _).
    apply list_elem_of_lookup_2 in Hj. unfold padded in Hj.
    apply elem_of_app in Hj as [Hj|Hj]; [done|].
    apply elem_of_replicate in Hj as [-> _]. rewrite Hp. by left.
  - rewrite <- fmap_take. f_equal. unfold seeds, padded.
    rewrite take_take, take_take.
    rewrite take_app_le by lia.
    destruct (Nat.le_gt_cases (num_agents sim) (length personalities)).
    + f_equal. lia.
    + rewrite !take_ge by lia. done.
Qed.

(** [run_round] completes exactly when the voting method is one of the
    two known ones and the population has at least two agents; in every
    other case it raises. *)
Theorem run_round_completes_iff (sim : HungerGamesSimulation)
    (round_num : Z) (question : string) (w : World) :
  (exists result sim' w',
     run_round sim round_num question w = Ok (result, sim', w'))
  <-> known_method (voting_system sim) /\ (2 <= length (agents sim))%nat.
Proof.
  split.
  - intros (result & sim' & w' & Hrun).
    destruct (known_method_dec (voting_system sim)) as [Hknown|Hunknown];
      [|destruct (run_round_unknown_method sim round_num question w Hunknown)
          as [e He]; congruence].
    split; [done|].
    destruct (agents sim) as [|a0 rest] eqn:Hags.
    { destruct (run_round_no_agents sim round_num question w Hags) as [e He].
      congruence. }
    rewrite <- Hags in *.
    destruct (run_round_outcome sim round_num question w Hknown)
      as (names_before & loser & names_after & Hshape & _ & Hraise & _).
    { by rewrite Hags. }
    destruct (names_before ++ names_after) as [|n0 ns] eqn:Hrest.
    { destruct Hraise as [e He]; [done|]. congruence. }
    apply (f_equal length) in Hshape, Hrest.
    rewrite length_fmap in Hshape. rewrite !length_app in *. cbn in *. lia.
  - intros [Hknown Htwo].
    destruct (run_round_outcome sim round_num question w Hknown)
      as (names_before & loser & names_after & Hshape & _ & _ & Hok).
    { intros Hnil. rewrite Hnil in Htwo. simpl in Htwo. lia. }
    destruct Hok as (result & sim' & w' & Hrun & _); [|eauto].
    intros Hnil. apply (f_equal length) in Hshape, Hnil.
    rewrite length_fmap in Hshape. rewrite !length_app in *. cbn in *. lia.
Qed.

(* =================================================================== *)
(** * What a round changes *)
(* =================================================================== *)

Lemma generate_answer_frame (self : Agent) (question : string)
    (round_num : Z) (w : World) :
  exists answer self' w',
    generate_answer self question round_num w = Ok (answer, self', w')
    /\ settled self'
       = with_answers_given (S (answers_given self)) (settled self)
    /\ total_requests w' = S (total_requests w).
Proof.
  unfold generate_answer.
  match goal with
  | |- context [generate ?p ?m] =>
      destruct (generate_returns p m w) as (answer & failed & Hgen)
  end.
  step Hgen. step (add_memory_run self "answer"
                     ("Q: " +:+ question +:+ " | A: " +:+ answer) round_num
                     (count_request failed w)).
  unfold mret, M_ret. eexists _, _, _. split; [reflexivity|]. done.
Qed.

Lemma collect_answers_frame (question : string) (round_num : Z)
    (ags : list Agent) (answers : Py.dict string) (w : World) :
  exists answers' ags' w',
    collect_answers question round_num ags answers w
    = Ok (answers', ags', w')
    /\ settled <$> ags'
       = (fun a => with_answers_given (S (answers_given a)) (settled a))
           <$> ags
    /\ total_requests w' = (total_requests w + length ags)%nat.
Proof.
  revert answers w. induction ags as [|agent rest IH]; intros answers w.
  - exists answers, [], w. cbn. by rewrite Nat.add_0_r.
  - cbn [collect_answers].
    destruct (generate_answer_frame agent question round_num w)
      as (answer & agent' & w1 & Hgen & Hframe & Hreq). step Hgen.
    destruct (IH (Py.set answers (name agent) answer) w1)
      as (answers' & rest' & w' & Hrun & Hframes & Hreqs). step Hrun.
    unfold mret, M_ret. eexists _, _, _. split; [reflexivity|].
    split; [by rewrite !fmap_cons, Hframe, Hframes|]. cbn [length]. lia.
Qed.

Lemma conduct_vote_settled (vs : VotingSystem) (ags : list Agent)
    (question : string) (answers : Py.dict string) (round_num : Z)
    (w : World) (result : VoteResult) (vs' : VotingSystem)
    (ags' : list Agent) (w' : World) :
  conduct_vote vs ags question answers round_num w
  = Ok (result, vs', ags', w') ->
  settled <$> ags' = settled <$> ags
  /\ vote_history vs' = vote_history vs ++ [result]
  /\ method vs' = method vs
  /\ allow_self_voting vs' = allow_self_voting vs.
Proof.
  unfold conduct_vote.
  destruct (String.eqb_spec (method vs) "single-choice") as [_|_].
  - unfold _single_choice_vote.
    destruct (collect_votes_ledger (allow_self_voting vs) question answers
                round_num ags no_ballots w)
      as (b & ags1 & w1 & Hrun & Hs & _).
    step Hrun. unfold mret, M_ret. intros [= <- <- <- <-].
    split; [|done].
    rewrite <- Hs, <- !list_fmap_compose. apply list_fmap_ext.
    intros _ a _. cbn. apply credit_votes_effect.
  - destruct (String.eqb_spec (method vs) "ranked-choice") as [_|_];
      [|done].
    unfold _ranked_choice_vote.
    destruct (collect_rankings_total vs question answers round_num ags w)
      as (details & w1 & Hrun & _).
    step Hrun. unfold mret, M_ret. by intros [= <- <- <- <-].
Qed.

(** The steps of a round that returns. *)
Lemma run_round_inv (sim : HungerGamesSimulation) (round_num : Z)
    (question : string) (w : World) (result : RoundResult)
    (sim' : HungerGamesSimulation) (w' : World) :
  run_round sim round_num question w = Ok (result, sim', w') ->
  exists answers ags1 w1 vr vs ags2 w2 i loser new_agent em',
    collect_answers question round_num
      ((fun agent => with_rounds_survived (S (rounds_survived agent)) agent)
         <$> agents sim) [] w
    = Ok (answers, ags1, w1)
    /\ conduct_vote (voting_system sim) ags1 question answers round_num w1
       = Ok (vr, vs, ags2, w2)
    /\ list_find (fun a => name a = get_loser vr) ags2 = Some (i, loser)
    /\ create_evolved_agent
         (record_elimination (evolution_manager sim)
            (elimination_record round_num loser RECEIVED_FEWEST_VOTES))
         (delete i ags2) round_num (sim_model sim) None w2
       = Ok (new_agent, em', w')
    /\ result
       = {| rr_round := round_num; rr_question := question;
            rr_answers := answers; rr_votes := vr;
            rr_eliminated := get_loser vr; rr_evolved := name new_agent |}
    /\ sim'
       = with_population sim vs em' (delete i ags2 ++ [new_agent])
           (all_agents_history sim ++ [new_agent]).
Proof.
  intros Hrun.
  destruct (known_method_dec (voting_system sim)) as [Hknown|Hunknown];
    [|destruct (run_round_unknown_method sim round_num question w Hunknown)
        as [e He]; congruence].
  destruct (agents sim) as [|a0 rest] eqn:Hags.
  { destruct (run_round_no_agents sim round_num question w Hags) as [e He].
    congruence. }
  rewrite <- Hags in *.
  assert (agents sim <> []) as Hne by (by rewrite Hags).
  unfold run_round in Hrun.
  set (ags0 := (fun agent => with_rounds_survived _ agent) <$> agents sim)
    in *.
  assert (name <$> ags0 = name <$> agents sim) as Hn0
    by apply rounds_survived_name.
  destruct (collect_answers_total question round_num ags0 [] w)
    as (answers & ags1 & w1 & Hans & Hn1 & Hkeys1).
  destruct (conduct_vote_total (voting_system sim) ags1 question answers
              round_num w1 Hknown)
    as (vr & vs & ags2 & w2 & Hvote & Hn2 & _ & Hin & Htally).
  assert (ags1 <> []) as Hne1.
  { intros ->. rewrite Hn0 in Hn1. symmetry in Hn1.
    by apply fmap_nil_inv' in Hn1. }
  specialize (Htally Hne1).
  assert (get_loser vr ∈ name <$> ags2) as Hloser.
  { rewrite Hn2. destruct (Hin _ (get_loser_elem vr Htally)) as [H|H]; [|done].
    apply Hkeys1 in H as [H|H]; [by apply elem_of_nil in H|].
    by rewrite Hn1. }
  apply list_elem_of_fmap in Hloser as (a1 & Hname & Ha1).
  destruct (list_find_elem_of (fun a => name a = get_loser vr) ags2 a1 Ha1
              (eq_sym Hname)) as [[i loser] Hfind].
  rewrite (bind_ok _ _ _ _ _ Hans) in Hrun. cbn beta iota in Hrun.
  rewrite (bind_ok _ _ _ _ _ Hvote) in Hrun. cbn beta iota in Hrun.
  rewrite (bind_ok _ _ _ _ _ (vote_summary_ok (verbose sim) vr w2 Htally))
    in Hrun.
  unfold eliminate_agent in Hrun. rewrite Hfind in Hrun.
  cbn beta iota zeta in Hrun.
  apply bind_inv in Hrun as ([new_agent em'] & w3 & Hnew & Hret).
  unfold mret, M_ret in Hret. injection Hret as <- <- <-.
  by exists answers, ags1, w1, vr, vs, ags2, w2, i, loser, new_agent, em'.
Qed.

(** The agents through a round, up to what voting and remembering change:
    the population after the vote is the population before the round, each
    agent one round older. *)
Lemma run_round_ages (sim : HungerGamesSimulation) (round_num : Z)
    (question : string) (w : World) (answers : Py.dict string)
    (ags1 : list Agent) (w1 : World) (vr : VoteResult) (vs : VotingSystem)
    (ags2 : list Agent) (w2 : World) :
  collect_answers question round_num
    ((fun agent => with_rounds_survived (S (rounds_survived agent)) agent)
       <$> agents sim) [] w
  = Ok (answers, ags1, w1) ->
  conduct_vote (voting_system sim) ags1 question answers round_num w1
  = Ok (vr, vs, ags2, w2) ->
  settled <$> ags2 = aged <$> agents sim.
Proof.
  intros Hans Hvote.
  destruct (conduct_vote_settled _ _ _ _ _ _ _ _ _ _ Hvote) as (-> & _).
  destruct (collect_answers_frame question round_num
              ((fun agent =>
                  with_rounds_survived (S (rounds_survived agent)) agent)
                 <$> agents sim) [] w)
    as (answers' & ags1' & w1' & Hans' & Hframe & _).
  rewrite Hans in Hans'. injection Hans' as <- <- <-.
  rewrite Hframe, <- list_fmap_compose. by apply list_fmap_ext.
Qed.

(** The survivors of a round. When [run_round] returns, the agent
    eliminated is the first one of the population bearing the loser's
    name. Every other agent is still there, in the same order, with the
    same name, description, model, generation, parent and birth round,
    one more round survived and one more answer given; the newcomer comes
    last. *)
Theorem run_round_survivors_age (sim : HungerGamesSimulation)
    (round_num : Z) (question : string) (w : World) (result : RoundResult)
    (sim' : HungerGamesSimulation) (w' : World) :
  run_round sim round_num question w = Ok (result, sim', w') ->
  exists i new_agent,
    (name <$> agents sim) !! i = Some (rr_eliminated result)
    /\ (forall j, (j < i)%nat ->
                  (name <$> agents sim) !! j <> Some (rr_eliminated result))
    /\ settled <$> agents sim'
       = delete i (aged <$> agents sim) ++ [new_agent]
    /\ name new_agent = rr_evolved result.
Proof.
  intros Hrun.
  destruct (run_round_inv _ _ _ _ _ _ _ Hrun)
    as (answers & ags1 & w1 & vr & vs & ags2 & w2 & i & loser & new_agent
        & em' & Hans & Hvote & Hfind & Hnew & -> & ->).
  pose proof (run_round_ages _ _ _ _ _ _ _ _ _ _ _ Hans Hvote) as Hages.
  assert (name <$> ags2 = name <$> agents sim) as Hnames.
  { transitivity (name <$> (aged <$> agents sim)).
    - rewrite <- Hages, <- list_fmap_compose. by apply list_fmap_ext.
    - rewrite <- list_fmap_compose. by apply list_fmap_ext. }
  apply list_find_Some in Hfind as (Hi & Hloser & Hfirst).
  exists i, new_agent. cbn [rr_eliminated rr_evolved agents with_population].
  split; [by rewrite <- Hnames, list_lookup_fmap, Hi; cbn; rewrite Hloser|].
  split.
  { intros j Hj. rewrite <- Hnames, list_lookup_fmap.
    destruct (ags2 !! j) as [b|] eqn:Hb; [|done]. cbn.
    intros [= E]. by apply (Hfirst j b). }
  split; [|done].
  rewrite fmap_app, list_fmap_delete, Hages.
  destruct (create_evolved_agent_inv _ _ _ _ _ _ _ _ Hnew)
    as (parent & nm & pers & _ & _ & -> & _).
  done.
Qed.

(** The newcomer of a round. When [run_round] returns, exactly one agent
    is appended to the roster and it is the last agent of the population.
    It descends from one of the survivors of this round: one generation
    above its parent, with the parent's name as parent name, born in this
    round, with zero counters, an empty memory and the simulation's
    model; its name, never empty, is the [evolved] name of the result. *)
Theorem run_round_newcomer (sim : HungerGamesSimulation)
    (round_num : Z) (question : string) (w : World) (result : RoundResult)
    (sim' : HungerGamesSimulation) (w' : World) :
  run_round sim round_num question w = Ok (result, sim', w') ->
  exists survivors new_agent parent,
    agents sim' = survivors ++ [new_agent]
    /\ all_agents_history sim' = all_agents_history sim ++ [new_agent]
    /\ parent ∈ survivors
    /\ new_agent
       = new_Agent (rr_evolved result) (personality_prompt new_agent)
           (sim_model sim) (generation parent + 1) (Some (name parent))
           round_num
    /\ rr_evolved result <> EmptyString.
Proof.
  intros Hrun.
  destruct (run_round_inv _ _ _ _ _ _ _ Hrun)
    as (answers & ags1 & w1 & vr & vs & ags2 & w2 & i & loser & new_agent
        & em' & Hans & Hvote & Hfind & Hnew & -> & ->).
  destruct (create_evolved_agent_inv _ _ _ _ _ _ _ _ Hnew)
    as (parent & nm & pers & Hin & Hnm & -> & _).
  by eexists (delete i ags2), _, parent.
Qed.

(** The histories of a round. When [run_round] returns, the vote history
    has gained the round's vote result, the elimination history one
    record for the round's loser (with the reason "Received fewest votes"
    and a count of rounds survived that includes this round), and the
    creation history one record for the newcomer; earlier entries are
    untouched, and the settings of the simulation are unchanged. *)
Theorem run_round_histories (sim : HungerGamesSimulation)
    (round_num : Z) (question : string) (w : World) (result : RoundResult)
    (sim' : HungerGamesSimulation) (w' : World) :
  run_round sim round_num question w = Ok (result, sim', w') ->
  exists eliminated created,
    vote_history (voting_system sim')
    = vote_history (voting_system sim) ++ [rr_votes result]
    /\ elimination_history (evolution_manager sim')
       = elimination_history (evolution_manager sim) ++ [eliminated]
    /\ e_round eliminated = round_num
    /\ e_agent_name eliminated = rr_eliminated result
    /\ e_reason eliminated = RECEIVED_FEWEST_VOTES
    /\ (1 <= e_rounds_survived eliminated)%nat
    /\ creation_history (evolution_manager sim')
       = creation_history (evolution_manager sim) ++ [created]
    /\ c_round created = round_num
    /\ c_agent_name created = rr_evolved result
    /\ method (voting_system sim') = method (voting_system sim)
    /\ allow_self_voting (voting_system sim')
       = allow_self_voting (voting_system sim)
    /\ mutation_rate (evolution_manager sim')
       = mutation_rate (evolution_manager sim)
    /\ mutation_traits (evolution_manager sim')
       = mutation_traits (evolution_manager sim)
    /\ num_agents sim' = num_agents sim
    /\ num_rounds sim' = num_rounds sim
    /\ sim_model sim' = sim_model sim
    /\ current_round sim' = current_round sim.
Proof.
  intros Hrun.
  destruct (run_round_inv _ _ _ _ _ _ _ Hrun)
    as (answers & ags1 & w1 & vr & vs & ags2 & w2 & i & loser & new_agent
        & em' & Hans & Hvote & Hfind & Hnew & -> & ->).
  destruct (conduct_vote_settled _ _ _ _ _ _ _ _ _ _ Hvote)
    as (_ & Hhist & Hmethod & Hallow).
  destruct (create_evolved_agent_inv _ _ _ _ _ _ _ _ Hnew)
    as (parent & nm & pers & _ & _ & -> & ->).
  pose proof (run_round_ages _ _ _ _ _ _ _ _ _ _ _ Hans Hvote) as Hages.
  apply list_find_Some in Hfind as (Hi & Hloser & _).
  assert (1 <= rounds_survived loser)%nat as Hsurvived.
  { assert ((settled <$> ags2) !! i = Some (settled loser)) as Hl
      by (by rewrite list_lookup_fmap, Hi).
    rewrite Hages, list_lookup_fmap in Hl.
    destruct (agents sim !! i) as [a|]; [|done].
    assert (aged a = settled loser) as E by (cbn in Hl; congruence).
    apply (f_equal rounds_survived) in E. cbn in E. lia. }
  eexists _, _. cbn.
  repeat (split; [done || reflexivity|]). done.
Qed.

(* =================================================================== *)
(** * Rosters the engine builds *)
(* =================================================================== *)

Lemma create_founders_inv (mdl : string) (personalities : list Personality)
    (i count : nat) (w : World) (l : list Agent) (w' : World) :
  create_founders mdl personalities i count w = Ok (l, w') ->
  exists seeds, l = new_founder mdl <$> seeds.
Proof.
  revert i l w w'. induction count as [|count IH]; intros i l w w'.
  - intros [= <- _]. by exists [].
  - cbn [create_founders]. destruct (personalities !! i) as [p|]; [|done].
    intros H. apply bind_inv in H as (rest & w1 & Hrest & H).
    unfold mret, M_ret in H. injection H as <- _.
    destruct (IH _ _ _ _ Hrest) as [seeds ->]. by exists (p :: seeds).
Qed.

Lemma initialize_agents_inv (sim : HungerGamesSimulation)
    (personalities : list Personality) (w : World)
    (sim' : HungerGamesSimulation) (w' : World) :
  initialize_agents sim personalities w = Ok (sim', w') ->
  exists seeds,
    agents sim' = agents sim ++ (new_founder (sim_model sim) <$> seeds)
    /\ all_agents_history sim'
       = all_agents_history sim ++ (new_founder (sim_model sim) <$> seeds).
Proof.
  unfold initialize_agents. intros H.
  apply bind_inv in H as (padded & w1 & _ & H).
  apply bind_inv in H as (founders & w2 & Hf & H).
  unfold mret, M_ret in H. injection H as <- _.
  destruct (create_founders_inv _ _ _ _ _ _ _ Hf) as [seeds ->].
  by exists seeds.
Qed.

Lemma well_ordered_snoc (roster : list Agent) (a : Agent) :
  well_ordered roster ->
  (truthy (parent_name a) = true ->
   exists b, b ∈ roster /\ parent_name a = Some (name b)) ->
  well_ordered (roster ++ [a]).
Proof.
  intros Hwo Ha i x Hi Hx.
  destruct (Nat.lt_ge_cases i (length roster)) as [Hlt|Hge].
  - rewrite lookup_app_l in Hi by done.
    destruct (Hwo i x Hi Hx) as (j & b & Hj & Hb & Hp).
    exists j, b. split; [done|]. split; [|done].
    rewrite lookup_app_l by lia. done.
  - rewrite lookup_app_r in Hi by done.
    destruct (i - length roster)%nat as [|k] eqn:Hk; [|by destruct k].
    injection Hi as <-. destruct (Ha Hx) as (b & Hb & Hp).
    apply list_elem_of_lookup in Hb as [j Hj].
    exists j, b. pose proof (lookup_lt_Some _ _ _ Hj).
    split; [lia|]. split; [|done]. by rewrite lookup_app_l by lia.
Qed.

Lemma well_ordered_founders (roster : list Agent) (mdl : string)
    (seeds : list Personality) :
  well_ordered roster -> well_ordered (roster ++ (new_founder mdl <$> seeds)).
Proof.
  intros Hwo. induction seeds as [|p seeds IH] using rev_ind.
  - by rewrite app_nil_r.
  - rewrite fmap_app, app_assoc. by apply well_ordered_snoc.
Qed.

Lemma roster_ok_fresh (n_agents n_rounds : nat) (mdl voting_method : string)
    (verb : bool) :
  roster_ok (new_HungerGamesSimulation n_agents n_rounds mdl voting_method
               verb).
Proof.
  split.
  - intros i a Hi. done.
  - intros a Ha. by apply elem_of_nil in Ha.
Qed.

Lemma roster_ok_initialize_agents (sim : HungerGamesSimulation)
    (personalities : list Personality) (w : World)
    (sim' : HungerGamesSimulation) (w' : World) :
  roster_ok sim ->
  initialize_agents sim personalities w = Ok (sim', w') ->
  roster_ok sim'.
Proof.
  intros [Hwo Hpop] Hrun.
  destruct (initialize_agents_inv _ _ _ _ _ Hrun) as (seeds & Hags & Hhist).
  split.
  - rewrite Hhist. by apply well_ordered_founders.
  - intros a Ha. rewrite Hags in Ha. rewrite Hhist.
    apply elem_of_app in Ha as [Ha|Ha].
    + destruct (Hpop a Ha) as (b & Hb & Hn & Hp). exists b.
      split; [|done]. apply elem_of_app. by left.
    + exists a. split; [|done]. apply elem_of_app. by right.
Qed.

Lemma settled_twin (l1 l2 : list Agent) (a : Agent) :
  settled <$> l1 = settled <$> l2 -> a ∈ l1 ->
  exists b, b ∈ l2 /\ name b = name a /\ parent_name b = parent_name a.
Proof.
  intros Heq Ha. apply list_elem_of_lookup in Ha as [i Hi].
  assert ((settled <$> l2) !! i = Some (settled a)) as Hl
    by (by rewrite <- Heq, list_lookup_fmap, Hi).
  rewrite list_lookup_fmap in Hl.
  destruct (l2 !! i) as [b|] eqn:Hb; [|done].
  assert (settled b = settled a) as E by (cbn in Hl; congruence).
  exists b. split; [by eapply list_elem_of_lookup_2|].
  split; [by apply (f_equal name) in E|by apply (f_equal parent_name) in E].
Qed.

Lemma roster_ok_run_round (sim : HungerGamesSimulation) (round_num : Z)
    (question : string) (w : World) (result : RoundResult)
    (sim' : HungerGamesSimulation) (w' : World) :
  roster_ok sim ->
  run_round sim round_num question w = Ok (result, sim', w') ->
  roster_ok sim'.
Proof.
  intros [Hwo Hpop] Hrun.
  destruct (run_round_inv _ _ _ _ _ _ _ Hrun)
    as (answers & ags1 & w1 & vr & vs & ags2 & w2 & i & loser & new_agent
        & em' & Hans & Hvote & Hfind & Hnew & -> & ->).
  pose proof (run_round_ages _ _ _ _ _ _ _ _ _ _ _ Hans Hvote) as Hages.
  assert (forall a, a ∈ ags2 ->
            exists b, b ∈ all_agents_history sim
                      /\ name b = name a /\ parent_name b = parent_name a)
    as Htwin.
  { intros a Ha.
    assert (settled <$> ags2 = settled <$> (aged <$> agents sim)) as Heq.
    { rewrite Hages, <- list_fmap_compose. by apply list_fmap_ext. }
    destruct (settled_twin _ _ a Heq Ha) as (b & Hb & Hn & Hp).
    apply list_elem_of_fmap in Hb as (c & -> & Hc).
    destruct (Hpop c Hc) as (d & Hd & Hdn & Hdp).
    exists d. split; [done|]. cbn in Hn, Hp. split; congruence. }
  destruct (create_evolved_agent_inv _ _ _ _ _ _ _ _ Hnew)
    as (parent & nm & pers & Hparent & _ & -> & _).
  apply list_elem_of_delete_inv in Hparent.
  destruct (Htwin parent Hparent) as (pb & Hpb & Hpbn & _).
  split; cbn [all_agents_history agents with_population].
  - apply well_ordered_snoc; [done|]. intros _. exists pb.
    split; [done|]. cbn. by rewrite Hpbn.
  - intros a Ha. apply elem_of_app in Ha as [Ha|Ha].
    + apply list_elem_of_delete_inv in Ha.
      destruct (Htwin a Ha) as (b & Hb & Hn & Hp). exists b.
      split; [|done]. apply elem_of_app. by left.
    + apply list_elem_of_singleton in Ha as ->. eexists.
      split; [|done]. apply elem_of_app. right. by left.
Qed.

(** Every roster the engine can build is well ordered. A new simulation
    has it so; [initialize_agents] and [run_round] keep it so whenever
    they return: each entry with a parent comes after an entry bearing the
    parent's name, and every active agent has its entry in the roster. *)
Theorem engine_keeps_roster_ok :
  (forall n_agents n_rounds mdl voting_method verb,
     roster_ok (new_HungerGamesSimulation n_agents n_rounds mdl voting_method
                  verb))
  /\ (forall sim personalities w sim' w',
        roster_ok sim ->
        initialize_agents sim personalities w = Ok (sim', w') ->
        roster_ok sim')
  /\ (forall sim round_num question w result sim' w',
        roster_ok sim ->
        run_round sim round_num question w = Ok (result, sim', w') ->
        roster_ok sim').
Proof.
  split; [|split].
  - apply roster_ok_fresh.
  - apply roster_ok_initialize_agents.
  - apply roster_ok_run_round.
Qed.

Lemma lookups_same_parent (n : nat) (all_history : list Agent)
    (a b : Agent) :
  parent_name a = parent_name b ->
  lookups n all_history a = lookups n all_history b.
Proof. intros E. destruct n; [done|]. cbn [lookups]. by rewrite E. Qed.

Lemma lookups_on_roster (all_history : list Agent) :
  well_ordered all_history ->
  forall i a n,
    all_history !! i = Some a ->
    (length (lookups n all_history a) <= i)%nat
    /\ ((i < n)%nat ->
        exists f,
          f ∈ all_history /\ truthy (parent_name f) = false
          /\ last (name a :: lookups n all_history a) = Some (name f)).
Proof.
  intros Hwo i. induction i as [i IH] using lt_wf_ind. intros a n Hi.
  destruct n as [|n]; [split; [cbn; lia|lia]|].
  cbn [lookups]. destruct (truthy (parent_name a)) eqn:Htruthy.
  - destruct (Hwo i a Hi Htruthy) as (j & b & Hj & Hb & Hp).
    rewrite Hp. change (default EmptyString (Some (name b))) with (name b).
    assert (b ∈ all_history) as Hbin by (by eapply list_elem_of_lookup_2).
    destruct (list_find_elem_of (fun h => name h = name b) all_history b Hbin
                eq_refl) as [[j' p] Hfind].
    unfold find_parent. rewrite Hfind. cbn [fmap option_fmap option_map snd].
    apply list_find_Some in Hfind as (Hj' & Hpn & Hmin).
    assert (j' <= j)%nat as Hle.
    { destruct (Nat.le_gt_cases j' j) as [|Hgt]; [done|].
      exfalso. by apply (Hmin j b Hb Hgt). }
    destruct (IH j' ltac:(lia) p n Hj') as [Hlen Hend].
    split; [cbn [length]; lia|]. intros Hn.
    destruct Hend as (f & Hf & Hno & Hlast); [lia|].
    exists f. split; [done|]. split; [done|].
    rewrite last_cons_cons, <- Hpn. done.
  - split; [cbn; lia|]. intros _. exists a.
    split; [by eapply list_elem_of_lookup_2|]. done.
Qed.

(** On a roster the engine built, [get_lineage] terminates for every
    agent of the roster and of the population: the list it returns ends
    with the agent's name, starts with the name of a founder of the roster
    (no ancestor is ever missing), and is no longer than the roster. *)
Theorem get_lineage_terminates_on_engine_rosters
    (sim : HungerGamesSimulation) (agent : Agent) :
  roster_ok sim ->
  agent ∈ agents sim \/ agent ∈ all_agents_history sim ->
  exists lineage founder,
    get_lineage agent (all_agents_history sim) = Some lineage
    /\ last lineage = Some (name agent)
    /\ head lineage = Some (name founder)
    /\ founder ∈ all_agents_history sim
    /\ truthy (parent_name founder) = false
    /\ (length lineage <= length (all_agents_history sim))%nat.
Proof.
  intros [Hwo Hpop] Hagent.
  set (roster := all_agents_history sim) in *.
  assert (exists b, b ∈ roster /\ name b = name agent
                    /\ parent_name b = parent_name agent)
    as (b & Hb & Hn & Hp).
  { destruct Hagent as [Ha|Ha]; [by apply Hpop|]. by exists agent. }
  apply list_elem_of_lookup in Hb as [i Hi].
  pose proof (lookup_lt_Some _ _ _ Hi) as Hlt.
  set (fuel0 := S (S (length roster))).
  destruct (lookups_on_roster roster Hwo i b fuel0 Hi) as [Hlen Hend].
  destruct Hend as (f & Hf & Hno & Hlast); [unfold fuel0; lia|].
  rewrite (lookups_same_parent fuel0 roster b agent Hp) in Hlen, Hlast.
  rewrite Hn in Hlast.
  exists (reverse (name agent :: lookups fuel0 roster agent)), f.
  split.
  { unfold get_lineage, get_lineage_fuel. fold roster fuel0.
    rewrite lineage_loop_lookups; [done|].
    revert Hlen Hlt. generalize (length (lookups fuel0 roster agent)).
    unfold fuel0. lia. }
  split; [by rewrite last_reverse|]. split; [by rewrite head_reverse|].
  split; [done|]. split; [done|].
  rewrite length_reverse. cbn [length]. lia.
Qed.

(* =================================================================== *)
(** * When the lineage loop ends *)
(* =================================================================== *)

Lemma lineage_loop_Some_stable (fuel : nat) (all_history : list Agent)
    (current : Agent) (lineage result : list string) :
  lineage_loop fuel all_history current lineage = Some result ->
  result = lineage ++ lookups fuel all_history current
  /\ forall n, (fuel <= n)%nat ->
       lookups n all_history current = lookups fuel all_history current.
Proof.
  revert current lineage. induction fuel as [|fuel IH];
    intros current lineage H; [done|].
  cbn [lineage_loop lookups] in *.
  destruct (truthy (parent_name current)) eqn:Htruthy.
  - cbn zeta in *.
    destruct (find_parent all_history _) as [parent|] eqn:Hfind.
    + apply IH in H as [-> Hstable]. split; [by rewrite <- app_assoc|].
      intros [|n] Hn; [lia|]. cbn [lookups]. rewrite Htruthy, Hfind.
      f_equal. apply Hstable. lia.
    + injection H as <-. split; [done|].
      intros [|n] Hn; [lia|]. cbn [lookups]. by rewrite Htruthy, Hfind.
  - injection H as <-. split; [by rewrite app_nil_r|].
    intros [|n] Hn; [lia|]. cbn [lookups]. by rewrite Htruthy.
Qed.

Lemma length_lookups (n : nat) (all_history : list Agent) (current : Agent) :
  (length (lookups n all_history current) <= n)%nat.
Proof.
  revert current. induction n as [|n IH]; intros current; [done|].
  cbn [lookups]. destruct (truthy (parent_name current)); [|cbn; lia].
  cbn zeta. destruct (find_parent all_history _) as [parent|]; [|cbn; lia].
  cbn [length]. specialize (IH parent). lia.
Qed.

Lemma lookups_take (n n' : nat) (all_history : list Agent)
    (current : Agent) :
  (n <= n')%nat ->
  lookups n all_history current = take n (lookups n' all_history current).
Proof.
  revert n' current. induction n as [|n IH]; intros n' current Hle;
    [done|].
  destruct n' as [|n']; [lia|]. cbn [lookups].
  destruct (truthy (parent_name current)); [|done]. cbn zeta.
  destruct (find_parent all_history _) as [parent|]; [|by destruct n].
  cbn [take]. f_equal. apply IH. lia.
Qed.

(** A name that is looked up is followed by the chain of the entry it
    resolves to. *)
Lemma lookups_elem_split (n : nat) (all_history : list Agent)
    (current : Agent) (x : string) :
  x ∈ lookups n all_history current ->
  exists pre,
    lookups n all_history current
    = pre ++ x :: match find_parent all_history x with
                  | Some parent =>
                      lookups (n - S (length pre)) all_history parent
                  | None => []
                  end.
Proof.
  revert current. induction n as [|n IH]; intros current Hin;
    [by apply elem_of_nil in Hin|].
  cbn [lookups] in *.
  destruct (truthy (parent_name current)); [|by apply elem_of_nil in Hin].
  cbn zeta in *. apply elem_of_cons in Hin as [->|Hin].
  - exists []. cbn [length app]. by rewrite Nat.sub_succ, Nat.sub_0_r.
  - destruct (find_parent all_history
                (default EmptyString (parent_name current)))
      as [parent|]; [|by apply elem_of_nil in Hin].
    destruct (IH parent Hin) as [pre Hpre].
    exists (default EmptyString (parent_name current) :: pre).
    cbn [length app]. rewrite Nat.sub_succ. by f_equal.
Qed.

Lemma lookups_stable_NoDup (fuel : nat) (all_history : list Agent)
    (current : Agent) :
  (forall n, (fuel <= n)%nat ->
     lookups n all_history current = lookups fuel all_history current) ->
  NoDup (lookups fuel all_history current).
Proof.
  revert current. induction fuel as [|fuel IH]; intros current Hstable;
    [constructor|].
  pose proof (Hstable (S (fuel + S fuel)) ltac:(lia)) as Hm.
  assert (forall n, (fuel <= n)%nat ->
            lookups (S n) all_history current
            = lookups (S fuel) all_history current) as Hs
    by (intros n Hn; apply Hstable; lia).
  cbn [lookups] in *.
  destruct (truthy (parent_name current)); [|constructor]. cbn zeta in *.
  set (wanted := default EmptyString (parent_name current)) in *.
  destruct (find_parent all_history wanted) as [parent|] eqn:Hfind;
    [|apply NoDup_singleton].
  assert (forall n, (fuel <= n)%nat ->
            lookups n all_history parent = lookups fuel all_history parent)
    as Hp.
  { intros n Hn. specialize (Hs n Hn). by injection Hs. }
  constructor; [|by apply IH].
  intros Hin. set (m := (fuel + S fuel)%nat).
  rewrite <- (Hp m) in Hin by (unfold m; lia).
  destruct (lookups_elem_split m all_history parent wanted Hin)
    as [pre Hpre].
  rewrite Hfind, (Hp m) in Hpre by (unfold m; lia).
  pose proof (length_lookups fuel all_history parent) as Hle.
  assert (length pre < fuel)%nat as Hk.
  { apply (f_equal length) in Hpre. rewrite length_app in Hpre.
    cbn [length] in Hpre. lia. }
  rewrite (Hp (m - S (length pre))%nat) in Hpre by (unfold m; lia).
  apply (f_equal length) in Hpre. rewrite length_app in Hpre.
  cbn [length] in Hpre. lia.
Qed.

(** [get_lineage] returns only on a chain without a cycle. If the loop
    has ended within some number of tests, no name was looked up twice,
    and the bound taken from the size of the roster gives the same list:
    on a chain with a cycle the Python loop never ends. *)
Theorem get_lineage_returns_only_without_cycle (fuel : nat) (agent : Agent)
    (all_history : list Agent) (lineage : list string) :
  get_lineage_fuel fuel agent all_history = Some lineage ->
  acyclic all_history agent
  /\ get_lineage agent all_history = Some lineage
  /\ lineage = reverse (name agent :: lookups fuel all_history agent).
Proof.
  unfold get_lineage_fuel. intros Hrun.
  destruct (lineage_loop fuel all_history agent [name agent])
    as [result|] eqn:Hloop; [|done].
  destruct (lineage_loop_Some_stable _ _ _ _ _ Hloop) as [-> Hstable].
  assert (acyclic all_history agent) as Hacyclic.
  { intros n.
    rewrite (lookups_take n (Nat.max n fuel)) by lia.
    rewrite (Hstable (Nat.max n fuel)) by lia.
    pose proof (lookups_stable_NoDup fuel all_history agent Hstable) as Hnd.
    rewrite <- (take_drop n (lookups fuel all_history agent)) in Hnd.
    by apply NoDup_app in Hnd as [Hnd _]. }
  cbn [fmap option_fmap option_map] in Hrun. injection Hrun as <-.
  split; [done|]. split; [|done].
  set (fuel0 := S (S (length all_history))).
  pose proof (lookups_bounded fuel0 all_history agent (Hacyclic fuel0))
    as Hbound.
  assert (length (lookups fuel0 all_history agent) < fuel0)%nat as Hlt.
  { revert Hbound. generalize (length (lookups fuel0 all_history agent)).
    unfold fuel0. lia. }
  unfold get_lineage, get_lineage_fuel. fold fuel0.
  rewrite lineage_loop_lookups by done.
  assert (lookups fuel0 all_history agent = lookups fuel all_history agent)
    as ->; [|done].
  destruct (Nat.le_ge_cases fuel fuel0).
  - by apply Hstable.
  - symmetry. by apply lookups_stable.
Qed.

(* =================================================================== *)
(** * The answers of a round *)
(* =================================================================== *)

Lemma keys_set_old {V} (d : Py.dict V) (k : string) (v : V) :
  k ∈ Py.keys d -> Py.keys (Py.set d k v) = Py.keys d.
Proof.
  unfold Py.keys. induction d as [|[k0 v0] d IH]; intros Hin.
  - by apply elem_of_nil in Hin.
  - cbn [Py.set]. destruct (String.eqb_spec k0 k) as [->|Hne]; [done|].
    rewrite !fmap_cons. f_equal. apply IH.
    rewrite fmap_cons in Hin. apply elem_of_cons in Hin as [->|Hin]; done.
Qed.

Lemma keys_set_new {V} (d : Py.dict V) (k : string) (v : V) :
  k ∉ Py.keys d -> Py.keys (Py.set d k v) = Py.keys d ++ [k].
Proof.
  unfold Py.keys. induction d as [|[k0 v0] d IH]; intros Hout; [done|].
  cbn [Py.set]. rewrite fmap_cons in Hout.
  apply not_elem_of_cons in Hout as [Hne Hout].
  destruct (String.eqb_spec k0 k) as [->|_]; [done|].
  rewrite !fmap_cons. cbn [app]. f_equal. by apply IH.
Qed.

Lemma collect_answers_keys_from (question : string) (round_num : Z)
    (ags : list Agent) (answers0 : Py.dict string) (w : World) :
  exists answers ags' w',
    collect_answers question round_num ags answers0 w
    = Ok (answers, ags', w')
    /\ (NoDup (Py.keys answers0) -> NoDup (Py.keys answers))
    /\ (forall k,
          k ∈ Py.keys answers <-> k ∈ Py.keys answers0 \/ k ∈ name <$> ags)
    /\ (length (Py.keys answers)
        <= length (Py.keys answers0) + length ags)%nat
    /\ (length (Py.keys answers)
        = (length (Py.keys answers0) + length ags)%nat
        <-> NoDup (name <$> ags)
            /\ forall k, k ∈ name <$> ags -> k ∉ Py.keys answers0).
Proof.
  revert answers0 w. induction ags as [|agent rest IH]; intros answers0 w.
  - exists answers0, [], w. cbn [collect_answers length fmap list_fmap].
    split; [done|]. split; [done|]. split.
    { intros k. split; [by left|]. intros [H|H]; [done|].
      by apply elem_of_nil in H. }
    split; [lia|]. split; [|lia]. intros _. split; [constructor|].
    intros k H. by apply elem_of_nil in H.
  - cbn [collect_answers].
    destruct (generate_answer_frame agent question round_num w)
      as (answer & agent' & w1 & Hgen & _ & _). step Hgen.
    destruct (IH (Py.set answers0 (name agent) answer) w1)
      as (answers & rest' & w' & Hrun & Hnd & Hkeys & Hle & Heq).
    step Hrun. unfold mret, M_ret. eexists _, _, _. split; [reflexivity|].
    rewrite fmap_cons. cbn [length].
    destruct (decide (name agent ∈ Py.keys answers0)) as [Hin|Hout].
    + rewrite (keys_set_old _ _ _ Hin) in Hnd, Hle, Heq.
      split; [done|]. split.
      { intros k. rewrite Hkeys, keys_set, elem_of_cons.
        split; [intros [[->|?]|?]; auto|intros [?|[->|?]]; auto]. }
      split; [lia|]. split; [lia|]. intros [_ Hfresh]. exfalso.
      apply (Hfresh (name agent)); [by left|done].
    + rewrite (keys_set_new _ _ _ Hout) in Hnd, Hle, Heq.
      rewrite length_app in Hle, Heq. cbn [length] in Hle, Heq. split.
      { intros Hnd0. apply Hnd, NoDup_app. split; [done|].
        split; [|apply NoDup_singleton].
        intros x Hx Hx'. apply list_elem_of_singleton in Hx' as ->. done. }
      split.
      { intros k. rewrite Hkeys, keys_set, elem_of_cons.
        split; [intros [[->|?]|?]; auto|intros [?|[->|?]]; auto]. }
      split; [lia|]. split.
      * intros Hlen. destruct Heq as [Heq _].
        destruct Heq as [Hndr Hfresh]; [lia|]. split.
        { constructor; [|done]. intros Hdup.
          apply (Hfresh _ Hdup), elem_of_app. right. by left. }
        intros k Hk Hk0. apply elem_of_cons in Hk as [->|Hk]; [done|].
        apply (Hfresh k Hk), elem_of_app. by left.
      * intros [Hndr Hfresh]. apply NoDup_cons in Hndr as [Hhd Hndr].
        destruct Heq as [_ Heq]. rewrite Heq; [lia|]. split; [done|].
        intros k Hk Hk0. apply elem_of_app in Hk0 as [Hk0|Hk0].
        { apply (Hfresh k); [by right|done]. }
        apply list_elem_of_singleton in Hk0 as ->. done.
Qed.

(** The answers of a round, collected into an empty dictionary, hold one
    entry per distinct agent name: the loop always returns, every agent's
    name is a key, no key is anything else, and there are as many keys as
    agents exactly when no two agents share a name; two agents of one name
    leave a single entry. One request is made per agent. *)
Theorem collect_answers_one_entry_per_name (question : string)
    (round_num : Z) (ags : list Agent) (w : World) :
  exists answers ags' w',
    collect_answers question round_num ags [] w = Ok (answers, ags', w')
    /\ NoDup (Py.keys answers)
    /\ (forall k, k ∈ Py.keys answers <-> k ∈ name <$> ags)
    /\ (length (Py.keys answers) <= length ags)%nat
    /\ (length (Py.keys answers) = length ags <-> NoDup (name <$> ags))
    /\ total_requests w' = (total_requests w + length ags)%nat.
Proof.
  destruct (collect_answers_keys_from question round_num ags [] w)
    as (answers & ags' & w' & Hrun & Hnd & Hkeys & Hle & Heq).
  destruct (collect_answers_frame question round_num ags [] w)
    as (answers2 & ags2 & w2 & Hrun2 & _ & Hreq).
  rewrite Hrun in Hrun2. injection Hrun2 as <- <- <-.
  exists answers, ags', w'. split; [done|].
  split; [apply Hnd; constructor|]. split.
  { intros k. rewrite Hkeys. split; [intros [H|H]; [|done]|by right].
    by apply elem_of_nil in H. }
  split; [done|]. split; [|done]. cbn [Py.keys length fmap list_fmap] in Heq.
  rewrite Heq. split; [by intros [? _]|]. intros Hndn. split; [done|].
  intros k _ H. by apply elem_of_nil in H.
Qed.

(* =================================================================== *)
(** * The log of agents *)
(* =================================================================== *)

Lemma filter_nil_find (logged : list AgentDict) (nm : string) :
  List.filter (fun a => String.eqb (d_name a) nm) logged = []
  <-> list_find (fun a => d_name a = nm) logged = None.
Proof.
  induction logged as [|a logged IH]; [done|].
  cbn [List.filter list_find].
  destruct (String.eqb_spec (d_name a) nm) as [Heq|Hne].
  - rewrite decide_True by done. done.
  - rewrite decide_False by done. rewrite IH.
    destruct (list_find _ logged) as [[i x]|]; done.
Qed.

Lemma log_agent_cases (logged : list AgentDict) (agent_dict : AgentDict) :
  (list_find (fun a => d_name a = d_name agent_dict) logged = None
   /\ log_agent logged agent_dict = logged ++ [agent_dict])
  \/ (exists i a,
        list_find (fun a => d_name a = d_name agent_dict) logged = Some (i, a)
        /\ log_agent logged agent_dict = <[i := agent_dict]> logged).
Proof.
  unfold log_agent.
  pose proof (filter_nil_find logged (d_name agent_dict)) as Hiff.
  destruct (list_find _ logged) as [[i a]|] eqn:Hfind.
  - right. exists i, a. split; [done|].
    destruct (List.filter _ logged); [|done].
    by destruct Hiff as [Hiff _]; specialize (Hiff eq_refl).
  - left. split; [done|]. destruct Hiff as [_ Hiff].
    by rewrite (Hiff eq_refl).
Qed.

(** [log_agent] inserts or overwrites. Afterwards the dictionary is in the
    log; the names in the log are the same as before when the name was
    logged already, and one more at the end otherwise; names that were
    distinct stay distinct; and logging the same dictionary again changes
    nothing. *)
Theorem log_agent_upserts (logged : list AgentDict) (agent_dict : AgentDict) :
  agent_dict ∈ log_agent logged agent_dict
  /\ d_name <$> log_agent logged agent_dict
     = (if decide (d_name agent_dict ∈ d_name <$> logged)
        then d_name <$> logged
        else (d_name <$> logged) ++ [d_name agent_dict])
  /\ (NoDup (d_name <$> logged) ->
      NoDup (d_name <$> log_agent logged agent_dict))
  /\ log_agent (log_agent logged agent_dict) agent_dict
     = log_agent logged agent_dict.
Proof.
  assert (forall i a,
            list_find (fun a => d_name a = d_name agent_dict) logged
            = Some (i, a) ->
            d_name <$> <[i := agent_dict]> logged = d_name <$> logged)
    as Hsame.
  { intros i a Hfind. apply list_find_Some in Hfind as (Hi & Hnm & _).
    rewrite list_fmap_insert. apply list_insert_id.
    by rewrite list_lookup_fmap, Hi, <- Hnm. }
  destruct (log_agent_cases logged agent_dict)
    as [[Hfind Hlog]|(i & a & Hfind & Hlog)]; rewrite Hlog.
  - assert (d_name agent_dict ∉ d_name <$> logged) as Hout.
    { intros Hin. apply list_elem_of_fmap in Hin as (x & Hx & Hin).
      apply list_find_None in Hfind. rewrite Forall_forall in Hfind.
      by apply (Hfind x). }
    split; [apply elem_of_app; right; by left|].
    rewrite decide_False by done. rewrite fmap_app. split; [done|]. split.
    { intros Hnd. apply NoDup_app. split; [done|].
      split; [|apply NoDup_singleton].
      intros x Hx Hx'. apply list_elem_of_singleton in Hx' as ->. done. }
    destruct (log_agent_cases (logged ++ [agent_dict]) agent_dict)
      as [[Hfind' _]|(j & b & Hfind' & ->)].
    { apply list_find_None in Hfind'. rewrite Forall_app in Hfind'.
      destruct Hfind' as [_ Hlast]. rewrite Forall_singleton in Hlast.
      by destruct Hlast. }
    apply list_find_Some in Hfind' as (Hj & Hb & Hmin).
    assert (j = length logged) as ->.
    { destruct (Nat.lt_ge_cases j (length logged)) as [Hlt|Hge].
      - rewrite lookup_app_l in Hj by done. exfalso. apply Hout.
        rewrite <- Hb. apply list_elem_of_fmap_2.
        by eapply list_elem_of_lookup_2.
      - pose proof (lookup_lt_Some _ _ _ Hj) as Hlt.
        rewrite length_app in Hlt. cbn in Hlt. lia. }
    rewrite insert_app_r_alt by done. by rewrite Nat.sub_diag.
  - pose proof (Hsame i a Hfind) as Hnames.
    pose proof Hfind as Hfind0.
    apply list_find_Some in Hfind as (Hi & Hnm & Hmin).
    pose proof (lookup_lt_Some _ _ _ Hi) as Hlt.
    split.
    { apply list_elem_of_lookup. exists i.
      by rewrite list_lookup_insert_eq. }
    rewrite Hnames.
    rewrite decide_True
      by (rewrite <- Hnm; apply list_elem_of_fmap_2;
          by eapply list_elem_of_lookup_2).
    split; [done|]. split; [done|].
    destruct (log_agent_cases (<[i := agent_dict]> logged) agent_dict)
      as [[Hfind' _]|(j & b & Hfind' & ->)].
    { apply list_find_None in Hfind'. rewrite Forall_forall in Hfind'.
      exfalso. apply (Hfind' agent_dict); [|done].
      apply list_elem_of_lookup. exists i.
      by rewrite list_lookup_insert_eq. }
    apply list_find_Some in Hfind' as (Hj & Hb & Hmin').
    assert (j = i) as ->.
    { destruct (Nat.lt_total j i) as [Hji|[->|Hij]]; [|done|].
      - rewrite list_lookup_insert_ne in Hj by lia.
        exfalso. by apply (Hmin j b Hj Hji).
      - exfalso. apply (Hmin' i agent_dict); [|done..].
        by rewrite list_lookup_insert_eq. }
    by rewrite list_insert_insert_eq.
Qed.

(* =================================================================== *)
(** * The loop over the rounds *)
(* =================================================================== *)

Lemma run_round_sizes (sim : HungerGamesSimulation) (round_num : Z)
    (question : string) (w : World) (result : RoundResult)
    (sim' : HungerGamesSimulation) (w' : World) :
  run_round sim round_num question w = Ok (result, sim', w') ->
  length (agents sim') = length (agents sim)
  /\ num_rounds sim' = num_rounds sim
  /\ (exists new_agent,
        all_agents_history sim' = all_agents_history sim ++ [new_agent]
        /\ birth_round new_agent = round_num)
  /\ length (elimination_history (evolution_manager sim'))
     = S (length (elimination_history (evolution_manager sim)))
  /\ length (creation_history (evolution_manager sim'))
     = S (length (creation_history (evolution_manager sim)))
  /\ length (vote_history (voting_system sim'))
     = S (length (vote_history (voting_system sim))).
Proof.
  intros Hrun.
  destruct (run_round_inv _ _ _ _ _ _ _ Hrun)
    as (answers & ags1 & w1 & vr & vs & ags2 & w2 & i & loser & new_agent
        & em' & Hans & Hvote & Hfind & Hnew & -> & ->).
  pose proof (run_round_ages _ _ _ _ _ _ _ _ _ _ _ Hans Hvote) as Hages.
  apply (f_equal length) in Hages. rewrite !length_fmap in Hages.
  destruct (conduct_vote_settled _ _ _ _ _ _ _ _ _ _ Hvote)
    as (_ & Hhist & _).
  destruct (create_evolved_agent_inv _ _ _ _ _ _ _ _ Hnew)
    as (parent & nm & pers & _ & _ & -> & ->).
  apply list_find_Some in Hfind as (Hi & _).
  apply lookup_lt_Some in Hi.
  cbn [agents num_rounds all_agents_history evolution_manager voting_system
       with_population record_creation record_elimination
       elimination_history creation_history].
  rewrite Hhist, !length_app, length_delete by (by apply lookup_lt_is_Some_2).
  cbn [length]. split; [lia|]. split; [done|].
  split; [by eexists|]. lia.
Qed.

Lemma run_rounds_from_inv (questions : list string) (count : nat) :
  forall sim round_num w sim' w',
    roster_ok sim ->
    run_rounds_from sim questions (S round_num) count w = Ok (sim', w') ->
    roster_ok sim'
    /\ length (agents sim') = length (agents sim)
    /\ (exists newcomers,
          all_agents_history sim' = all_agents_history sim ++ newcomers
          /\ birth_round <$> newcomers
             = Z.of_nat <$> seq (S round_num) count)
    /\ length (elimination_history (evolution_manager sim'))
       = (length (elimination_history (evolution_manager sim)) + count)%nat
    /\ length (creation_history (evolution_manager sim'))
       = (length (creation_history (evolution_manager sim)) + count)%nat
    /\ length (vote_history (voting_system sim'))
       = (length (vote_history (voting_system sim)) + count)%nat
    /\ (count = 0%nat
        \/ ((round_num + count <= length questions)%nat
            /\ current_round sim' = Z.of_nat (round_num + count))).
Proof.
  induction count as [|count IH]; intros sim round_num w sim' w' Hok Hrun.
  - cbn in Hrun. injection Hrun as <- _. split; [done|]. split; [done|].
    split; [exists []; by rewrite app_nil_r|].
    rewrite !Nat.add_0_r. auto.
  - cbn [run_rounds_from] in Hrun.
    replace (S round_num - 1)%nat with round_num in Hrun by lia.
    destruct (questions !! round_num) as [question|] eqn:Hq; [|done].
    apply lookup_lt_Some in Hq.
    apply bind_inv in Hrun as ([result sim1] & w1 & Hround & Hrest).
    pose proof (roster_ok_run_round _ _ _ _ _ _ _ Hok Hround) as Hok1.
    destruct (run_round_sizes _ _ _ _ _ _ _ Hround)
      as (Hags & Hnum & (new_agent & Hhist & Hbirth) & Helim & Hcre & Hvh).
    destruct (IH (with_current_round (Z.of_nat (S round_num)) sim1)
                (S round_num) w1 sim' w' Hok1 Hrest)
      as (Hok' & Hags' & (newcomers & Hhist' & Hbirths) & Helim' & Hcre'
          & Hvh' & Hcur).
    cbn [agents all_agents_history evolution_manager voting_system
         with_current_round] in *.
    split; [done|]. split; [congruence|]. split.
    { exists (new_agent :: newcomers). rewrite Hhist', Hhist, <- app_assoc.
      split; [done|]. cbn [seq]. by rewrite !fmap_cons, Hbirth, Hbirths. }
    split; [lia|]. split; [lia|]. split; [lia|]. right.
    destruct Hcur as [->|[Hlen Hcur]].
    + cbn in Hrest. injection Hrest as <- _. cbn [current_round
        with_current_round]. split; [lia|]. f_equal. lia.
    + split; [lia|]. rewrite Hcur. f_equal. lia.
Qed.

Lemma run_rounds_roster_ok (sim : HungerGamesSimulation)
    (questions : list string) (w : World) (sim' : HungerGamesSimulation)
    (w' : World) :
  roster_ok sim -> run_rounds sim questions w = Ok (sim', w') ->
  roster_ok sim'.
Proof.
  unfold run_rounds. intros Hok Hrun.
  by destruct (run_rounds_from_inv questions (num_rounds sim) sim 0 w sim' w'
                 Hok Hrun) as [H _].
Qed.

(** The loop over the rounds of [run_simulation], started on a well
    ordered roster. When it returns, the population has the size it
    started with, the roster has grown by one agent per round, born in
    rounds 1, 2, ... in that order, and is still well ordered; every round
    left one elimination record, one creation record and one vote record;
    and, unless no round was asked for, there was a question for every
    round and [current_round] is the number of rounds. *)
Theorem run_rounds_invariants (sim : HungerGamesSimulation)
    (questions : list string) (w : World) (sim' : HungerGamesSimulation)
    (w' : World) :
  roster_ok sim ->
  run_rounds sim questions w = Ok (sim', w') ->
  roster_ok sim'
  /\ length (agents sim') = length (agents sim)
  /\ (exists newcomers,
        all_agents_history sim' = all_agents_history sim ++ newcomers
        /\ birth_round <$> newcomers
           = Z.of_nat <$> seq 1 (num_rounds sim))
  /\ length (elimination_history (evolution_manager sim'))
     = (length (elimination_history (evolution_manager sim))
        + num_rounds sim)%nat
  /\ length (creation_history (evolution_manager sim'))
     = (length (creation_history (evolution_manager sim))
        + num_rounds sim)%nat
  /\ length (vote_history (voting_system sim'))
     = (length (vote_history (voting_system sim)) + num_rounds sim)%nat
  /\ (num_rounds sim = 0%nat
      \/ ((num_rounds sim <= length questions)%nat
          /\ current_round sim' = Z.of_nat (num_rounds sim))).
Proof.
  unfold run_rounds. intros Hok Hrun.
  by apply (run_rounds_from_inv questions (num_rounds sim) sim 0 w sim' w').
Qed.

(* =================================================================== *)
(** * The dictionary of an agent *)
(* =================================================================== *)

(** [to_dict] reports the whole size of the memory but only its last
    three entries, in their order; a memory of fewer than three entries
    is reported whole. *)
Theorem to_dict_recent_memories (self : Agent) :
  d_memory_count (to_dict self) = length (memory self)
  /\ d_recent_memories (to_dict self)
     = drop (length (memory self) - 3) (memory self)
  /\ length (d_recent_memories (to_dict self))
     = Nat.min 3 (length (memory self))
  /\ ((length (memory self) <= 3)%nat ->
      d_recent_memories (to_dict self) = memory self).
Proof.
  assert (d_recent_memories (to_dict self)
          = drop (length (memory self) - 3) (memory self)) as Hrecent.
  { unfold to_dict. cbn [d_recent_memories].
    destruct (memory self) as [|m rest] eqn:Hmem; [done|].
    unfold Py.slice_from. cbn [Z.ltb Z.compare]. f_equal. lia. }
  split; [done|]. split; [done|]. rewrite Hrecent. split.
  - rewrite length_drop. lia.
  - intros Hle. replace (length (memory self) - 3)%nat with 0%nat by lia.
    done.
Qed.

End Engine.

(* ===================================================================== *)
(** * Concrete runs *)
(* ===================================================================== *)

(** A scripted world: the model answers every prompt with the name "A"
    and a one-word justification, the random generator always draws 0 and
    the clock stands still. *)
Definition scripted : Oracles := {|
  ollama := fun _ _ _ =>
    HttpResponse 200 (Some ("A" +:+ Py.nl +:+ "best")) EmptyString;
  entropy := fun _ => 0%N;
  clock := fun _ => "2024-01-01T00:00:00"
|}.

Definition contestant (nm : string) : Agent :=
  new_Agent nm "You are curious." "llama2" 0 None 0.

Definition three_answers : Py.dict string :=
  [("A", "answer of A"); ("B", "answer of B"); ("C", "answer of C")].

Definition three_contestants : list Agent :=
  [contestant "A"; contestant "B"; contestant "C"].

Definition three_sim : HungerGamesSimulation :=
  with_population
    (new_HungerGamesSimulation config_py 3 8 "llama2" "single-choice" true)
    (new_VotingSystem "single-choice" false)
    (new_EvolutionManager config_py (MUTATION_RATE config_py)
       (MUTATION_TRAITS config_py))
    three_contestants three_contestants.

Definition fifteen_items : list (string * string * Z) :=
  (fun i => ("answer", pretty i, Z.of_nat i)) <$> seq 1 15.

Definition two_seeds : list Personality :=
  [{| p_name := "A"; p_personality := "first" |};
   {| p_name := "B"; p_personality := "second" |}].

Definition family : list Agent :=
  [new_Agent "A" "root" "llama2" 0 None 0;
   new_Agent "B" "child" "llama2" 1 (Some "A") 1].

Definition grandchild : Agent :=
  new_Agent "C" "grandchild" "llama2" 2 (Some "B") 2.

(** config.py with [MAX_MEMORY_SIZE] set to 0. *)
Definition config_uncapped : Config := {|
  OLLAMA_MODEL := OLLAMA_MODEL config_py;
  NUM_AGENTS := NUM_AGENTS config_py;
  NUM_ROUNDS := NUM_ROUNDS config_py;
  ALLOW_SELF_VOTING := ALLOW_SELF_VOTING config_py;
  VOTING_METHOD := VOTING_METHOD config_py;
  MUTATION_RATE := MUTATION_RATE config_py;
  MUTATION_TRAITS := MUTATION_TRAITS config_py;
  VERBOSE := VERBOSE config_py;
  MAX_MEMORY_SIZE := 0
|}.

(** A world whose generator never answers: every request times out. *)
Definition unreachable : Oracles := {|
  ollama := fun _ _ _ => HttpTimeout;
  entropy := fun _ => 0%N;
  clock := fun _ => "2024-01-01T00:00:00"
|}.

(** A world whose model answers every prompt with the same numbered
    list. *)
Definition ranking_scripted : Oracles := {|
  ollama := fun _ _ _ =>
    HttpResponse 200
      (Some ("1. B" +:+ Py.nl +:+ "2. A" +:+ Py.nl +:+ "3. C" +:+ Py.nl
             +:+ "Justification: in this order"))
      EmptyString;
  entropy := fun _ => 0%N;
  clock := fun _ => "2024-01-01T00:00:00"
|}.

(** Two contestants, set for two rounds, with self-voting allowed. *)
Definition two_agent_sim : HungerGamesSimulation :=
  with_population
    (new_HungerGamesSimulation config_py 2 2 "llama2" "single-choice" true)
    (new_VotingSystem "single-choice" true)
    (new_EvolutionManager config_py (MUTATION_RATE config_py)
       (MUTATION_TRAITS config_py))
    [contestant "A"; contestant "B"] [contestant "A"; contestant "B"].

(** The simulation after these two rounds in the scripted world. Both
    agents vote for A in round 1, so A is the only key of the tally and is
    eliminated, and B has the child "B Evolved"; in round 2 both votes
    fall back on B, B is eliminated, and "B Evolved" has a child of its
    own. *)
Definition dynasty : HungerGamesSimulation :=
  match run_rounds config_py scripted two_agent_sim ["q1"; "q2"] world0 with
  | Ok (sim', _) => sim'
  | Raise _ => two_agent_sim
  end.

(** The last agent of that population. *)
Definition heir : Agent := default (contestant "A") (last (agents dynasty)).

(** The three contestants, set for two rounds. *)
Definition two_round_sim : HungerGamesSimulation :=
  with_population
    (new_HungerGamesSimulation config_py 3 2 "llama2" "single-choice" true)
    (new_VotingSystem "single-choice" false)
    (new_EvolutionManager config_py (MUTATION_RATE config_py)
       (MUTATION_TRAITS config_py))
    three_contestants three_contestants.

Example strip_ex :
  Py.strip (" The Artist " +:+ Py.nl) = "The Artist".
Proof. reflexivity. Qed.

Example split1_ex :
  Py.split1 (Py.chr 10) ("Bob" +:+ Py.nl +:+ "clear" +:+ Py.nl +:+ "x")
  = ("Bob", Some ("clear" +:+ Py.nl +:+ "x")).
Proof. reflexivity. Qed.

Example slice_from_ex : Py.slice_from (-2) [1; 2; 3] = [2; 3].
Proof. reflexivity. Qed.

Example slice_from_minus_zero : Py.slice_from (- 0) [1; 2; 3] = [1; 2; 3].
Proof. reflexivity. Qed.

Example run_round_lone_agent :
  run_round config_py scripted
    (with_population three_sim (voting_system three_sim)
       (evolution_manager three_sim) [contestant "A"] [contestant "A"])
    1 "q" world0
  = Raise (ValueError "Cannot create evolved agent with no existing agents").
Proof. vm_compute. reflexivity. Qed.

Example tally_points_example :
  tally_points 3 [["A"; "B"; "C"]; ["B"; "A"; "C"]]
  = [("A", 5); ("B", 5); ("C", 2)].
Proof. reflexivity. Qed.

Example run_round_example :
  exists result sim' w',
    run_round config_py scripted three_sim 1 "q" world0 = Ok (result, sim', w')
    /\ rr_eliminated result = "B"
    /\ name <$> agents sim' = ["A"; "C"; "A Evolved"].
Proof. eexists _, _, _. split; [vm_compute; reflexivity|]. by split. Qed.

(** C1, at the failing input. Three agents A, B and C answer; A votes for
    B, and B and C vote for A. The tally is {B: 1, A: 2}: the candidate C,
    who received no vote, has no entry although it is a key of the
    answers. [get_loser] therefore names B, who has one vote, and
    [run_round] eliminates B while C, with no vote at all, stays in the
    population. *)
Theorem tally_omits_unchosen_candidate :
  (exists votes details justifs vs' ags' w',
     conduct_vote config_py scripted (new_VotingSystem "single-choice" false)
       three_contestants "q" three_answers 1 world0
     = Ok (SingleChoice 1 "q" votes details justifs 3, vs', ags', w')
     /\ Py.keys three_answers = ["A"; "B"; "C"]
     /\ (fun d => (voter d, voted_for d)) <$> details
        = [("A", "B"); ("B", "A"); ("C", "A")]
     /\ votes = [("B", 1%nat); ("A", 2%nat)]
     /\ Py.get votes "C" = None
     /\ (fun a => (name a, votes_received a)) <$> ags'
        = [("A", 2%nat); ("B", 1%nat); ("C", 0%nat)]
     /\ get_loser (SingleChoice 1 "q" votes details justifs 3) = "B")
  /\ (exists result sim' w',
        run_round config_py scripted three_sim 1 "q" world0
        = Ok (result, sim', w')
        /\ rr_eliminated result = "B"
        /\ name <$> agents sim' = ["A"; "C"; "A Evolved"]).
Proof.
  split.
  - eexists _, _, _, _, _, _. split; [vm_compute; reflexivity|].
    by repeat split.
  - eexists _, _, _. split; [vm_compute; reflexivity|]. by split.
Qed.

Lemma conduct_vote_tally_keys_witness :
  exists result vs' ags' w',
    conduct_vote config_py scripted (new_VotingSystem "single-choice" false)
      three_contestants "q" three_answers 1 world0
    = Ok (result, vs', ags', w')
    /\ (forall n, n ∈ tally_keys result <-> n ∈ chosen_names result)
    /\ (forall n, n ∈ tally_keys result ->
                  n ∈ Py.keys three_answers \/ n ∈ name <$> three_contestants)
    /\ ((forall a, a ∈ three_contestants -> name a ∈ Py.keys three_answers) ->
        forall n, n ∈ tally_keys result -> n ∈ Py.keys three_answers).
Proof.
  eexists _, _, _, _. split; [vm_compute; reflexivity|].
  eapply (conduct_vote_tally_keys config_py scripted
            (new_VotingSystem "single-choice" false) three_contestants "q"
            three_answers 1 world0).
  vm_compute. reflexivity.
Defined.


(** C3, at the failing input. With the two seeds A and B and a population
    of four, the agents created are A, B, A, A: the fourth uses seed 0,
    not seed 3 mod 2 = 1. With no seed at all the padding loop raises
    ZeroDivisionError. *)
Theorem initialize_agents_pads_with_first_seed :
  (exists sim' w',
     initialize_agents
       (new_HungerGamesSimulation config_py 4 8 "llama2" "single-choice" true)
       two_seeds world0
     = Ok (sim', w')
     /\ name <$> agents sim' = ["A"; "B"; "A"; "A"]
     /\ p_name <$> two_seeds !! (3 `mod` 2)%nat = Some "B")
  /\ initialize_agents
       (new_HungerGamesSimulation config_py 4 8 "llama2" "single-choice" true)
       [] world0
     = Raise ZeroDivisionError.
Proof.
  split; [|reflexivity].
  eexists _, _. split; [vm_compute; reflexivity|]. by split.
Qed.

Lemma vote_stays_in_candidate_set_witness :
  exists voted justif self' w',
    vote_on_answers config_py scripted (contestant "A") "q" three_answers 1
      false world0
    = Ok (voted, justif, self', w')
    /\ voted ∈ ["B"; "C"]
    /\ justif = VOTE_PARSING_FAILED.
Proof.
  destruct (vote_stays_in_candidate_set config_py scripted (contestant "A")
              "q" three_answers 1 false world0)
    as (reply & w1 & voted & justif & self' & w' & Hgen & Hvote & Hin & _
        & Hbad).
  - vm_compute. discriminate.
  - exists voted, justif, self', w'. split; [exact Hvote|].
    split; [exact Hin|]. apply Hbad.
    vm_compute in Hgen. injection Hgen as <- _. vm_compute. reflexivity.
Defined.

Lemma vote_alone_returns_self_witness :
  vote_on_answers config_py scripted (contestant "A") "q"
    [("A", "answer of A")] 1 false world0
  = Ok ("A", NO_OTHER_OPTIONS, contestant "A", world0).
Proof.
  apply (vote_alone_returns_self config_py scripted (contestant "A")).
  reflexivity.
Defined.

(** C7, counterexample. Agent A votes while its own answer is the only
    one and self-voting is disallowed: the call returns with the
    votes-cast counter still at 0 and the memory still empty. *)
Lemma vote_fallback_skips_bookkeeping :
  exists self' w',
    vote_on_answers config_py scripted (contestant "A") "q"
      [("A", "answer of A")] 1 false world0
    = Ok ("A", NO_OTHER_OPTIONS, self', w')
    /\ votes_cast (contestant "A") = 0%nat
    /\ votes_cast self' = 0%nat
    /\ memory self' = [].
Proof. eexists _, _. split; [vm_compute; reflexivity|]. by repeat split. Qed.

Lemma add_memory_keeps_most_recent_witness :
  exists self' w',
    add_memories config_py scripted (contestant "A") fifteen_items world0
    = Ok (self', w')
    /\ memory self'
       = drop (length fifteen_items - Z.to_nat (MAX_MEMORY_SIZE config_py))
           (stamped scripted (clock_reads world0) fifteen_items)
    /\ Z.of_nat (length (memory self')) = MAX_MEMORY_SIZE config_py.
Proof.
  apply (add_memory_keeps_most_recent config_py scripted (contestant "A")
           fifteen_items world0).
  - reflexivity.
  - reflexivity.
Defined.

Example add_memory_example :
  exists self' w',
    add_memories config_py scripted (contestant "A") fifteen_items world0
    = Ok (self', w')
    /\ m_content <$> memory self'
       = ["6"; "7"; "8"; "9"; "10"; "11"; "12"; "13"; "14"; "15"].
Proof. eexists _, _. split; [vm_compute; reflexivity|]. reflexivity. Qed.

Lemma eliminate_agent_first_match_witness :
  exists before a after,
    three_contestants = before ++ a :: after
    /\ name a = "B"
    /\ Forall (fun b => name b <> "B") before
    /\ eliminate_agent
         (new_EvolutionManager config_py (MUTATION_RATE config_py) [])
         three_contestants "B" 1 RECEIVED_FEWEST_VOTES
       = (Some a, before ++ after,
          record_elimination
            (new_EvolutionManager config_py (MUTATION_RATE config_py) [])
            (elimination_record 1 a RECEIVED_FEWEST_VOTES)).
Proof.
  apply (proj1 (eliminate_agent_first_match
                  (new_EvolutionManager config_py (MUTATION_RATE config_py) [])
                  three_contestants "B" 1 RECEIVED_FEWEST_VOTES)).
  apply Exists_cons_tl, Exists_cons_hd. reflexivity.
Defined.

Lemma get_lineage_terminates_witness :
  exists lineage oldest,
    get_lineage grandchild family = Some lineage
    /\ (forall fuel,
          (S (S (length family)) <= fuel)%nat ->
          get_lineage_fuel fuel grandchild family = Some lineage)
    /\ last lineage = Some (name grandchild)
    /\ head lineage = Some oldest
    /\ ((exists founder,
           (founder = grandchild \/ founder ∈ family)
           /\ truthy (parent_name founder) = false
           /\ name founder = oldest)
        \/ oldest ∉ name <$> family).
Proof.
  apply (get_lineage_terminates grandchild family).
  intros [|[|[|n]]]; cbn.
  - apply NoDup_nil_2.
  - apply NoDup_singleton.
  - apply NoDup_cons. split; [|apply NoDup_singleton].
    intros H. apply list_elem_of_singleton in H. discriminate.
  - apply NoDup_cons. split; [|apply NoDup_singleton].
    intros H. apply list_elem_of_singleton in H. discriminate.
Defined.

Example get_lineage_example :
  get_lineage grandchild family = Some ["A"; "B"; "C"].
Proof. reflexivity. Qed.

(* ===================================================================== *)
(** * Concrete runs of the further properties *)
(* ===================================================================== *)

Lemma founders_roster_ok (sim : HungerGamesSimulation) :
  Forall (fun a => parent_name a = None) (all_agents_history sim) ->
  agents sim = all_agents_history sim ->
  roster_ok sim.
Proof.
  intros Hfounders Hags. split.
  - intros i a Hi Htruthy. rewrite Forall_forall in Hfounders.
    rewrite (Hfounders a) in Htruthy by (by eapply list_elem_of_lookup_2).
    done.
  - intros a Ha. exists a. rewrite <- Hags. done.
Qed.

Lemma three_sim_roster_ok : roster_ok three_sim.
Proof. apply founders_roster_ok; [by repeat constructor|done]. Qed.

Lemma two_round_sim_roster_ok : roster_ok two_round_sim.
Proof. apply founders_roster_ok; [by repeat constructor|done]. Qed.

Lemma vote_never_for_self_witness :
  exists voted justif self' w',
    vote_on_answers config_py scripted (contestant "A") "q" three_answers 1
      false world0
    = Ok (voted, justif, self', w')
    /\ voted <> name (contestant "A").
Proof.
  apply (vote_never_for_self config_py scripted (contestant "A") "q"
           three_answers 1 world0).
  vm_compute. discriminate.
Defined.

Lemma well_formed_vote_is_honoured_witness :
  exists self' w',
    vote_on_answers config_py scripted (contestant "B") "q" three_answers 1
      false world0
    = Ok ("A", "best", self', w')
    /\ rand_draws w' = rand_draws world0
    /\ total_requests w' = S (total_requests world0).
Proof.
  apply (well_formed_vote_is_honoured config_py scripted (contestant "B") "q"
           three_answers 1 false world0 "A" "best" EmptyString).
  - reflexivity.
  - vm_compute. left.
  - discriminate.
  - reflexivity.
  - reflexivity.
  - discriminate.
  - reflexivity.
Defined.

Lemma add_memory_stays_within_cap_witness :
  exists self' w' entry,
    add_memory config_py scripted (contestant "A") "answer" "text" 1 world0
    = Ok (self', w')
    /\ entry = {| m_type := "answer"; m_content := "text"; m_round := 1;
                  m_timestamp := clock scripted (clock_reads world0) |}
    /\ length (memory self')
       = Nat.min (S (length (memory (contestant "A"))))
           (Z.to_nat (MAX_MEMORY_SIZE config_py))
    /\ last (memory self') = Some entry
    /\ memory self' `suffix_of` memory (contestant "A") ++ [entry].
Proof.
  apply (add_memory_stays_within_cap config_py scripted (contestant "A")
           "answer" "text" 1 world0).
  vm_compute. discriminate.
Defined.

Lemma add_memory_nonpositive_cap_witness :
  exists self' w',
    add_memory config_uncapped scripted (contestant "A") "answer" "text" 1
      world0
    = Ok (self', w')
    /\ memory self'
       = drop (Z.to_nat (- MAX_MEMORY_SIZE config_uncapped))
           (memory (contestant "A")
              ++ [{| m_type := "answer"; m_content := "text"; m_round := 1;
                     m_timestamp := clock scripted (clock_reads world0) |}]).
Proof.
  apply (add_memory_nonpositive_cap config_uncapped scripted (contestant "A")
           "answer" "text" 1 world0).
  vm_compute. discriminate.
Defined.

Lemma conduct_vote_effects_witness :
  exists result vs' ags' w',
    conduct_vote config_py scripted (new_VotingSystem "single-choice" false)
      three_contestants "q" three_answers 1 world0
    = Ok (result, vs', ags', w')
    /\ settled <$> ags' = settled <$> three_contestants
    /\ match result with
       | SingleChoice _ _ votes _ _ _ =>
           votes_received <$> ags'
           = (fun a => votes_received a
                       + Py.get_default 0%nat votes (name a))%nat
               <$> three_contestants
       | RankedChoice _ _ _ _ _ => ags' = three_contestants
       end
    /\ vote_history vs'
       = vote_history (new_VotingSystem "single-choice" false) ++ [result]
    /\ method vs' = method (new_VotingSystem "single-choice" false)
    /\ allow_self_voting vs'
       = allow_self_voting (new_VotingSystem "single-choice" false).
Proof.
  eexists _, _, _, _. split; [vm_compute; reflexivity|].
  eapply (conduct_vote_effects config_py scripted
            (new_VotingSystem "single-choice" false) three_contestants "q"
            three_answers 1 world0).
  vm_compute. reflexivity.
Defined.

Lemma initialize_agents_creates_founders_witness :
  exists sim' founders,
    initialize_agents
      (new_HungerGamesSimulation config_py 4 8 "llama2" "single-choice" true)
      two_seeds world0
    = Ok (sim', world0)
    /\ agents sim' = [] ++ founders
    /\ all_agents_history sim' = [] ++ founders
    /\ length founders = 4%nat
    /\ Forall (fun a => exists p, p ∈ two_seeds
                                  /\ a = new_founder "llama2" p) founders
    /\ take (length two_seeds) founders
       = new_founder "llama2" <$> take 4 two_seeds
    /\ voting_system sim'
       = voting_system
           (new_HungerGamesSimulation config_py 4 8 "llama2" "single-choice"
              true)
    /\ evolution_manager sim'
       = evolution_manager
           (new_HungerGamesSimulation config_py 4 8 "llama2" "single-choice"
              true).
Proof.
  apply (initialize_agents_creates_founders
           (new_HungerGamesSimulation config_py 4 8 "llama2" "single-choice"
              true) two_seeds world0).
  discriminate.
Defined.

Lemma run_round_survivors_age_witness :
  exists result sim' w',
    run_round config_py scripted three_sim 1 "q" world0
    = Ok (result, sim', w')
    /\ exists i new_agent,
         (name <$> agents three_sim) !! i = Some (rr_eliminated result)
         /\ (forall j, (j < i)%nat ->
               (name <$> agents three_sim) !! j
               <> Some (rr_eliminated result))
         /\ settled <$> agents sim'
            = delete i (aged <$> agents three_sim) ++ [new_agent]
         /\ name new_agent = rr_evolved result.
Proof.
  eexists _, _, _. split; [vm_compute; reflexivity|].
  eapply (run_round_survivors_age config_py scripted three_sim 1 "q" world0).
  vm_compute. reflexivity.
Defined.

Lemma run_round_newcomer_witness :
  exists result sim' w',
    run_round config_py scripted three_sim 1 "q" world0
    = Ok (result, sim', w')
    /\ exists survivors new_agent parent,
         agents sim' = survivors ++ [new_agent]
         /\ all_agents_history sim'
            = all_agents_history three_sim ++ [new_agent]
         /\ parent ∈ survivors
         /\ new_agent
            = new_Agent (rr_evolved result) (personality_prompt new_agent)
                (sim_model three_sim) (generation parent + 1)
                (Some (name parent)) 1
         /\ rr_evolved result <> EmptyString.
Proof.
  eexists _, _, _. split; [vm_compute; reflexivity|].
  eapply (run_round_newcomer config_py scripted three_sim 1 "q" world0).
  vm_compute. reflexivity.
Defined.

Lemma run_round_histories_witness :
  exists result sim' w',
    run_round config_py scripted three_sim 1 "q" world0
    = Ok (result, sim', w')
    /\ exists eliminated created,
         vote_history (voting_system sim')
         = vote_history (voting_system three_sim) ++ [rr_votes result]
         /\ elimination_history (evolution_manager sim')
            = elimination_history (evolution_manager three_sim)
              ++ [eliminated]
         /\ e_round eliminated = 1
         /\ e_agent_name eliminated = rr_eliminated result
         /\ e_reason eliminated = RECEIVED_FEWEST_VOTES
         /\ (1 <= e_rounds_survived eliminated)%nat
         /\ creation_history (evolution_manager sim')
            = creation_history (evolution_manager three_sim) ++ [created]
         /\ c_round created = 1
         /\ c_agent_name created = rr_evolved result
         /\ method (voting_system sim') = method (voting_system three_sim)
         /\ allow_self_voting (voting_system sim')
            = allow_self_voting (voting_system three_sim)
         /\ mutation_rate (evolution_manager sim')
            = mutation_rate (evolution_manager three_sim)
         /\ mutation_traits (evolution_manager sim')
            = mutation_traits (evolution_manager three_sim)
         /\ num_agents sim' = num_agents three_sim
         /\ num_rounds sim' = num_rounds three_sim
         /\ sim_model sim' = sim_model three_sim
         /\ current_round sim' = current_round three_sim.
Proof.
  eexists _, _, _. split; [vm_compute; reflexivity|].
  eapply (run_round_histories config_py scripted three_sim 1 "q" world0).
  vm_compute. reflexivity.
Defined.

Lemma dynasty_run :
  exists w',
    run_rounds config_py scripted two_agent_sim ["q1"; "q2"] world0
    = Ok (dynasty, w').
Proof. eexists. vm_compute. reflexivity. Qed.

Lemma two_agent_sim_roster_ok : roster_ok two_agent_sim.
Proof. apply founders_roster_ok; [by repeat constructor|done]. Qed.

Lemma dynasty_roster_ok : roster_ok dynasty.
Proof.
  destruct dynasty_run as [w' Hrun].
  exact (run_rounds_roster_ok config_py scripted _ _ _ _ _
           two_agent_sim_roster_ok Hrun).
Qed.

Example dynasty_example :
  (fun a => (name a, parent_name a)) <$> all_agents_history dynasty
  = [("A", None); ("B", None); ("B Evolved", Some "B");
     ("B Evolved Evolved", Some "B Evolved")]
  /\ name <$> agents dynasty = ["B Evolved"; "B Evolved Evolved"]
  /\ name heir = "B Evolved Evolved"
  /\ get_lineage heir (all_agents_history dynasty)
     = Some ["B"; "B Evolved"; "B Evolved Evolved"].
Proof. vm_compute. by repeat split. Qed.

Lemma get_lineage_terminates_on_engine_rosters_witness :
  exists lineage founder,
    get_lineage heir (all_agents_history dynasty) = Some lineage
    /\ last lineage = Some (name heir)
    /\ head lineage = Some (name founder)
    /\ founder ∈ all_agents_history dynasty
    /\ truthy (parent_name founder) = false
    /\ (length lineage <= length (all_agents_history dynasty))%nat.
Proof.
  apply (get_lineage_terminates_on_engine_rosters dynasty heir).
  - exact dynasty_roster_ok.
  - left. vm_compute. right. left.
Defined.

Lemma get_lineage_returns_only_without_cycle_witness :
  acyclic family grandchild
  /\ get_lineage grandchild family = Some ["A"; "B"; "C"]
  /\ ["A"; "B"; "C"]
     = reverse (name grandchild :: lookups 5 family grandchild).
Proof.
  apply (get_lineage_returns_only_without_cycle 5 grandchild family
           ["A"; "B"; "C"]).
  reflexivity.
Defined.

Lemma run_rounds_invariants_witness :
  exists sim' w',
    run_rounds config_py scripted two_round_sim ["q1"; "q2"] world0
    = Ok (sim', w')
    /\ roster_ok sim'
    /\ length (agents sim') = length (agents two_round_sim)
    /\ (exists newcomers,
          all_agents_history sim'
          = all_agents_history two_round_sim ++ newcomers
          /\ birth_round <$> newcomers
             = Z.of_nat <$> seq 1 (num_rounds two_round_sim))
    /\ length (elimination_history (evolution_manager sim'))
       = (length (elimination_history (evolution_manager two_round_sim))
          + num_rounds two_round_sim)%nat
    /\ length (creation_history (evolution_manager sim'))
       = (length (creation_history (evolution_manager two_round_sim))
          + num_rounds two_round_sim)%nat
    /\ length (vote_history (voting_system sim'))
       = (length (vote_history (voting_system two_round_sim))
          + num_rounds two_round_sim)%nat
    /\ (num_rounds two_round_sim = 0%nat
        \/ ((num_rounds two_round_sim <= length ["q1"; "q2"])%nat
            /\ current_round sim' = Z.of_nat (num_rounds two_round_sim))).
Proof.
  eexists _, _. split; [vm_compute; reflexivity|].
  eapply (run_rounds_invariants config_py scripted two_round_sim
            ["q1"; "q2"] world0).
  - exact two_round_sim_roster_ok.
  - vm_compute. reflexivity.
Defined.

Example run_rounds_example :
  exists sim' w',
    run_rounds config_py scripted two_round_sim ["q1"; "q2"] world0
    = Ok (sim', w')
    /\ name <$> agents sim' = ["A"; "A Evolved"; "A Evolved"]
    /\ name <$> all_agents_history sim'
       = ["A"; "B"; "C"; "A Evolved"; "A Evolved"]
    /\ current_round sim' = 2.
Proof. eexists _, _. split; [vm_compute; reflexivity|]. by repeat split. Qed.

Example generate_with_retry_gives_up :
  generate_with_retry unreachable "p" "llama2" 3 2 world0
  = Ok (Some "[Error: Request timeout]",
        {| total_requests := 3; failed_requests := 3; rand_draws := 0;
           clock_reads := 0 |}).
Proof. reflexivity. Qed.

Example generate_with_retry_negative_delay :
  generate_with_retry unreachable "p" "llama2" 3 (-1) world0
  = Raise (ValueError "sleep length must be non-negative")
  /\ generate_with_retry unreachable "p" "llama2" 1 (-1) world0
     = Ok (Some "[Error: Request timeout]",
           {| total_requests := 1; failed_requests := 1; rand_draws := 0;
              clock_reads := 0 |})
  /\ generate_with_retry scripted "p" "llama2" 3 (-1) world0
     = Ok (Some ("A" +:+ Py.nl +:+ "best"),
           {| total_requests := 1; failed_requests := 0; rand_draws := 0;
              clock_reads := 0 |}).
Proof. by repeat split. Qed.

Example ranked_choice_example :
  exists details vs' w',
    _ranked_choice_vote ranking_scripted
      (new_VotingSystem "ranked-choice" false) three_contestants "q"
      three_answers 1 world0
    = Ok (RankedChoice 1 "q" [("B", 6); ("C", 4); ("A", 5)] details 3,
          vs', three_contestants, w')
    /\ (fun d => (r_voter d, rankings d)) <$> details
       = [("A", ["B"; "C"]); ("B", ["A"; "C"]); ("C", ["B"; "A"])].
Proof. eexists _, _, _. split; [vm_compute; reflexivity|]. done. Qed.
